(** * Credit/Debit note app: the two script reports

    A shallow embedding of
    - [most_selling_report___stock_report.py] (report 1: top selling items
      against stock) and
    - [sales_analaytic___custom_report.py] (report 2: sales by customer
      group and sub group, with period buckets and a chart),
    and the properties of the specification checked against it.

    Conventions of the embedding.
    - Python values that reach the scripts untyped (filter values, cells of
      result rows) are values of [pyval]; numbers are exact integers.
    - A Python [dict] is an insertion-ordered association list ([dict]);
      the order is what the row shaper's output order depends on.
    - Code that can raise returns [res]; [frappe.throw] raises
      [ValidationError].
    - [datetime.date] is a year/month/day triple between 0001-01-01 and
      9999-12-31; leaving that range raises, as it does in Python. *)

From Stdlib Require Import ZArith List Sorted String Ascii DecimalString Bool Lia.
From Stdlib Require DecimalPos DecimalZ.
From Equations Require Import Equations.
Import ListNotations.
Local Open Scope string_scope.
Local Open Scope Z_scope.

(** ** Exceptions and results *)

Inductive exn : Type :=
| ValidationError (msg : string)
| TypeError
| ValueError
| OverflowError
| KeyError (key : string).

Inductive res (A : Type) : Type :=
| Ok (a : A)
| Raise (e : exn).
Arguments Ok {A} a.
Arguments Raise {A} e.

Definition bind {A B} (m : res A) (k : A -> res B) : res B :=
  match m with
  | Ok a => k a
  | Raise e => Raise e
  end.

Notation "x <- m ;; k" := (bind m (fun x => k))
  (at level 61, m at next level, right associativity).

Fixpoint mapM {A B} (f : A -> res B) (l : list A) : res (list B) :=
  match l with
  | [] => Ok []
  | x :: xs => y <- f x ;; ys <- mapM f xs ;; Ok (y :: ys)
  end.

(** ** Calendar dates ([datetime.date]) *)

Record date : Type := mkdate { year : Z; month : Z; day : Z }.

Definition MINYEAR : Z := 1.
Definition MAXYEAR : Z := 9999.

Definition is_leap (y : Z) : bool :=
  (y mod 4 =? 0) && (negb (y mod 100 =? 0) || (y mod 400 =? 0)).

(** [calendar.monthrange(y, m)[1]] *)
Definition days_in_month (y m : Z) : Z :=
  if m =? 2 then (if is_leap y then 29 else 28)
  else if (m =? 4) || (m =? 6) || (m =? 9) || (m =? 11) then 30
  else 31.

Definition valid_date (d : date) : bool :=
  (MINYEAR <=? year d) && (year d <=? MAXYEAR) &&
  (1 <=? month d) && (month d <=? 12) &&
  (1 <=? day d) && (day d <=? days_in_month (year d) (month d)).

(** [date(y, m, d)] and [date.replace]: the constructor checks the range. *)
Definition date_new (y m d : Z) : res date :=
  if valid_date (mkdate y m d) then Ok (mkdate y m d) else Raise ValueError.

Definition date_eqb (a b : date) : bool :=
  (year a =? year b) && (month a =? month b) && (day a =? day b).

(** [a < b] and [a <= b] on dates. *)
Definition date_ltb (a b : date) : bool :=
  (year a <? year b) ||
  ((year a =? year b) &&
   ((month a <? month b) || ((month a =? month b) && (day a <? day b)))).

Definition date_leb (a b : date) : bool := negb (date_ltb b a).

(** [d + relativedelta(months=n)] for [n >= 0].  dateutil first normalises
    the delta ([12] months are one year), then moves year and month, clips
    the day to the length of the target month, and builds the date with
    [replace], which raises [ValueError] past year 9999. *)
Definition add_months (d : date) (months : Z) : res date :=
  let rd_years := months / 12 in
  let rd_months := months mod 12 in
  let y := year d + rd_years in
  let m := month d + rd_months in
  let y' := if m >? 12 then y + 1 else y in
  let m' := if m >? 12 then m - 12 else m in
  date_new y' m' (Z.min (days_in_month y' m') (day d)).

(** [d - relativedelta(days=1)]: the previous calendar day. *)
Definition sub_one_day (d : date) : res date :=
  if 1 <? day d then Ok (mkdate (year d) (month d) (day d - 1))
  else if 1 <? month d then
    Ok (mkdate (year d) (month d - 1) (days_in_month (year d) (month d - 1)))
  else if MINYEAR <? year d then Ok (mkdate (year d - 1) 12 31)
  else Raise OverflowError.

(** [d + timedelta(days=1)]: the next calendar day. *)
Definition add_one_day (d : date) : res date :=
  if day d <? days_in_month (year d) (month d) then
    Ok (mkdate (year d) (month d) (day d + 1))
  else if month d <? 12 then Ok (mkdate (year d) (month d + 1) 1)
  else if year d <? MAXYEAR then Ok (mkdate (year d + 1) 1 1)
  else Raise OverflowError.

(** [date.toordinal]: the day number, 0001-01-01 being day 1. *)
Definition days_before_year (y : Z) : Z :=
  let p := y - 1 in p * 365 + p / 4 - p / 100 + p / 400.

Fixpoint days_before_month_aux (y : Z) (n : nat) : Z :=
  match n with
  | O => 0
  | S k => days_before_month_aux y k + days_in_month y (Z.of_nat (S k))
  end.

Definition days_before_month (y m : Z) : Z :=
  days_before_month_aux y (Z.to_nat (m - 1)).

Definition toordinal (d : date) : Z :=
  days_before_year (year d) + days_before_month (year d) (month d) + day d.

(** Months since year 0: the quantity the bucket loop strictly increases. *)
Definition month_index (d : date) : Z := year d * 12 + (month d - 1).

(** ** [strftime] *)

Definition month_abbr (m : Z) : string :=
  match m with
  | 1 => "Jan" | 2 => "Feb" | 3 => "Mar" | 4 => "Apr"
  | 5 => "May" | 6 => "Jun" | 7 => "Jul" | 8 => "Aug"
  | 9 => "Sep" | 10 => "Oct" | 11 => "Nov" | _ => "Dec"
  end.

Definition digit_char (n : Z) : ascii :=
  ascii_of_nat (48 + Z.to_nat (n mod 10)).

(** [%Y]: the year as four decimal digits, 0001 to 9999. *)
Definition year4 (y : Z) : string :=
  String (digit_char (y / 1000))
    (String (digit_char (y / 100))
       (String (digit_char (y / 10))
          (String (digit_char y) EmptyString))).

(** [d.strftime("%b_%Y")] and [d.strftime("%b %Y")] *)
Definition strftime_key (d : date) : string :=
  month_abbr (month d) ++ "_" ++ year4 (year d).

Definition strftime_label (d : date) : string :=
  month_abbr (month d) ++ " " ++ year4 (year d).

(** ** Python values and dictionaries *)

Inductive pyval : Type :=
| PNone
| PStr (s : string)
| PNum (n : Z)
| PDate (d : date).

Definition pyval_eqb (a b : pyval) : bool :=
  match a, b with
  | PNone, PNone => true
  | PStr s, PStr t => String.eqb s t
  | PNum n, PNum m => n =? m
  | PDate d, PDate e => date_eqb d e
  | _, _ => false
  end.

(** Truth value of a Python object: [None], [""] and [0] are falsy. *)
Definition truthy (v : pyval) : bool :=
  match v with
  | PNone => false
  | PStr s => negb (String.eqb s "")
  | PNum n => negb (n =? 0)
  | PDate _ => true
  end.

(** [a or b] *)
Definition py_or (a b : pyval) : pyval := if truthy a then a else b.

Section Dict.
Context {K V : Type} (eqb : K -> K -> bool).

(** [d.get(k)], [None] when the key is absent. *)
Fixpoint dict_get (d : list (K * V)) (k : K) : option V :=
  match d with
  | [] => None
  | (k', v) :: rest => if eqb k' k then Some v else dict_get rest k
  end.

(** [d[k] = v]: an existing key keeps its position, a new key goes last. *)
Fixpoint dict_set (d : list (K * V)) (k : K) (v : V) : list (K * V) :=
  match d with
  | [] => [(k, v)]
  | (k', v') :: rest =>
      if eqb k' k then (k', v) :: rest else (k', v') :: dict_set rest k v
  end.

(** [k in d] *)
Definition dict_mem (d : list (K * V)) (k : K) : bool :=
  match dict_get d k with Some _ => true | None => false end.

(** [d.setdefault(k, v)], as a statement. *)
Definition dict_setdefault (d : list (K * V)) (k : K) (v : V)
  : list (K * V) :=
  if dict_mem d k then d else dict_set d k v.

Definition dict_keys (d : list (K * V)) : list K := map fst d.
Definition dict_values (d : list (K * V)) : list V := map snd d.
End Dict.

(** Dictionaries keyed by strings (filters, query parameters, rows). *)
Definition sdict (V : Type) : Type := list (string * V).
Definition sget {V} (d : sdict V) (k : string) : option V :=
  dict_get String.eqb d k.
Definition sset {V} (d : sdict V) (k : string) (v : V) : sdict V :=
  dict_set String.eqb d k v.

(** [d.get(k)] and [d.get(k, default)] on dictionaries of Python values. *)
Definition py_get (d : sdict pyval) (k : string) : pyval :=
  match sget d k with Some v => v | None => PNone end.
Definition py_get_default (d : sdict pyval) (k : string) (dflt : pyval)
  : pyval :=
  match sget d k with Some v => v | None => dflt end.

(** [d[k]], raising [KeyError] when the key is absent. *)
Definition py_item (d : sdict pyval) (k : string) : res pyval :=
  match sget d k with Some v => Ok v | None => Raise (KeyError k) end.

(** * Report 2: the period bucketer *)

Record bucket : Type := mkbucket {
  b_key : string;
  b_label : string;
  b_from_date : date;
  b_to_date : date
}.

(** The [increments] table and [increments.get(period, 1)]. *)
Definition increments : sdict positive :=
  [("Monthly", 1%positive); ("Quarterly", 3%positive);
   ("Half Yearly", 6%positive); ("Yearly", 12%positive)].

Definition increments_get (period : pyval) : positive :=
  match period with
  | PStr s => match sget increments s with Some n => n | None => 1%positive end
  | _ => 1%positive
  end.

Lemma add_months_index d n d' :
  0 <= n -> add_months d n = Ok d' ->
  month_index d' = month_index d + n /\ valid_date d' = true.
Proof.
  unfold add_months, date_new, month_index. intros Hn.
  set (y := if month d + n mod 12 >? 12 then _ else _).
  set (m := if month d + n mod 12 >? 12 then _ else _).
  destruct (valid_date _) eqn:Hv; [| discriminate].
  intros [= <-]. split; [| exact Hv]. cbn [year month].
  subst y m. pose proof (Z.div_mod n 12 ltac:(lia)).
  destruct (month d + n mod 12 >? 12); lia.
Qed.

Definition MAX_INDEX : Z := MAXYEAR * 12 + 11.

(** Months left until the end of the calendar: the loop's measure. *)
Definition months_left (d : date) : nat :=
  Z.to_nat (MAX_INDEX + 1 - month_index d).
Arguments months_left : simpl never.

Lemma valid_date_index d : valid_date d = true -> month_index d <= MAX_INDEX.
Proof.
  unfold valid_date, month_index, MAX_INDEX, MINYEAR, MAXYEAR. intros H.
  repeat (apply andb_prop in H; destruct H as [H ?]). lia.
Qed.

Lemma months_left_decreases d n d' :
  0 < n -> add_months d n = Ok d' -> (months_left d' < months_left d)%nat.
Proof.
  intros Hn H. apply add_months_index in H as [Hi Hv]; [| lia].
  apply valid_date_index in Hv. unfold months_left. lia.
Qed.

(** Keeps the equation of a scrutinee for the termination proof. *)
Definition inspect {A : Type} (x : A) : {y : A | x = y} := exist _ x eq_refl.

(** The [while start <= to_date] loop of [get_period_date_ranges].  Every
    turn moves the cursor [step >= 1] months ahead and dates end with year
    9999, so the loop ends: by leaving the range or by raising. *)
Equations? period_loop (step : positive) (to_date start : date)
  : res (list bucket)
  by wf (months_left start) lt :=
  period_loop step to_date start with date_leb start to_date := {
    | false := Ok [];
    | true with inspect (add_months start (Z.pos step)) := {
        | exist _ (Raise e) _ := Raise e;
        | exist _ (Ok next) Hnext :=
            end_ <- sub_one_day next ;;
            let end_ := if date_ltb to_date end_ then to_date else end_ in
            let p := mkbucket (strftime_key start) (strftime_label start)
                              start end_ in
            rest <- period_loop step to_date next ;;
            Ok (p :: rest) } }.
Proof.
  eapply months_left_decreases; [| exact Hnext]. lia.
Qed.

(** [frappe.utils.getdate].  Dates reach the model parsed: a value that
    denotes a date is a [PDate], which [getdate] returns as it is.  For text
    that is no date the host raises a validation error; the model does so for
    every other value. *)
Definition getdate (v : pyval) : res date :=
  match v with
  | PDate d => Ok d
  | _ => Raise (ValidationError "not a valid date string")
  end.

Definition get_period_date_ranges (period from_date to_date : pyval)
  : res (list bucket) :=
  from_date <- getdate from_date ;;
  to_date <- getdate to_date ;;
  let step := increments_get period in
  period_loop step to_date from_date.

(** ** Facts about dates *)

Lemma days_in_month_bounds y m : 28 <= days_in_month y m <= 31.
Proof.
  unfold days_in_month.
  destruct (m =? 2); [destruct (is_leap y); lia |].
  destruct ((m =? 4) || (m =? 6) || (m =? 9) || (m =? 11)); lia.
Qed.

Lemma days_in_december y : days_in_month y 12 = 31.
Proof. reflexivity. Qed.

Lemma valid_date_spec d :
  valid_date d = true <->
  MINYEAR <= year d <= MAXYEAR /\ 1 <= month d <= 12 /\
  1 <= day d <= days_in_month (year d) (month d).
Proof.
  unfold valid_date. rewrite !andb_true_iff, !Z.leb_le. tauto.
Qed.

Lemma date_ltb_spec a b :
  date_ltb a b = true <->
  year a < year b \/
  (year a = year b /\
   (month a < month b \/ (month a = month b /\ day a < day b))).
Proof.
  unfold date_ltb.
  rewrite orb_true_iff, andb_true_iff, orb_true_iff, andb_true_iff.
  rewrite !Z.ltb_lt, !Z.eqb_eq. tauto.
Qed.

Lemma date_leb_spec a b :
  date_leb a b = true <->
  year a < year b \/
  (year a = year b /\
   (month a < month b \/ (month a = month b /\ day a <= day b))).
Proof.
  unfold date_leb. rewrite negb_true_iff, <- not_true_iff_false, date_ltb_spec.
  lia.
Qed.

Lemma date_ltb_false a b : date_ltb a b = false <-> date_leb b a = true.
Proof. unfold date_leb. rewrite negb_true_iff. tauto. Qed.

Lemma date_leb_refl a : date_leb a a = true.
Proof. apply date_leb_spec. lia. Qed.

Lemma date_leb_antisym a b :
  date_leb a b = true -> date_leb b a = true -> a = b.
Proof.
  rewrite !date_leb_spec. destruct a, b; cbn [year month day].
  intros H1 H2. f_equal; lia.
Qed.

Lemma date_ltb_leb a b : date_ltb a b = true -> date_leb a b = true.
Proof. rewrite date_ltb_spec, date_leb_spec. lia. Qed.

Lemma date_leb_ltb_trans a b c :
  date_leb a b = true -> date_ltb b c = true -> date_ltb a c = true.
Proof. rewrite date_leb_spec, !date_ltb_spec. lia. Qed.

Lemma date_ltb_leb_trans a b c :
  date_ltb a b = true -> date_leb b c = true -> date_ltb a c = true.
Proof. rewrite date_leb_spec, !date_ltb_spec. lia. Qed.

Lemma date_ltb_irrefl a : date_ltb a a = false.
Proof. apply not_true_iff_false. rewrite date_ltb_spec. lia. Qed.

(** On valid dates the order of dates refines the order of months. *)
Lemma date_leb_month_index a b :
  valid_date a = true -> valid_date b = true ->
  date_leb a b = true -> month_index a <= month_index b.
Proof.
  rewrite !valid_date_spec, date_leb_spec. unfold month_index. lia.
Qed.

Lemma month_index_date_ltb a b :
  valid_date a = true -> valid_date b = true ->
  month_index a < month_index b -> date_ltb a b = true.
Proof.
  rewrite !valid_date_spec, date_ltb_spec. unfold month_index. lia.
Qed.

(** [add_months] succeeds exactly when the target month is in the calendar. *)
Lemma add_months_ok d n :
  valid_date d = true -> 0 <= n -> month_index d + n <= MAX_INDEX ->
  exists d', add_months d n = Ok d'.
Proof.
  intros Hv Hn Hm. apply valid_date_spec in Hv.
  unfold add_months, date_new.
  set (y := if month d + n mod 12 >? 12 then _ else _).
  set (m := if month d + n mod 12 >? 12 then _ else _).
  destruct (valid_date _) eqn:E; [eauto |].
  exfalso. apply not_true_iff_false in E. apply E. clear E.
  apply valid_date_spec. cbn [year month day].
  pose proof (days_in_month_bounds y m).
  pose proof (days_in_month_bounds (year d) (month d)).
  pose proof (Z.div_mod n 12 ltac:(lia)).
  pose proof (Z.mod_pos_bound n 12 ltac:(lia)).
  assert (0 <= n / 12) by (apply Z.div_pos; lia).
  unfold month_index, MAX_INDEX, MINYEAR, MAXYEAR in *.
  subst y m. destruct (Z.gtb_spec (month d + n mod 12) 12); lia.
Qed.

Lemma add_months_overflow d n :
  valid_date d = true -> 0 <= n -> MAX_INDEX < month_index d + n ->
  add_months d n = Raise ValueError.
Proof.
  intros Hv Hn Hm. destruct (add_months d n) as [d' |e] eqn:E.
  - apply add_months_index in E as [Hi Hv']; [| lia].
    apply valid_date_index in Hv'. lia.
  - unfold add_months, date_new in E.
    match type of E with
    | (if ?c then _ else _) = _ => destruct c; [discriminate | congruence]
    end.
Qed.

Lemma add_months_later d n d' :
  valid_date d = true -> 0 < n -> add_months d n = Ok d' ->
  date_ltb d d' = true.
Proof.
  intros Hv Hn H. apply add_months_index in H as [Hi Hv']; [| lia].
  apply month_index_date_ltb; auto. lia.
Qed.

Lemma days_before_month_succ y m :
  1 <= m <= 11 ->
  days_before_month y (m + 1) = days_before_month y m + days_in_month y m.
Proof.
  intros Hm. unfold days_before_month.
  replace (Z.to_nat (m + 1 - 1)) with (S (Z.to_nat (m - 1))) by lia.
  cbn [days_before_month_aux]. do 2 f_equal. lia.
Qed.

Lemma days_before_december y :
  days_before_month y 12 = if is_leap y then 335 else 334.
Proof.
  cbv -[is_leap]. destruct (is_leap y); reflexivity.
Qed.

Lemma days_before_year_succ y :
  days_before_year (y + 1) = days_before_year y + days_before_month y 12 + 31.
Proof.
  rewrite days_before_december. unfold days_before_year, is_leap.
  replace (y + 1 - 1) with y by lia.
  destruct (Z.eqb_spec (y mod 4) 0), (Z.eqb_spec (y mod 100) 0),
    (Z.eqb_spec (y mod 400) 0); cbn [andb orb negb];
    Z.div_mod_to_equations; lia.
Qed.

(** The day before a valid date other than the first one. *)
Lemma sub_one_day_spec a d :
  valid_date a = true -> valid_date d = true -> date_ltb a d = true ->
  exists e, sub_one_day d = Ok e /\ valid_date e = true /\
            date_leb a e = true /\ date_ltb e d = true /\
            add_one_day e = Ok d /\ toordinal e + 1 = toordinal d.
Proof.
  intros Ha Hd Hlt. pose proof Ha as Ha'. pose proof Hd as Hd'.
  apply valid_date_spec in Ha', Hd'. apply date_ltb_spec in Hlt.
  unfold MINYEAR, MAXYEAR in *.
  destruct d as [y m dd], a as [ya ma da]; cbn [year month day] in *.
  unfold sub_one_day, MINYEAR; cbn [year month day].
  destruct (Z.ltb_spec 1 dd).
  - eexists; split; [reflexivity |]. repeat split.
    + apply valid_date_spec; cbn [year month day]; unfold MINYEAR, MAXYEAR; lia.
    + apply date_leb_spec; cbn [year month day]; lia.
    + apply date_ltb_spec; cbn [year month day]; lia.
    + unfold add_one_day; cbn [year month day].
      destruct (Z.ltb_spec (dd - 1) (days_in_month y m)); [| lia].
      do 2 f_equal; lia.
    + unfold toordinal; cbn [year month day]; lia.
  - assert (dd = 1) by lia; subst dd.
    destruct (Z.ltb_spec 1 m).
    + pose proof (days_in_month_bounds y (m - 1)).
      pose proof (days_in_month_bounds ya ma).
      eexists; split; [reflexivity |]. repeat split.
      * apply valid_date_spec; cbn [year month day]; unfold MINYEAR, MAXYEAR; lia.
      * apply date_leb_spec; cbn [year month day].
        destruct (Z.eq_dec ya y); [subst ya | lia].
        destruct (Z.eq_dec ma (m - 1)); [subst ma | lia]. lia.
      * apply date_ltb_spec; cbn [year month day]; lia.
      * unfold add_one_day; cbn [year month day].
        rewrite Z.ltb_irrefl.
        destruct (Z.ltb_spec (m - 1) 12); [| lia].
        do 2 f_equal; lia.
      * unfold toordinal; cbn [year month day].
        replace (days_before_month y m)
          with (days_before_month y (m - 1 + 1)) by (f_equal; lia).
        rewrite days_before_month_succ by lia. lia.
    + assert (m = 1) by lia; subst m.
      destruct (Z.ltb_spec 1 y); [| lia].
      eexists; split; [reflexivity |]. repeat split.
      * apply valid_date_spec; cbn [year month day]; unfold MINYEAR, MAXYEAR.
        rewrite days_in_december; lia.
      * apply date_leb_spec; cbn [year month day].
        pose proof (days_in_month_bounds ya ma).
        destruct (Z.eq_dec ya (y - 1)); [subst ya | lia].
        destruct (Z.eq_dec ma 12); [subst ma | lia].
        rewrite days_in_december in *. lia.
      * apply date_ltb_spec; cbn [year month day]; lia.
      * unfold add_one_day; cbn [year month day].
        rewrite days_in_december, !Z.ltb_irrefl.
        unfold MAXYEAR. destruct (Z.ltb_spec (y - 1) 9999); [| lia].
        do 2 f_equal; lia.
      * unfold toordinal; cbn [year month day].
        replace (days_before_year y)
          with (days_before_year (y - 1 + 1)) by (f_equal; lia).
        rewrite days_before_year_succ.
        change (days_before_month y 1) with 0. lia.
Qed.

(** ** The bucket loop, one turn at a time *)

Lemma period_loop_step step to_date start :
  period_loop step to_date start =
  if date_leb start to_date then
    match add_months start (Z.pos step) with
    | Raise e => Raise e
    | Ok next =>
        end_ <- sub_one_day next ;;
        let end_ := if date_ltb to_date end_ then to_date else end_ in
        let p := mkbucket (strftime_key start) (strftime_label start)
                          start end_ in
        rest <- period_loop step to_date next ;;
        Ok (p :: rest)
    end
  else Ok [].
Proof.
  funelim (period_loop step to_date start).
  all: try match goal with H : date_leb _ _ = _ |- _ => rewrite H end.
  all: try match goal with H : add_months _ _ = _ |- _ => rewrite H end.
  all: reflexivity.
Qed.

(** ** What the specification asks of a bucket sequence *)

(** Each bucket starts the day after the previous one ends. *)
Fixpoint contiguous (l : list bucket) : Prop :=
  match l with
  | b1 :: ((b2 :: _) as rest) =>
      date_ltb (b_to_date b1) (b_from_date b2) = true /\
      add_one_day (b_to_date b1) = Ok (b_from_date b2) /\
      toordinal (b_from_date b2) = toordinal (b_to_date b1) + 1 /\
      contiguous rest
  | _ => True
  end.

(** Every bucket but the last ends [step] months after its start, less a
    day. *)
Fixpoint full_but_last (step : Z) (l : list bucket) : Prop :=
  match l with
  | b1 :: ((_ :: _) as rest) =>
      (exists d, add_months (b_from_date b1) step = Ok d /\
                 sub_one_day d = Ok (b_to_date b1)) /\
      full_but_last step rest
  | _ => True
  end.

Definition bucket_sequence (step : Z) (from_date to_date : date)
  (l : list bucket) : Prop :=
  (exists b rest, l = b :: rest /\ b_from_date b = from_date) /\
  (exists front b, l = (front ++ [b])%list /\ b_to_date b = to_date) /\
  Forall (fun b => valid_date (b_from_date b) = true /\
                   valid_date (b_to_date b) = true /\
                   date_leb (b_from_date b) (b_to_date b) = true) l /\
  contiguous l /\
  full_but_last step l.

Lemma period_loop_past step to_date start :
  date_leb start to_date = false -> period_loop step to_date start = Ok [].
Proof. intros H. rewrite period_loop_step, H. reflexivity. Qed.

Lemma period_loop_sequence step to_date :
  valid_date to_date = true ->
  forall n start l,
    (months_left start < n)%nat ->
    valid_date start = true -> date_leb start to_date = true ->
    period_loop step to_date start = Ok l ->
    bucket_sequence (Z.pos step) start to_date l.
Proof.
  intros Hto. induction n as [| n IH]; intros start l Hn Hs Hle; [lia |].
  rewrite period_loop_step, Hle.
  destruct (add_months start (Z.pos step)) as [next |] eqn:Hnext;
    [| discriminate].
  assert (Hpos : 0 < Z.pos step) by lia.
  pose proof (add_months_later _ _ _ Hs Hpos Hnext) as Hlater.
  pose proof (months_left_decreases _ _ _ Hpos Hnext) as Hdec.
  destruct (add_months_index _ _ _ (Z.lt_le_incl _ _ Hpos) Hnext) as [_ Hvn].
  destruct (sub_one_day_spec _ _ Hs Hvn Hlater)
    as (e & He & Hve & Hse & Hen & Hsucc & Hord).
  rewrite He. cbn [bind].
  destruct (date_leb next to_date) eqn:Hnt.
  - (* more buckets follow: this one is a full period *)
    destruct (period_loop step to_date next) as [rest |] eqn:Hrest;
      [| discriminate].
    cbn [bind]. intros [= <-].
    assert (Hte : date_ltb to_date e = false).
    { apply date_ltb_false. apply date_ltb_leb.
      eapply date_ltb_leb_trans; eauto. }
    rewrite Hte.
    destruct (IH next rest ltac:(lia) Hvn Hnt Hrest)
      as ((b & rest' & -> & Hb) & (front & bl & Hfront & Hbl) & Hall & Hc & Hf).
    refine (conj _ (conj _ (conj _ (conj _ _)))).
    + eauto.
    + exists (mkbucket (strftime_key start) (strftime_label start) start e
                :: front), bl.
      rewrite Hfront. auto.
    + constructor; auto.
    + cbn [contiguous b_to_date]. rewrite Hb. auto.
    + cbn [full_but_last b_from_date b_to_date]. split; eauto.
  - (* the cursor passes [to_date]: the last bucket, clamped *)
    rewrite (period_loop_past _ _ _ Hnt). cbn [bind]. intros [= <-].
    assert (Hlt : date_ltb to_date next = true).
    { unfold date_leb in Hnt. apply negb_false_iff in Hnt. exact Hnt. }
    destruct (sub_one_day_spec _ _ Hto Hvn Hlt) as (e' & He' & _ & Hte' & _).
    assert (e' = e) by congruence. subst e'.
    set (end_ := if date_ltb to_date e then to_date else e).
    assert (Hend : end_ = to_date).
    { subst end_. destruct (date_ltb to_date e) eqn:E; [reflexivity |].
      apply date_leb_antisym; [apply date_ltb_false; exact E | exact Hte']. }
    rewrite Hend. refine (conj _ (conj _ (conj _ (conj _ _)))).
    + eauto.
    + exists [], (mkbucket (strftime_key start) (strftime_label start) start
                    to_date). auto.
    + constructor; auto.
    + exact I.
    + exact I.
Qed.

Lemma period_loop_returns step to_date :
  valid_date to_date = true ->
  month_index to_date + Z.pos step <= MAX_INDEX ->
  forall n start,
    (months_left start < n)%nat -> valid_date start = true ->
    exists l, period_loop step to_date start = Ok l.
Proof.
  intros Hto Hmax. induction n as [| n IH]; intros start Hn Hs; [lia |].
  rewrite period_loop_step.
  assert (Hpos : 0 < Z.pos step) by lia.
  destruct (date_leb start to_date) eqn:Hle; [| eauto].
  pose proof (date_leb_month_index _ _ Hs Hto Hle).
  destruct (add_months_ok start (Z.pos step) Hs) as [next Hnext]; [lia .. |].
  rewrite Hnext.
  pose proof (add_months_later _ _ _ Hs Hpos Hnext) as Hlater.
  pose proof (months_left_decreases _ _ _ Hpos Hnext) as Hdec.
  destruct (add_months_index _ _ _ (Z.lt_le_incl _ _ Hpos) Hnext) as [_ Hvn].
  destruct (sub_one_day_spec _ _ Hs Hvn Hlater) as (e & He & _).
  rewrite He. cbn [bind].
  destruct (IH next ltac:(lia) Hvn) as [rest ->]. cbn [bind]. eauto.
Qed.

Lemma period_loop_single step d l :
  valid_date d = true -> period_loop step d d = Ok l -> List.length l = 1%nat.
Proof.
  intros Hd. rewrite period_loop_step, date_leb_refl.
  assert (Hpos : 0 < Z.pos step) by lia.
  destruct (add_months d (Z.pos step)) as [next |] eqn:Hnext; [| discriminate].
  pose proof (add_months_later _ _ _ Hd Hpos Hnext) as Hlater.
  destruct (sub_one_day next) as [e |]; [| discriminate]. cbn [bind].
  rewrite period_loop_past
    by (unfold date_leb; rewrite Hlater; reflexivity).
  cbn [bind]. intros [= <-]. reflexivity.
Qed.

(** The periods the report offers, and their month increments. *)
Definition enumerated_period (period : pyval) : Prop :=
  In period [PStr "Monthly"; PStr "Quarterly"; PStr "Half Yearly";
             PStr "Yearly"].

Definition period_months (period : pyval) : Z := Z.pos (increments_get period).

Lemma period_months_enumerated :
  period_months (PStr "Monthly") = 1 /\ period_months (PStr "Quarterly") = 3 /\
  period_months (PStr "Half Yearly") = 6 /\ period_months (PStr "Yearly") = 12.
Proof. repeat split. Qed.

(** The quarterly example of the specification. *)
Definition quarterly_2025 : list bucket :=
  [ mkbucket "Jan_2025" "Jan 2025" (mkdate 2025 1 15) (mkdate 2025 4 14);
    mkbucket "Apr_2025" "Apr 2025" (mkdate 2025 4 15) (mkdate 2025 7 14);
    mkbucket "Jul_2025" "Jul 2025" (mkdate 2025 7 15) (mkdate 2025 10 14);
    mkbucket "Oct_2025" "Oct 2025" (mkdate 2025 10 15) (mkdate 2025 12 31) ].

Example quarterly_2025_buckets :
  get_period_date_ranges (PStr "Quarterly") (PDate (mkdate 2025 1 15))
    (PDate (mkdate 2025 12 31)) = Ok quarterly_2025.
Proof. vm_compute. reflexivity. Qed.

(** Month ends drift: a monthly run from January 31st continues on the 28th. *)
Example monthly_from_jan_31 :
  option_map (map (fun b => (b_from_date b, b_to_date b)))
    (match get_period_date_ranges (PStr "Monthly") (PDate (mkdate 2025 1 31))
             (PDate (mkdate 2025 3 31)) with Ok l => Some l | Raise _ => None end) =
  Some [ (mkdate 2025 1 31, mkdate 2025 2 27);
         (mkdate 2025 2 28, mkdate 2025 3 27);
         (mkdate 2025 3 28, mkdate 2025 3 31) ].
Proof. vm_compute. reflexivity. Qed.

(** C1, as stated: for every [from_date <= to_date] and every enumerated
    period the bucketer returns a bucket sequence.  It does not at the end of
    the calendar: the cursor has to step past [to_date] to end the loop, and
    past 9999-12-31 there is no date. *)
Lemma get_period_date_ranges_calendar_end :
  valid_date (mkdate 9999 12 31) = true /\
  date_leb (mkdate 9999 12 31) (mkdate 9999 12 31) = true /\
  enumerated_period (PStr "Monthly") /\
  get_period_date_ranges (PStr "Monthly") (PDate (mkdate 9999 12 31))
    (PDate (mkdate 9999 12 31)) = Raise ValueError /\
  ~ (exists l, get_period_date_ranges (PStr "Monthly") (PDate (mkdate 9999 12 31))
                 (PDate (mkdate 9999 12 31)) = Ok l /\
               bucket_sequence 1 (mkdate 9999 12 31) (mkdate 9999 12 31) l).
Proof.
  assert (E : get_period_date_ranges (PStr "Monthly") (PDate (mkdate 9999 12 31))
                (PDate (mkdate 9999 12 31)) = Raise ValueError)
    by (vm_compute; reflexivity).
  refine (conj eq_refl (conj eq_refl (conj _ (conj E _)))).
  - left; reflexivity.
  - intros (l & Hl & _). rewrite E in Hl. discriminate.
Qed.

(** C1, amended: for valid dates [from_date <= to_date] and every enumerated
    period, whenever [to_date] moved on by the period's increment is still a
    month of the calendar (at most December 9999),
    [get_period_date_ranges] returns a sequence of buckets; and whatever
    sequence it returns is non-empty, starts at [from_date], ends at
    [to_date], has each bucket begin the day after the previous one ends
    (ascending, non-overlapping, contiguous), has every bucket but the last
    end one day before its start plus the increment, and is a single bucket
    when [from_date = to_date].  The quarterly example yields the four
    stated buckets. *)
Theorem get_period_date_ranges_buckets period from_date to_date :
  enumerated_period period ->
  valid_date from_date = true -> valid_date to_date = true ->
  date_leb from_date to_date = true ->
  (month_index to_date + period_months period <= MAX_INDEX ->
   exists l, get_period_date_ranges period (PDate from_date) (PDate to_date) = Ok l) /\
  (forall l,
     get_period_date_ranges period (PDate from_date) (PDate to_date) = Ok l ->
     bucket_sequence (period_months period) from_date to_date l /\
     (from_date = to_date -> List.length l = 1%nat)) /\
  get_period_date_ranges (PStr "Quarterly") (PDate (mkdate 2025 1 15))
    (PDate (mkdate 2025 12 31)) = Ok quarterly_2025.
Proof.
  intros _ Hf Ht Hle. unfold get_period_date_ranges, getdate, period_months.
  cbn [bind].
  split; [| split].
  - intros Hmax.
    eapply period_loop_returns; eauto.
  - intros l Hl. split.
    + eapply period_loop_sequence; eauto.
    + intros ->. eapply period_loop_single; eauto.
  - exact quarterly_2025_buckets.
Qed.

Lemma get_period_date_ranges_buckets_witness :
  exists l,
    get_period_date_ranges (PStr "Monthly") (PDate (mkdate 2024 1 31))
      (PDate (mkdate 2024 3 15)) = Ok l /\
    bucket_sequence 1 (mkdate 2024 1 31) (mkdate 2024 3 15) l.
Proof.
  destruct (get_period_date_ranges_buckets (PStr "Monthly")
              (mkdate 2024 1 31) (mkdate 2024 3 15))
    as (Hex & Hseq & _).
  - left; reflexivity.
  - reflexivity.
  - reflexivity.
  - reflexivity.
  - destruct Hex as [l Hl]; [vm_compute; discriminate |].
    exists l. split; [exact Hl |]. apply (Hseq l Hl).
Defined.

(** ** Bucket keys *)

(** What may appear in a key: ASCII letters, digits and the underscore. *)
Definition key_char (c : ascii) : bool :=
  let n := nat_of_ascii c in
  ((65 <=? n) && (n <=? 90))%nat || ((97 <=? n) && (n <=? 122))%nat ||
  ((48 <=? n) && (n <=? 57))%nat || (n =? 95)%nat.

Fixpoint all_chars (p : ascii -> bool) (s : string) : bool :=
  match s with
  | EmptyString => true
  | String c rest => p c && all_chars p rest
  end.

Fixpoint has_char (c : ascii) (s : string) : bool :=
  match s with
  | EmptyString => false
  | String c' rest => Ascii.eqb c' c || has_char c rest
  end.

Lemma digit_char_cases n :
  In (digit_char n) ["0"; "1"; "2"; "3"; "4"; "5"; "6"; "7"; "8"; "9"]%char.
Proof.
  unfold digit_char. pose proof (Z.mod_pos_bound n 10 ltac:(lia)) as H.
  assert (Hk : (Z.to_nat (n mod 10) < 10)%nat) by lia.
  revert Hk. generalize (Z.to_nat (n mod 10)). intros k Hk.
  do 10 (destruct k as [| k]; [cbn; tauto |]). lia.
Qed.

Lemma digit_char_key n : key_char (digit_char n) = true.
Proof.
  pose proof (digit_char_cases n) as H. cbn [In] in H.
  repeat (destruct H as [<- | H]; [reflexivity |]). contradiction.
Qed.

Lemma month_abbr_cases m :
  In (month_abbr m)
    ["Jan"; "Feb"; "Mar"; "Apr"; "May"; "Jun"; "Jul"; "Aug"; "Sep"; "Oct";
     "Nov"; "Dec"].
Proof.
  unfold month_abbr.
  repeat match goal with
         | |- context [match ?x with _ => _ end] => destruct x
         end; cbn; tauto.
Qed.

Lemma all_chars_app p s t :
  all_chars p (s ++ t) = all_chars p s && all_chars p t.
Proof.
  induction s as [| c s IH]; cbn; [reflexivity |].
  rewrite IH, andb_assoc. reflexivity.
Qed.

Lemma strftime_key_chars d : all_chars key_char (strftime_key d) = true.
Proof.
  unfold strftime_key. rewrite !all_chars_app.
  assert (Hm : all_chars key_char (month_abbr (month d)) = true).
  { pose proof (month_abbr_cases (month d)) as H. cbn [In] in H.
    repeat (destruct H as [<- | H]; [reflexivity |]). contradiction. }
  rewrite Hm. unfold year4. cbn [all_chars]. rewrite !digit_char_key.
  reflexivity.
Qed.

Lemma all_chars_has_char p c s :
  all_chars p s = true -> p c = false -> has_char c s = false.
Proof.
  intros Hs Hc. induction s as [| c' s IH]; cbn in *; [reflexivity |].
  apply andb_prop in Hs as [Hc' Hs]. rewrite (IH Hs), orb_false_r.
  destruct (Ascii.eqb_spec c' c); [congruence | reflexivity].
Qed.

Lemma digit_char_inj a b :
  0 <= a < 10 -> 0 <= b < 10 -> digit_char a = digit_char b -> a = b.
Proof.
  unfold digit_char. intros Ha Hb H.
  rewrite !Z.mod_small in H by lia.
  apply (f_equal nat_of_ascii) in H.
  rewrite !nat_ascii_embedding in H by lia. lia.
Qed.

Lemma year4_inj y1 y2 :
  0 <= y1 < 10000 -> 0 <= y2 < 10000 -> year4 y1 = year4 y2 -> y1 = y2.
Proof.
  unfold year4. intros H1 H2 [= E3 E2 E1 E0].
  unfold digit_char in *.
  apply (f_equal nat_of_ascii) in E3, E2, E1, E0.
  pose proof (Z.mod_pos_bound (y1 / 1000) 10 ltac:(lia)).
  pose proof (Z.mod_pos_bound (y1 / 100) 10 ltac:(lia)).
  pose proof (Z.mod_pos_bound (y1 / 10) 10 ltac:(lia)).
  pose proof (Z.mod_pos_bound y1 10 ltac:(lia)).
  pose proof (Z.mod_pos_bound (y2 / 1000) 10 ltac:(lia)).
  pose proof (Z.mod_pos_bound (y2 / 100) 10 ltac:(lia)).
  pose proof (Z.mod_pos_bound (y2 / 10) 10 ltac:(lia)).
  pose proof (Z.mod_pos_bound y2 10 ltac:(lia)).
  rewrite !nat_ascii_embedding in E3, E2, E1, E0 by lia.
  assert (F0 : y1 mod 10 = y2 mod 10) by lia.
  assert (F1 : (y1 / 10) mod 10 = (y2 / 10) mod 10) by lia.
  assert (F2 : (y1 / 100) mod 10 = (y2 / 100) mod 10) by lia.
  assert (F3 : (y1 / 1000) mod 10 = (y2 / 1000) mod 10) by lia.
  clear E0 E1 E2 E3. Z.div_mod_to_equations. lia.
Qed.

Lemma month_abbr_length m : String.length (month_abbr m) = 3%nat.
Proof.
  pose proof (month_abbr_cases m) as H. cbn [In] in H.
  repeat (destruct H as [<- | H]; [reflexivity |]). contradiction.
Qed.

Lemma month_abbr_inj m1 m2 :
  1 <= m1 <= 12 -> 1 <= m2 <= 12 -> month_abbr m1 = month_abbr m2 -> m1 = m2.
Proof.
  intros H1 H2.
  assert (C1 : m1 = 1 \/ m1 = 2 \/ m1 = 3 \/ m1 = 4 \/ m1 = 5 \/ m1 = 6 \/
               m1 = 7 \/ m1 = 8 \/ m1 = 9 \/ m1 = 10 \/ m1 = 11 \/ m1 = 12)
    by lia.
  assert (C2 : m2 = 1 \/ m2 = 2 \/ m2 = 3 \/ m2 = 4 \/ m2 = 5 \/ m2 = 6 \/
               m2 = 7 \/ m2 = 8 \/ m2 = 9 \/ m2 = 10 \/ m2 = 11 \/ m2 = 12)
    by lia.
  repeat (destruct C1 as [-> | C1]); try subst m1;
    repeat (destruct C2 as [-> | C2]); try subst m2;
    cbn; intros E; first [reflexivity | discriminate E].
Qed.

Lemma string_app_inv (s1 s2 t1 t2 : string) :
  String.length s1 = String.length s2 ->
  (s1 ++ t1 = s2 ++ t2)%string -> s1 = s2 /\ t1 = t2.
Proof.
  revert s2. induction s1 as [| c s1 IH]; intros [| c2 s2]; cbn;
    try discriminate.
  - auto.
  - intros [= Hl] [= -> E]. destruct (IH _ Hl E) as [-> ->]. auto.
Qed.

(** The key tells the month and year of the bucket's start. *)
Lemma strftime_key_inj d1 d2 :
  valid_date d1 = true -> valid_date d2 = true ->
  strftime_key d1 = strftime_key d2 ->
  year d1 = year d2 /\ month d1 = month d2.
Proof.
  rewrite !valid_date_spec. unfold MINYEAR, MAXYEAR, strftime_key.
  intros H1 H2 E.
  apply string_app_inv in E as [Em E];
    [| rewrite !month_abbr_length; reflexivity].
  cbn [append] in E. injection E as E.
  split.
  - apply year4_inj; [lia | lia | unfold year4; congruence].
  - apply month_abbr_inj; [lia | lia | exact Em].
Qed.

(** Bucket starts are valid dates in strictly later and later months, and
    key and label are formatted from the start. *)
Definition earlier_month (b1 b2 : bucket) : Prop :=
  month_index (b_from_date b1) < month_index (b_from_date b2).

Definition formatted_from_start (b : bucket) : Prop :=
  b_key b = strftime_key (b_from_date b) /\
  b_label b = strftime_label (b_from_date b) /\
  valid_date (b_from_date b) = true.

Lemma period_loop_starts step to_date :
  forall n start l,
    (months_left start < n)%nat -> valid_date start = true ->
    period_loop step to_date start = Ok l ->
    Forall formatted_from_start l /\
    Forall (fun b => month_index start <= month_index (b_from_date b)) l /\
    StronglySorted earlier_month l.
Proof.
  induction n as [| n IH]; intros start l Hn Hs; [lia |].
  rewrite period_loop_step.
  destruct (date_leb start to_date).
  2: { intros [= <-]. repeat constructor. }
  assert (Hpos : 0 < Z.pos step) by lia.
  destruct (add_months start (Z.pos step)) as [next |] eqn:Hnext;
    [| discriminate].
  pose proof (months_left_decreases _ _ _ Hpos Hnext) as Hdec.
  destruct (add_months_index _ _ _ (Z.lt_le_incl _ _ Hpos) Hnext)
    as [Hidx Hvn].
  destruct (sub_one_day next) as [e |]; [| discriminate]. cbn [bind].
  destruct (period_loop step to_date next) as [rest |] eqn:Hrest;
    [| discriminate].
  cbn [bind]. intros [= <-].
  destruct (IH next rest ltac:(lia) Hvn Hrest) as (Hfmt & Hge & Hsorted).
  refine (conj _ (conj _ _)).
  - constructor; [| exact Hfmt]. repeat split; assumption.
  - constructor; [cbn; lia |].
    eapply Forall_impl; [| exact Hge]. cbn. intros b Hb. lia.
  - constructor; [exact Hsorted |].
    eapply Forall_impl; [| exact Hge].
    unfold earlier_month. cbn. intros b Hb. lia.
Qed.

Lemma StronglySorted_In_cases {A} (R : A -> A -> Prop) l a b :
  StronglySorted R l -> In a l -> In b l -> a = b \/ R a b \/ R b a.
Proof.
  induction 1 as [| x l Hs IH Hall]; intros Ha Hb; [contradiction |].
  rewrite Forall_forall in Hall.
  destruct Ha as [-> | Ha], Hb as [-> | Hb]; auto.
Qed.

Lemma StronglySorted_NoDup_map {A B} (R : A -> A -> Prop) (f : A -> B) l :
  (forall a b, In a l -> In b l -> R a b -> f a <> f b) ->
  StronglySorted R l -> NoDup (map f l).
Proof.
  intros Hf. induction 1 as [| x l Hs IH Hall]; cbn; constructor.
  - rewrite in_map_iff. intros (y & Hy & Hin).
    rewrite Forall_forall in Hall.
    apply (Hf x y); cbn; auto.
  - apply IH. intros a b Ha Hb. apply Hf; cbn; auto.
Qed.



(** * Report 1: top selling items against stock *)

(** ** Strings and integers as Python converts them *)

Definition is_digit (c : ascii) : bool :=
  let n := nat_of_ascii c in ((48 <=? n) && (n <=? 57))%nat.

(** White space as [str.strip] and [int] see it (ASCII). *)
Definition is_space (c : ascii) : bool :=
  let n := nat_of_ascii c in
  ((9 <=? n) && (n <=? 13))%nat || ((28 <=? n) && (n <=? 32))%nat.

Definition digit_value (c : ascii) : Z := Z.of_nat (nat_of_ascii c) - 48.

Fixpoint lstrip (s : string) : string :=
  match s with
  | String c rest => if is_space c then lstrip rest else s
  | EmptyString => EmptyString
  end.

Fixpoint string_rev (s : string) : string :=
  match s with
  | EmptyString => EmptyString
  | String c rest => string_rev rest ++ String c EmptyString
  end.

Definition strip (s : string) : string :=
  string_rev (lstrip (string_rev (lstrip s))).

(** Digits with single underscores between them, as [int] accepts them;
    [after_digit] tells whether the previous character was a digit. *)
Fixpoint parse_digits (s : string) (acc : Z) (after_digit : bool)
  : option Z :=
  match s with
  | EmptyString => if after_digit then Some acc else None
  | String c rest =>
      if is_digit c then parse_digits rest (acc * 10 + digit_value c) true
      else if Ascii.eqb c "_" && after_digit then parse_digits rest acc false
      else None
  end.

(** [int(s)] for a string: white space around, an optional sign, digits. *)
Definition int_of_string (s : string) : option Z :=
  match strip s with
  | String "+" rest => parse_digits rest 0 false
  | String "-" rest => option_map Z.opp (parse_digits rest 0 false)
  | body => parse_digits body 0 false
  end.

(** [int(v)] *)
Definition py_int (v : pyval) : res Z :=
  match v with
  | PNum n => Ok n
  | PStr s =>
      match int_of_string s with Some n => Ok n | None => Raise ValueError end
  | PNone | PDate _ => Raise TypeError
  end.

(** [str(n)] for an integer *)
Definition string_of_Z (n : Z) : string :=
  NilZero.string_of_int (Z.to_int n).

Definition digits2 (n : Z) : string :=
  String (digit_char (n / 10)) (String (digit_char n) EmptyString).

(** [str(v)] *)
Definition py_str (v : pyval) : string :=
  match v with
  | PNone => "None"
  | PStr s => s
  | PNum n => string_of_Z n
  | PDate d => year4 (year d) ++ "-" ++ digits2 (month d) ++ "-" ++
               digits2 (day d)
  end.

(** The leading digits of a string, and [re.search(r"\d+", s)]: the first
    maximal run of decimal digits, if there is one. *)
Fixpoint take_digits (s : string) : string :=
  match s with
  | String c rest => if is_digit c then String c (take_digits rest)
                     else EmptyString
  | EmptyString => EmptyString
  end.

Fixpoint re_search_digits (s : string) : option string :=
  match s with
  | EmptyString => None
  | String c rest =>
      if is_digit c then Some (take_digits s) else re_search_digits rest
  end.

(** ** [get_data] *)

(** Lines 43 to 52: the [limit] filter resolved to an integer or to [None]. *)
Definition resolve_limit (limit_value : pyval) : res (option Z) :=
  if truthy limit_value then
    match py_int limit_value with
    | Ok n => Ok (Some n)
    | Raise _ =>
        match re_search_digits (py_str limit_value) with
        | Some group => n <- py_int (PStr group) ;; Ok (Some n)
        | None => Ok None
        end
    end
  else Ok None.

Definition order_by_field_of (sort_by : pyval) : string :=
  if pyval_eqb sort_by (PStr "Amount") then "total_amount" else "total_qty".

Definition ig_condition_text : string := " AND i.item_group = %(item_group)s ".

(** The four literal segments of the query f-string. *)
Definition query_select : string :=
"
        SELECT
            sii.item_code AS item_code,
            i.item_name AS item_name,
            i.item_group AS item_group,
            SUM(sii.qty) AS total_qty,
            SUM(sii.base_net_amount) AS total_amount,

            COALESCE((SELECT SUM(actual_qty)
                      FROM `tabBin`
                      WHERE item_code = sii.item_code), 0) AS current_stock,

            COALESCE(i.safety_stock, 0) AS safety_stock,

            (COALESCE(i.safety_stock, 0) -
             COALESCE((SELECT SUM(actual_qty)
                       FROM `tabBin`
                       WHERE item_code = sii.item_code), 0)
            ) AS shortage_qty

        FROM `tabSales Invoice Item` sii
        INNER JOIN `tabSales Invoice` si ON si.name = sii.parent
        LEFT JOIN `tabItem` i ON i.name = sii.item_code

        WHERE si.docstatus = 1
        ".

Definition query_group_order : string :=
"

        GROUP BY sii.item_code, i.item_name, i.item_group, i.safety_stock

        ORDER BY ".

Definition query_desc : string :=
" DESC
        ".

Definition query_end : string :=
"
    ".

Definition query_text (ig_condition order_by_field limit_clause : string)
  : string :=
  query_select ++ ig_condition ++ query_group_order ++ order_by_field ++
  query_desc ++ limit_clause ++ query_end.

(** What [get_data] hands to [frappe.db.sql]: the query and its parameters. *)
Definition get_data_query (filters : sdict pyval)
  : res (string * sdict pyval) :=
  let sort_by := py_or (py_get filters "sort_by") (PStr "Quantity") in
  let order_by_field := order_by_field_of sort_by in
  let limit_value := py_get filters "limit" in
  limit <- resolve_limit limit_value ;;
  let '(ig_condition, params) :=
    if truthy (py_get filters "item_group")
    then (ig_condition_text, sset [] "item_group" (py_get filters "item_group"))
    else ("", []) in
  let limit_clause :=
    match limit with
    | Some n => "LIMIT " ++ string_of_Z n
    | None => ""
    end in
  Ok (query_text ig_condition order_by_field limit_clause, params).

Section Report1.
(** [frappe.db.sql(query, params, as_dict=True)]: the host's database. *)
Variable db_sql : string -> sdict pyval -> list (sdict pyval).

Definition get_data (filters : sdict pyval) : res (list (sdict pyval)) :=
  qp <- get_data_query filters ;;
  Ok (db_sql (fst qp) (snd qp)).
End Report1.

(** ** The limit filter *)

(** The value of a string of decimal digits. *)
Fixpoint decimal_value (s : string) (acc : Z) : Z :=
  match s with
  | EmptyString => acc
  | String c rest => decimal_value rest (acc * 10 + digit_value c)
  end.

(** The rule of the specification: the direct integer parse if it succeeds,
    else the first run of decimal digits of the stringified value, else no
    limit. *)
Definition spec_resolved_limit (limit_value : pyval) : option Z :=
  match py_int limit_value with
  | Ok n => Some n
  | Raise _ =>
      match re_search_digits (py_str limit_value) with
      | Some group => Some (decimal_value group 0)
      | None => None
      end
  end.

Example limit_50 : resolve_limit (PStr "50") = Ok (Some 50).
Proof. reflexivity. Qed.

Example limit_top_50_items : resolve_limit (PStr "Top 50 items") = Ok (Some 50).
Proof. reflexivity. Qed.

Example limit_abc : resolve_limit (PStr "abc") = Ok None.
Proof. reflexivity. Qed.

Example limit_empty : resolve_limit (PStr "") = Ok None.
Proof. reflexivity. Qed.

Example limit_absent : resolve_limit (py_get [] "limit") = Ok None.
Proof. reflexivity. Qed.

Example limit_padded : resolve_limit (PStr " 1_000 ") = Ok (Some 1000).
Proof. reflexivity. Qed.

Example limit_first_run :
  resolve_limit (PStr "between 10 and 20") = Ok (Some 10).
Proof. reflexivity. Qed.

Example limit_number : resolve_limit (PNum 25) = Ok (Some 25).
Proof. reflexivity. Qed.

Lemma is_digit_not_space c : is_digit c = true -> is_space c = false.
Proof.
  destruct c as [[] [] [] [] [] [] [] []]; cbn; intros H;
    first [reflexivity | discriminate H].
Qed.

Lemma string_rev_app s t :
  string_rev (s ++ t) = string_rev t ++ string_rev s.
Proof.
  induction s as [| c s IH]; cbn.
  - induction (string_rev t) as [| c r IHr]; cbn; [| rewrite <- IHr];
      reflexivity.
  - rewrite IH.
    generalize (string_rev t) (string_rev s) (String c EmptyString).
    intros a. induction a as [| x a IHa]; intros b d; cbn;
      [| rewrite IHa]; reflexivity.
Qed.

Lemma string_rev_involutive s : string_rev (string_rev s) = s.
Proof.
  induction s as [| c s IH]; cbn; [reflexivity |].
  rewrite string_rev_app, IH. reflexivity.
Qed.

Lemma all_chars_rev p s : all_chars p (string_rev s) = all_chars p s.
Proof.
  induction s as [| c s IH]; cbn; [reflexivity |].
  rewrite all_chars_app, IH. cbn. rewrite andb_true_r. apply andb_comm.
Qed.

Lemma lstrip_digits s : all_chars is_digit s = true -> lstrip s = s.
Proof.
  destruct s as [| c s]; cbn; [reflexivity |].
  intros H. apply andb_prop in H as [Hc _].
  rewrite (is_digit_not_space _ Hc). reflexivity.
Qed.

Lemma strip_digits s : all_chars is_digit s = true -> strip s = s.
Proof.
  intros H. unfold strip. rewrite (lstrip_digits _ H).
  rewrite lstrip_digits by (rewrite all_chars_rev; exact H).
  apply string_rev_involutive.
Qed.

Lemma parse_digits_all s : forall acc b,
  all_chars is_digit s = true ->
  parse_digits s acc b =
  match s with
  | EmptyString => if b then Some acc else None
  | String _ _ => Some (decimal_value s acc)
  end.
Proof.
  induction s as [| c s IH]; intros acc b H; cbn in *; [reflexivity |].
  apply andb_prop in H as [Hc Hs]. rewrite Hc, (IH _ _ Hs).
  destruct s; reflexivity.
Qed.

Lemma int_of_digits c s :
  all_chars is_digit (String c s) = true ->
  int_of_string (String c s) = Some (decimal_value (String c s) 0).
Proof.
  intros H. unfold int_of_string. rewrite (strip_digits _ H).
  rewrite <- (parse_digits_all (String c s) 0 false H).
  cbn in H. apply andb_prop in H as [Hc _].
  destruct c as [[] [] [] [] [] [] [] []];
    first [reflexivity | discriminate Hc].
Qed.

Lemma take_digits_all s : all_chars is_digit (take_digits s) = true.
Proof.
  induction s as [| c s IH]; cbn; [reflexivity |].
  destruct (is_digit c) eqn:E; cbn; [rewrite E, IH |]; reflexivity.
Qed.

(** A match of [\d+] is a non-empty run of digits, so [int] accepts it. *)
Lemma re_search_digits_int s group :
  re_search_digits s = Some group ->
  py_int (PStr group) = Ok (decimal_value group 0).
Proof.
  induction s as [| c s IH]; cbn; [discriminate |].
  destruct (is_digit c) eqn:E; [| exact IH].
  intros [= <-]. cbn [py_int].
  rewrite int_of_digits; [reflexivity |].
  cbn. rewrite E. apply take_digits_all.
Qed.




(** ** Searching text *)

(** [s.startswith(sub)] and [sub in s] *)
Fixpoint starts_with (sub s : string) : bool :=
  match sub, s with
  | EmptyString, _ => true
  | String a sub', String b s' => Ascii.eqb a b && starts_with sub' s'
  | String _ _, EmptyString => false
  end.

Fixpoint contains (sub s : string) : bool :=
  starts_with sub s ||
  match s with
  | EmptyString => false
  | String _ rest => contains sub rest
  end.

Lemma starts_with_spec sub s :
  starts_with sub s = true <-> exists v, s = sub ++ v.
Proof.
  revert s. induction sub as [| a sub IH]; intros s; cbn.
  - split; eauto.
  - destruct s as [| b s].
    + split; [discriminate | intros [v [=]]].
    + rewrite andb_true_iff, IH. split.
      * intros [Hab [v ->]]. apply Ascii.eqb_eq in Hab as ->. eauto.
      * intros [v [= -> ->]]. split; [apply Ascii.eqb_refl | eauto].
Qed.

Lemma contains_spec sub s :
  contains sub s = true <-> exists u v, s = u ++ sub ++ v.
Proof.
  induction s as [| c s IH]; cbn [contains]; rewrite orb_true_iff.
  - rewrite starts_with_spec. split.
    + intros [[v Hv] | H]; [| discriminate H]. exists "", v. exact Hv.
    + intros (u & v & H). left. destruct u as [| c u]; [| discriminate H].
      exists v. exact H.
  - rewrite starts_with_spec, IH. split.
    + intros [[v Hv] | (u & v & Hv)].
      * exists "", v. exact Hv.
      * exists (String c u), v. cbn. rewrite Hv. reflexivity.
    + intros ([| c' u] & v & H).
      * left. exists v. exact H.
      * right. cbn in H. injection H as _ H. exists u, v. exact H.
Qed.

Lemma string_app_assoc (a b c : string) : (a ++ b) ++ c = a ++ b ++ c.
Proof. induction a as [| x a IH]; cbn; [| rewrite IH]; reflexivity. Qed.

Lemma string_app_nil_r (a : string) : a ++ "" = a.
Proof. induction a as [| x a IH]; cbn; [| rewrite IH]; reflexivity. Qed.

Lemma contains_app_l sub a b :
  contains sub a = true -> contains sub (a ++ b) = true.
Proof.
  rewrite !contains_spec. intros (u & v & ->). exists u, (v ++ b).
  rewrite !string_app_assoc. reflexivity.
Qed.

Lemma contains_app_r sub a b :
  contains sub b = true -> contains sub (a ++ b) = true.
Proof.
  rewrite !contains_spec. intros (u & v & ->). exists (a ++ u), v.
  rewrite !string_app_assoc. reflexivity.
Qed.

Lemma contains_here sub a b : contains sub (a ++ sub ++ b) = true.
Proof. apply contains_spec. eauto. Qed.

Lemma string_app_eq_app (a b c d : string) :
  a ++ b = c ++ d ->
  exists l, (a = c ++ l /\ d = l ++ b) \/ (c = a ++ l /\ b = l ++ d).
Proof.
  revert c. induction a as [| x a IH]; intros c H; cbn in H.
  - exists c. right. auto.
  - destruct c as [| y c]; cbn in H.
    + exists (String x a). left. auto.
    + injection H as -> H. destruct (IH _ H) as [l [[-> ->] | [-> ->]]];
        exists l; [left | right]; auto.
Qed.

(** A text spliced in between two others cannot complete an occurrence of
    a pattern none of whose characters it has. *)
Lemma contains_splice (q : ascii -> bool) sub a x b :
  sub <> "" -> x <> "" ->
  all_chars q x = true -> all_chars (fun c => negb (q c)) sub = true ->
  contains sub (a ++ x ++ b) = contains sub a || contains sub b.
Proof.
  intros Hsub Hx Hqx Hqs.
  destruct (contains sub a || contains sub b) eqn:E.
  - apply orb_prop in E as [E | E].
    + apply contains_app_l. exact E.
    + apply contains_app_r, contains_app_r. exact E.
  - apply orb_false_elim in E as [Ea Eb].
    apply not_true_iff_false. intros H.
    apply contains_spec in H as (u & v & H). symmetry in H.
    assert (Hclash : forall c r r', sub = String c r -> x = String c r' ->
                                     False).
    { intros c r r' -> ->. cbn in Hqx, Hqs.
      apply andb_prop in Hqx as [Hq _]. apply andb_prop in Hqs as [Hn _].
      rewrite Hq in Hn. discriminate. }
    assert (Hin : forall c r, sub = String c r ->
                  forall x1 x2, x = x1 ++ String c x2 -> False).
    { intros c r -> x1 x2 ->. cbn in Hqs.
      apply andb_prop in Hqs as [Hn _].
      rewrite all_chars_app in Hqx. cbn in Hqx.
      apply andb_prop in Hqx as [_ Hq]. apply andb_prop in Hq as [Hq _].
      rewrite Hq in Hn. discriminate. }
    destruct (string_app_eq_app _ _ _ _ H) as [l [[Hu Hr] | [Ha Hr]]].
    + (* the occurrence starts at or after the end of [a] *)
      destruct (string_app_eq_app _ _ _ _ Hr) as [l' [[Hx' Hv] | [Hl Hb]]].
      * (* inside or across the end of [x] *)
        destruct l' as [| c l'].
        { rewrite string_app_nil_r in Hx'. subst l. cbn in Hv.
          apply not_true_iff_false in Eb. apply Eb.
          apply contains_spec. exists "", v. subst b. reflexivity. }
        { destruct sub as [| s0 sub']; [congruence |].
          cbn in Hv. injection Hv as <- Hv.
          eapply (Hin s0 sub' eq_refl l l'). exact Hx'. }
      * apply not_true_iff_false in Eb. apply Eb.
        apply contains_spec. exists l', v. exact Hb.
    + (* the occurrence starts inside [a] *)
      destruct (string_app_eq_app _ _ _ _ Hr) as [l' [[Hs Hv] | [Hl Hb]]].
      * destruct l' as [| c l'].
        { rewrite string_app_nil_r in Hs. subst l.
          apply not_true_iff_false in Ea. apply Ea.
          apply contains_spec. exists u, "". rewrite string_app_nil_r.
          exact Ha. }
        { destruct x as [| x0 x']; [congruence |].
          cbn in Hv. injection Hv as <- Hv.
          subst sub. clear - Hqx Hqs.
          rewrite all_chars_app in Hqs. cbn in Hqx, Hqs.
          apply andb_prop in Hqx as [Hq _].
          apply andb_prop in Hqs as [_ Hn]. apply andb_prop in Hn as [Hn _].
          rewrite Hq in Hn. discriminate. }
      * apply not_true_iff_false in Ea. apply Ea.
        apply contains_spec. exists u, l'. rewrite Ha, Hl.
        reflexivity.
Qed.

(** ** The query of report 1 *)

Definition number_char (c : ascii) : bool := is_digit c || Ascii.eqb c "-".

Lemma string_of_uint_digits d :
  all_chars number_char (NilEmpty.string_of_uint d) = true.
Proof. induction d; cbn; auto. Qed.

Lemma string_of_Z_chars n :
  all_chars number_char (string_of_Z n) = true /\ string_of_Z n <> "".
Proof.
  unfold string_of_Z. generalize (Z.to_int n). intros [d | d]; cbn.
  - destruct d; cbn; try (split; [| discriminate]); auto;
      apply string_of_uint_digits.
  - split; [| discriminate].
    destruct d; cbn; auto; apply string_of_uint_digits.
Qed.

Lemma query_text_limit ig order x :
  query_text ig order ("LIMIT " ++ x) =
  (query_select ++ ig ++ query_group_order ++ order ++ query_desc ++
   "LIMIT ") ++ x ++ query_end.
Proof. unfold query_text. rewrite !string_app_assoc. reflexivity. Qed.

Lemma pyval_eqb_eq a b : pyval_eqb a b = true <-> a = b.
Proof.
  destruct a as [| s | n | d], b as [| t | m | e]; cbn;
    try (split; [discriminate | congruence]).
  - tauto.
  - rewrite String.eqb_eq. split; congruence.
  - rewrite Z.eqb_eq. split; congruence.
  - unfold date_eqb. rewrite !andb_true_iff, !Z.eqb_eq.
    destruct d, e; cbn. split; [intros [[-> ->] ->] | intros [= -> -> ->]];
      auto.
Qed.

Lemma resolve_limit_returns v : exists limit, resolve_limit v = Ok limit.
Proof.
  unfold resolve_limit. destruct (truthy v); [| eauto].
  destruct (py_int v); [eauto |].
  destruct (re_search_digits (py_str v)) as [g |] eqn:E; [| eauto].
  rewrite (re_search_digits_int _ _ E). cbn. eauto.
Qed.

(** The ordering, limiting and filtering clauses of a query text. *)
Definition orders_by (field query : string) : Prop :=
  contains ("ORDER BY " ++ field ++ " DESC") query = true.

Definition query_clauses_ok (sort_amount : bool) (limit : option Z)
  (item_group_given : bool) (query : string) : Prop :=
  (if sort_amount
   then orders_by "total_amount" query /\
        contains "ORDER BY total_qty" query = false
   else orders_by "total_qty" query /\
        contains "ORDER BY total_amount" query = false) /\
  match limit with
  | Some n => contains ("LIMIT " ++ string_of_Z n) query = true
  | None => contains "LIMIT" query = false
  end /\
  (if item_group_given
   then contains "i.item_group = %(item_group)s" query = true
   else contains "item_group = " query = false).

Ltac splice_contains :=
  rewrite (contains_splice number_char);
  [ vm_compute; reflexivity
  | discriminate
  | apply string_of_Z_chars
  | apply string_of_Z_chars
  | vm_compute; reflexivity ].

Lemma query_text_clauses (sort_amount item_group_given : bool) limit :
  query_clauses_ok sort_amount limit item_group_given
    (query_text (if item_group_given then ig_condition_text else "")
       (if sort_amount then "total_amount" else "total_qty")
       (match limit with
        | Some n => "LIMIT " ++ string_of_Z n
        | None => ""
        end)).
Proof.
  destruct limit as [n |].
  - rewrite query_text_limit.
    destruct sort_amount, item_group_given; unfold query_clauses_ok, orders_by;
      (split; [split | split]);
      try splice_contains.
    all: apply contains_spec;
      match goal with
      | |- context [(query_select ++ ?ig ++ _ ++ ?order ++ _) ++ _] =>
          exists (query_select ++ ig ++ query_group_order ++ order ++
                  query_desc), query_end
      end;
      rewrite !string_app_assoc; reflexivity.
  - destruct sort_amount, item_group_given; vm_compute; auto.
Qed.

Lemma sort_by_default v :
  pyval_eqb (py_or v (PStr "Quantity")) (PStr "Amount") =
  pyval_eqb v (PStr "Amount").
Proof.
  unfold py_or. destruct v as [| s | n | d]; cbn; try reflexivity.
  - destruct (String.eqb_spec s ""); [subst; reflexivity | reflexivity].
  - destruct (n =? 0); reflexivity.
Qed.


(** The end-to-end example of the specification. *)
Example hardware_top_10 :
  let filters := [("item_group", PStr "Hardware"); ("sort_by", PStr "Amount");
                  ("limit", PStr "Top 10")] in
  exists query,
    get_data_query filters = Ok (query, [("item_group", PStr "Hardware")]) /\
    contains "AND i.item_group = %(item_group)s" query = true /\
    contains "ORDER BY total_amount DESC" query = true /\
    contains "LIMIT 10" query = true /\
    contains "Hardware" query = false.
Proof. eexists. split; [reflexivity |]. vm_compute. auto. Qed.

Example no_filters_query :
  exists query,
    get_data_query [] = Ok (query, []) /\
    contains "ORDER BY total_qty DESC" query = true /\
    contains "LIMIT" query = false /\
    contains "item_group = " query = false.
Proof. eexists. split; [reflexivity |]. vm_compute. auto. Qed.

(** * Report 2: sales by customer group and sub group *)

(** [frappe._]: the translation of a message; the source language is served
    as it is. *)
Definition translate (msg : string) : string := msg.

(** ** Validation *)

Definition period_options : list pyval :=
  [PStr "Monthly"; PStr "Quarterly"; PStr "Half Yearly"; PStr "Yearly"].

(** [v in options] *)
Definition py_in (v : pyval) (options : list pyval) : bool :=
  existsb (pyval_eqb v) options.

Definition smem {V} (d : sdict V) (k : string) : bool :=
  dict_mem String.eqb d k.

Definition msg_select_dates : string := "Please select From Date and To Date".
Definition msg_date_order : string := "To Date must be greater than From Date".
Definition msg_period : string :=
  "Period must be one of Monthly, Quarterly, Half Yearly or Yearly".

(** [frappe.throw] *)
Definition throw {A} (msg : string) : res A := Raise (ValidationError msg).

Definition validate_filters (filters : sdict pyval) : res unit :=
  _ <- (if negb (smem filters "from_date") || negb (smem filters "to_date")
        then throw (translate msg_select_dates) else Ok tt) ;;
  to_date <- (v <- py_item filters "to_date" ;; getdate v) ;;
  from_date <- (v <- py_item filters "from_date" ;; getdate v) ;;
  _ <- (if date_ltb to_date from_date
        then throw (translate msg_date_order) else Ok tt) ;;
  if smem filters "period" &&
     negb (py_in (py_get filters "period") period_options)
  then throw (translate msg_period) else Ok tt.

(** ** Columns *)

Definition get_columns (period_list : list bucket) : list (sdict pyval) :=
  ([ [("label", PStr (translate "Customer Group"));
      ("fieldname", PStr "customer_group"); ("width", PNum 200)];
     [("label", PStr (translate "Sub Group"));
      ("fieldname", PStr "custom_sub_group"); ("width", PNum 180)] ] ++
   map (fun p => [("label", PStr (b_label p)); ("fieldname", PStr (b_key p));
                  ("fieldtype", PStr "Float"); ("width", PNum 120)])
       period_list ++
   [ [("label", PStr (translate "Total")); ("fieldname", PStr "total");
      ("fieldtype", PStr "Float"); ("width", PNum 140)] ])%list.

(** ** The aggregation query *)

Definition value_expr_of (value_quantity : pyval) : string :=
  if pyval_eqb value_quantity (PStr "Value") then "si_item.amount"
  else "si_item.qty".

(** [str(i)] for a list index *)
Definition index_text (i : nat) : string := string_of_Z (Z.of_nat i).

(** One [SUM(CASE ...)] column per bucket; the bucket key names the column.
    (The source also computes [frappe.db.escape(p["key"])] and leaves the
    result unused.) *)
Definition period_sql_part (value_expr : string) (i : nat) (p : bucket)
  : string :=
  "SUM(CASE WHEN si.posting_date BETWEEN %(p_from_" ++ index_text i ++
  ")s AND %(p_to_" ++ index_text i ++ ")s THEN " ++ value_expr ++
  " ELSE 0 END) AS `" ++ b_key p ++ "`".

Fixpoint enumerate_from {A} (i : nat) (l : list A) : list (nat * A) :=
  match l with
  | [] => []
  | x :: rest => (i, x) :: enumerate_from (S i) rest
  end.

(** [sep.join(parts)] *)
Fixpoint join (sep : string) (parts : list string) : string :=
  match parts with
  | [] => ""
  | [x] => x
  | x :: rest => x ++ sep ++ join sep rest
  end.

(** An optional filter: its name and the condition it adds. *)
Definition optional_filters : list (string * string) :=
  [ ("company", "si.company = %(company)s");
    ("customer", "si.customer = %(customer)s");
    ("customer_group", "c.customer_group = %(customer_group)s");
    ("custom_sub_group", "c.custom_sub_group = %(custom_sub_group)s");
    ("territory", "c.territory = %(territory)s");
    ("item_group", "i.item_group = %(item_group)s");
    ("item", "si_item.item_code = %(item)s");
    ("brand", "i.brand = %(brand)s") ].

(** [if filters.get(name): conditions.append(condition);
    params[name] = filters[name]] *)
Definition add_optional (filters : sdict pyval)
  (state : list string * sdict pyval) (f : string * string)
  : list string * sdict pyval :=
  let '(conditions, params) := state in
  let '(name, condition) := f in
  if truthy (py_get filters name)
  then ((conditions ++ [condition])%list, sset params name (py_get filters name))
  else (conditions, params).

(** The eight [if] statements, in the order of the source. *)
Definition add_optionals (filters : sdict pyval)
  (state : list string * sdict pyval) : list string * sdict pyval :=
  fold_left (add_optional filters) optional_filters state.

Definition add_period_params (params : sdict pyval) (ip : nat * bucket)
  : sdict pyval :=
  let '(i, p) := ip in
  sset (sset params ("p_from_" ++ index_text i) (PDate (b_from_date p)))
       ("p_to_" ++ index_text i) (PDate (b_to_date p)).

(** The literal segments of the [sql] f-string. *)
Definition sql_select : string :=
"
        SELECT
            c.customer_group AS customer_group,
            c.custom_sub_group AS custom_sub_group,
            ".

Definition sql_total : string :=
",
            -- total across periods (also derived client-side if you prefer)
            SUM(".

Definition sql_from : string :=
") AS total
        FROM
            `tabSales Invoice Item` si_item
            JOIN `tabSales Invoice` si ON si.name = si_item.parent
            JOIN `tabCustomer` c ON si.customer = c.name
            LEFT JOIN `tabItem` i ON si_item.item_code = i.name
        WHERE
            ".

Definition sql_group_order : string :=
"
        GROUP BY
            c.customer_group, c.custom_sub_group
        ORDER BY
            c.customer_group, c.custom_sub_group
    ".

Definition sql_text (period_sql value_expr where_clause : string) : string :=
  sql_select ++ period_sql ++ sql_total ++ value_expr ++ sql_from ++
  where_clause ++ sql_group_order.

Record aggregated_query : Type := mk_aggregated_query {
  q_conditions : list string;
  q_where_clause : string;
  q_sql : string;
  q_params : sdict pyval
}.

(** [get_aggregated_rows] up to the call of the database. *)
Definition get_aggregated_query (filters : sdict pyval)
  (period_list : list bucket) : res aggregated_query :=
  let value_quantity :=
    py_get_default filters "value_quantity" (PStr "Value") in
  let value_expr := value_expr_of value_quantity in
  let period_sql_parts :=
    map (fun ip => period_sql_part value_expr (fst ip) (snd ip))
        (enumerate_from 0 period_list) in
  let period_sql := join (",
            ") period_sql_parts in
  let conditions := ["si.docstatus = 1"] in
  let params : sdict pyval := [] in
  let conditions :=
    (conditions ++ ["si.posting_date BETWEEN %(from_date)s AND %(to_date)s"])
    %list in
  from_date <- py_item filters "from_date" ;;
  let params := sset params "from_date" from_date in
  to_date <- py_item filters "to_date" ;;
  let params := sset params "to_date" to_date in
  let '(conditions, params) := add_optionals filters (conditions, params) in
  let where_clause := join " AND " conditions in
  let params :=
    fold_left add_period_params (enumerate_from 0 period_list) params in
  Ok (mk_aggregated_query conditions where_clause
        (sql_text period_sql value_expr where_clause) params).

(** "ensure numeric 0.0 instead of None" *)
Definition normalize_row (period_list : list bucket) (r : sdict pyval)
  : sdict pyval :=
  let r :=
    fold_left (fun r p => match py_get r (b_key p) with
                          | PNone => sset r (b_key p) (PNum 0)
                          | _ => r
                          end) period_list r in
  match py_get r "total" with
  | PNone => sset r "total" (PNum 0)
  | _ => r
  end.

(** The queries handed to the database so far. *)
Definition db_log : Type := list (string * sdict pyval).

Section Report2.
(** [frappe.db.sql(sql, params, as_dict=True)]: the host's database. *)
Variable db_sql : string -> sdict pyval -> list (sdict pyval).

Definition get_aggregated_rows (filters : sdict pyval)
  (period_list : list bucket) (log : db_log)
  : db_log * res (list (sdict pyval)) :=
  match get_aggregated_query filters period_list with
  | Raise e => (log, Raise e)
  | Ok q =>
      let rows := db_sql (q_sql q) (q_params q) in
      ((log ++ [(q_sql q, q_params q)])%list,
       Ok (map (normalize_row period_list) rows))
  end.
End Report2.

(** ** Hierarchical rows *)

(** [a + b] and the builtin [sum] on Python values: numbers add, anything
    else is a [TypeError]. *)
Definition py_add (a b : pyval) : res pyval :=
  match a, b with
  | PNum x, PNum y => Ok (PNum (x + y))
  | _, _ => Raise TypeError
  end.

Fixpoint py_sum_from (acc : pyval) (l : list pyval) : res pyval :=
  match l with
  | [] => Ok acc
  | v :: rest => acc' <- py_add acc v ;; py_sum_from acc' rest
  end.

Definition py_sum (l : list pyval) : res pyval := py_sum_from (PNum 0) l.

(** What [nested[cg][sg]] holds: the ["periods"] dictionary and the
    ["total"]. *)
Record sg_data : Type := mk_sg_data {
  sg_periods : sdict pyval;
  sg_total : pyval
}.

Definition nested_dict : Type := list (pyval * list (pyval * sg_data)).

(** [{p["key"]: r.get(p["key"], 0.0) for p in period_list}] *)
Definition period_values (period_list : list bucket) (r : sdict pyval)
  : sdict pyval :=
  fold_left (fun d p => sset d (b_key p) (py_get_default r (b_key p) (PNum 0)))
            period_list [].

Definition row_group (r : sdict pyval) : pyval :=
  py_or (py_get r "customer_group") (PStr (translate "Undefined")).

Definition row_sub_group (r : sdict pyval) : pyval :=
  py_or (py_get r "custom_sub_group") (PStr (translate "(No Sub Group)")).

Definition row_data (period_list : list bucket) (r : sdict pyval) : sg_data :=
  mk_sg_data (period_values period_list r) (py_get_default r "total" (PNum 0)).

(** One turn of the first loop of [build_hierarchical_rows]. *)
Definition nest_row (period_list : list bucket) (nested : nested_dict)
  (r : sdict pyval) : nested_dict :=
  let cg := row_group r in
  let sg := row_sub_group r in
  let nested := dict_setdefault pyval_eqb nested cg [] in
  let subgroups :=
    match dict_get pyval_eqb nested cg with Some d => d | None => [] end in
  let subgroups :=
    dict_setdefault pyval_eqb subgroups sg (mk_sg_data [] PNone) in
  let subgroups := dict_set pyval_eqb subgroups sg (row_data period_list r) in
  dict_set pyval_eqb nested cg subgroups.

Definition build_nested (agg_rows : list (sdict pyval))
  (period_list : list bucket) : nested_dict :=
  fold_left (nest_row period_list) agg_rows [].

(** [row[k] = v] for every pair, in order. *)
Definition set_items (row : sdict pyval) (items : list (string * pyval))
  : sdict pyval :=
  fold_left (fun row kv => sset row (fst kv) (snd kv)) items row.

Definition group_row (cg : pyval) (subgroups : list (pyval * sg_data))
  : res (sdict pyval) :=
  group_total <- py_sum (map sg_total (dict_values subgroups)) ;;
  let row := [("customer_group", cg); ("custom_sub_group", PStr "");
              ("total", group_total); ("indent", PNum 0)] in
  let p_keys :=
    match dict_values subgroups with
    | first :: _ => dict_keys (sg_periods first)
    | [] => []
    end in
  sums <- mapM (fun p_key =>
                  v <- py_sum (map (fun d => py_get_default (sg_periods d)
                                                p_key (PNum 0))
                                   (dict_values subgroups)) ;;
                  Ok (p_key, v)) p_keys ;;
  Ok (set_items row sums).

Definition child_row (sg : pyval) (d : sg_data) : sdict pyval :=
  let row := [("customer_group", PStr ""); ("custom_sub_group", sg);
              ("total", sg_total d); ("indent", PNum 1)] in
  set_items row (sg_periods d).

(** The group row followed by its child rows. *)
Definition group_block (entry : pyval * list (pyval * sg_data))
  : res (list (sdict pyval)) :=
  let '(cg, subgroups) := entry in
  g <- group_row cg subgroups ;;
  Ok (g :: map (fun e => child_row (fst e) (snd e)) subgroups).

Definition build_hierarchical_rows (agg_rows : list (sdict pyval))
  (period_list : list bucket) : res (list (sdict pyval)) :=
  let nested := build_nested agg_rows period_list in
  blocks <- mapM group_block nested ;;
  Ok (List.concat blocks).

(** ** Chart *)

Record chart_payload : Type := mk_chart {
  chart_labels : list string;
  chart_dataset_name : string;
  chart_values : list pyval;
  chart_type : string
}.

(** [row.get(col, 0.0) or 0.0] *)
Definition cell_or_zero (col : string) (row : sdict pyval) : pyval :=
  py_or (py_get_default row col (PNum 0)) (PNum 0).

Definition get_chart_data (filters : sdict pyval)
  (columns data : list (sdict pyval)) (period_list : list bucket)
  : res chart_payload :=
  let period_cols := map b_key period_list in
  totals <- mapM (fun col => py_sum (map (cell_or_zero col) data))
                 period_cols ;;
  let labels := map b_label period_list in
  Ok (mk_chart labels (translate "Sales") totals "bar").

(** ** [execute] *)

Record report_output : Type := mk_output {
  out_columns : list (sdict pyval);
  out_data : list (sdict pyval);
  out_chart : chart_payload
}.

Section Execute.
Variable db_sql : string -> sdict pyval -> list (sdict pyval).

Definition execute (filters : option (sdict pyval)) (log : db_log)
  : db_log * res report_output :=
  let filters := match filters with Some f => f | None => [] end in
  match validate_filters filters with
  | Raise e => (log, Raise e)
  | Ok _ =>
      match (from_date <- py_item filters "from_date" ;;
             to_date <- py_item filters "to_date" ;;
             get_period_date_ranges
               (py_get_default filters "period" (PStr "Monthly"))
               from_date to_date) with
      | Raise e => (log, Raise e)
      | Ok period_list =>
          let columns := get_columns period_list in
          match get_aggregated_rows db_sql filters period_list log with
          | (log, Raise e) => (log, Raise e)
          | (log, Ok agg_rows) =>
              (log,
               data <- build_hierarchical_rows agg_rows period_list ;;
               chart <- get_chart_data filters columns data period_list ;;
               Ok (mk_output columns data chart))
          end
      end
  end.
End Execute.

Example rows_two_groups :
  let periods := [mkbucket "Jan_2025" "Jan 2025" (mkdate 2025 1 1)
                    (mkdate 2025 1 31)] in
  build_hierarchical_rows
    [ [("customer_group", PStr "A"); ("custom_sub_group", PStr "x");
       ("Jan_2025", PNum 3); ("total", PNum 3)];
      [("customer_group", PStr "A"); ("custom_sub_group", PNone);
       ("Jan_2025", PNum 4); ("total", PNum 4)];
      [("customer_group", PNone); ("custom_sub_group", PStr "y");
       ("Jan_2025", PNum 5); ("total", PNum 5)] ] periods =
  Ok [ [("customer_group", PStr "A"); ("custom_sub_group", PStr "");
        ("total", PNum 7); ("indent", PNum 0); ("Jan_2025", PNum 7)];
       [("customer_group", PStr ""); ("custom_sub_group", PStr "x");
        ("total", PNum 3); ("indent", PNum 1); ("Jan_2025", PNum 3)];
       [("customer_group", PStr "");
        ("custom_sub_group", PStr "(No Sub Group)");
        ("total", PNum 4); ("indent", PNum 1); ("Jan_2025", PNum 4)];
       [("customer_group", PStr "Undefined"); ("custom_sub_group", PStr "");
        ("total", PNum 5); ("indent", PNum 0); ("Jan_2025", PNum 5)];
       [("customer_group", PStr ""); ("custom_sub_group", PStr "y");
        ("total", PNum 5); ("indent", PNum 1); ("Jan_2025", PNum 5)] ].
Proof. reflexivity. Qed.

(** ** Validation of the filters *)

(** The date filters, when given, hold dates. *)
Definition dates_typed (filters : sdict pyval) : Prop :=
  (forall v, sget filters "from_date" = Some v -> exists d, v = PDate d) /\
  (forall v, sget filters "to_date" = Some v -> exists d, v = PDate d).

(** What the specification rejects: a date missing, the range reversed, or
    a period given that is not one of the four. *)
Definition invalid_filters (filters : sdict pyval) : Prop :=
  sget filters "from_date" = None \/
  sget filters "to_date" = None \/
  (exists f t, sget filters "from_date" = Some (PDate f) /\
               sget filters "to_date" = Some (PDate t) /\
               date_ltb t f = true) \/
  (exists v, sget filters "period" = Some v /\ ~ In v period_options).

Lemma py_in_spec v options : py_in v options = true <-> In v options.
Proof.
  unfold py_in. rewrite existsb_exists. split.
  - intros (x & Hx & E). apply pyval_eqb_eq in E. subst. exact Hx.
  - intros H. exists v. split; [exact H | apply pyval_eqb_eq; reflexivity].
Qed.

Lemma validate_filters_cases filters :
  dates_typed filters ->
  (invalid_filters filters /\
   exists msg, validate_filters filters = Raise (ValidationError msg)) \/
  (~ invalid_filters filters /\ validate_filters filters = Ok tt).
Proof.
  intros [Hf Ht]. unfold validate_filters, invalid_filters, smem, dict_mem,
    py_item, py_get, throw.
  fold (sget filters "from_date") (sget filters "to_date")
    (sget filters "period").
  destruct (sget filters "from_date") as [vf |] eqn:Ef.
  2: { left. split; [auto | cbn; eauto]. }
  destruct (sget filters "to_date") as [vt |] eqn:Et.
  2: { left. split; [auto | cbn; eauto]. }
  destruct (Hf vf eq_refl) as [f ->], (Ht vt eq_refl) as [t ->].
  cbn [negb orb bind getdate].
  destruct (date_ltb t f) eqn:Elt.
  { left. split; [| cbn; eauto]. right; right; left. eauto. }
  cbn [bind].
  destruct (sget filters "period") as [v |] eqn:Ep; cbn [andb].
  - destruct (py_in v period_options) eqn:Ein; cbn [negb].
    + right. split; [| reflexivity].
      apply py_in_spec in Ein.
      intros [H | [H | [(f' & t' & [= <-] & [= <-] & H) | (v' & [= <-] & H)]]];
        congruence.
    + left. split; [| eauto]. right; right; right. exists v. split; auto.
      rewrite <- py_in_spec. congruence.
  - right. split; [| reflexivity].
    intros [H | [H | [(f' & t' & [= <-] & [= <-] & H) | (v' & [=] & H)]]];
      congruence.
Qed.



Example validate_reversed_range :
  validate_filters
    [("from_date", PDate (mkdate 2025 2 1));
     ("to_date", PDate (mkdate 2025 1 31))] =
  Raise (ValidationError "To Date must be greater than From Date").
Proof. reflexivity. Qed.

Example validate_bad_period :
  validate_filters
    [("from_date", PDate (mkdate 2025 1 1));
     ("to_date", PDate (mkdate 2025 1 31)); ("period", PStr "Weekly")] =
  Raise (ValidationError
           "Period must be one of Monthly, Quarterly, Half Yearly or Yearly").
Proof. reflexivity. Qed.

Example execute_without_filters db_sql log :
  execute db_sql None log =
  (log, Raise (ValidationError "Please select From Date and To Date")).
Proof. reflexivity. Qed.

(** ** Defaults of the enumerated filters *)

Lemma get_aggregated_query_sql filters period_list q :
  get_aggregated_query filters period_list = Ok q ->
  exists period_sql,
    q_sql q =
    sql_text period_sql
      (value_expr_of (py_get_default filters "value_quantity" (PStr "Value")))
      (q_where_clause q) /\
    q_where_clause q = join " AND " (q_conditions q).
Proof.
  unfold get_aggregated_query.
  destruct (py_item filters "from_date"); [| discriminate].
  destruct (py_item filters "to_date"); [| discriminate].
  cbn [bind]. destruct (add_optionals _ _) as [conditions params].
  intros [= <-]. cbn. eauto.
Qed.

Lemma sql_text_total period_sql value_expr where_clause :
  contains ("SUM(" ++ value_expr ++ ") AS total")
    (sql_text period_sql value_expr where_clause) = true.
Proof.
  apply contains_spec.
  exists (sql_select ++ period_sql ++ ",
            -- total across periods (also derived client-side if you prefer)
            ").
  eexists. unfold sql_text. rewrite !string_app_assoc. reflexivity.
Qed.


Lemma increments_get_default v :
  ~ In v period_options -> increments_get v = 1%positive.
Proof.
  unfold period_options. cbn [In]. intros H.
  destruct v as [| s | n | d]; try reflexivity.
  unfold increments_get, sget, increments. cbn [dict_get].
  repeat match goal with
         | |- context [String.eqb ?a s] =>
             destruct (String.eqb_spec a s);
             [subst; exfalso; apply H; tauto |]
         end.
  reflexivity.
Qed.


(** ** The conditions of the aggregation query *)

Lemma sget_sset {V} (d : sdict V) k v k' :
  sget (sset d k v) k' = if String.eqb k k' then Some v else sget d k'.
Proof.
  unfold sget, sset. induction d as [| [k0 v0] d IH]; cbn.
  - reflexivity.
  - destruct (String.eqb_spec k0 k) as [-> | Hk]; cbn.
    + destruct (String.eqb k k'); reflexivity.
    + rewrite IH. destruct (String.eqb_spec k0 k') as [-> | Hk'].
      * destruct (String.eqb_spec k k'); [congruence | reflexivity].
      * reflexivity.
Qed.

Definition given (filters : sdict pyval) (f : string * string) : bool :=
  truthy (py_get filters (fst f)).

Lemma add_optionals_fold filters l conditions params :
  fold_left (add_optional filters) l (conditions, params) =
  ((conditions ++ map snd (filter (given filters) l))%list,
   fold_left (fun p f => sset p (fst f) (py_get filters (fst f)))
             (filter (given filters) l) params).
Proof.
  revert conditions params.
  induction l as [| [name cond] l IH]; intros conditions params; cbn.
  - rewrite app_nil_r. reflexivity.
  - assert (E : given filters (name, cond) = truthy (py_get filters name))
      by reflexivity.
    rewrite E. destruct (truthy (py_get filters name)); cbn; rewrite IH.
    + rewrite <- app_assoc. reflexivity.
    + reflexivity.
Qed.

Lemma sget_set_filters filters l params name :
  sget (fold_left (fun p f => sset p (fst f) (py_get filters (fst f))) l
          params) name =
  if existsb (fun f : string * string => String.eqb (fst f) name) l
  then Some (py_get filters name) else sget params name.
Proof.
  revert params.
  induction l as [| [k c] l IH]; intros params; cbn [fold_left existsb].
  - reflexivity.
  - rewrite IH, sget_sset. cbn [fst].
    destruct (String.eqb_spec k name) as [-> | Hk]; cbn [orb].
    + destruct (existsb _ l); reflexivity.
    + reflexivity.
Qed.

Lemma sget_period_params l : forall params name,
  starts_with "p_" name = false ->
  sget (fold_left add_period_params l params) name = sget params name.
Proof.
  induction l as [| [i p] l IH]; intros params name Hn; cbn [fold_left].
  - reflexivity.
  - rewrite IH by exact Hn. unfold add_period_params. rewrite !sget_sset.
    assert (E1 : String.eqb ("p_to_" ++ index_text i) name = false).
    { destruct (String.eqb_spec ("p_to_" ++ index_text i) name) as [<- |];
        [discriminate Hn | reflexivity]. }
    assert (E2 : String.eqb ("p_from_" ++ index_text i) name = false).
    { destruct (String.eqb_spec ("p_from_" ++ index_text i) name) as [<- |];
        [discriminate Hn | reflexivity]. }
    rewrite E1, E2. reflexivity.
Qed.

Lemma optional_filter_cases name cond :
  In (name, cond) optional_filters ->
  starts_with "p_" name = false /\
  name <> "from_date" /\ name <> "to_date" /\
  contains ("%(" ++ name ++ ")s") cond = true /\
  contains (" = %(" ++ name ++ ")s") cond = true /\
  existsb (fun f : string * string => String.eqb (fst f) name)
    optional_filters = true.
Proof.
  unfold optional_filters. cbn [In].
  intros H.
  repeat (destruct H as [[= <- <-] | H];
          [repeat split; (reflexivity || discriminate) |]).
  contradiction.
Qed.

Definition date_range_condition : string :=
  "si.posting_date BETWEEN %(from_date)s AND %(to_date)s".

(** The conditions, clause and parameters of the query in closed form. *)
Lemma get_aggregated_query_closed filters period_list from_date to_date :
  sget filters "from_date" = Some from_date ->
  sget filters "to_date" = Some to_date ->
  exists q,
    get_aggregated_query filters period_list = Ok q /\
    q_conditions q =
      ("si.docstatus = 1" :: date_range_condition ::
       map snd (filter (given filters) optional_filters))%list /\
    q_where_clause q = join " AND " (q_conditions q) /\
    (exists a b, q_sql q = a ++ q_where_clause q ++ b) /\
    forall name, starts_with "p_" name = false ->
      sget (q_params q) name =
      if existsb (fun f : string * string => String.eqb (fst f) name)
           (filter (given filters) optional_filters)
      then Some (py_get filters name)
      else sget [("from_date", from_date); ("to_date", to_date)] name.
Proof.
  intros Hf Ht. unfold get_aggregated_query, py_item. rewrite Hf, Ht.
  cbn [bind]. unfold add_optionals. rewrite add_optionals_fold.
  eexists. split; [reflexivity |]. cbn [q_conditions q_where_clause q_sql
                                         q_params].
  refine (conj eq_refl (conj eq_refl (conj _ _))).
  - unfold sql_text.
    match goal with
    | |- exists a b, sql_select ++ ?ps ++ sql_total ++ ?ve ++ sql_from ++
                     ?w ++ sql_group_order = _ =>
        exists (sql_select ++ ps ++ sql_total ++ ve ++ sql_from),
          sql_group_order
    end.
    rewrite !string_app_assoc. reflexivity.
  - intros name Hn. rewrite sget_period_params by exact Hn.
    rewrite sget_set_filters. reflexivity.
Qed.

Lemma In_existsb_string (x : string) l :
  In x l <-> existsb (String.eqb x) l = true.
Proof.
  rewrite existsb_exists. split.
  - intros H. exists x. split; [exact H | apply String.eqb_refl].
  - intros (y & Hy & E). apply String.eqb_eq in E. subst. exact Hy.
Qed.

Lemma existsb_given filters name l :
  existsb (fun f : string * string => String.eqb (fst f) name)
    (filter (given filters) l) =
  existsb (fun f : string * string => String.eqb (fst f) name) l &&
  truthy (py_get filters name).
Proof.
  induction l as [| [k c] l IH]; cbn [filter existsb]; [reflexivity |].
  assert (E : given filters (k, c) = truthy (py_get filters k))
    by reflexivity.
  rewrite E.
  destruct (truthy (py_get filters k)) eqn:T; cbn [existsb fst]; rewrite IH;
    destruct (String.eqb_spec k name) as [<- | Hk]; cbn [orb andb];
    rewrite ?T, ?andb_false_r; reflexivity.
Qed.

(** ** The WHERE clause, for all 256 choices of optional filters at once *)

Fixpoint choose {A} (bs : list bool) (l : list A) : list A :=
  match bs, l with
  | b :: bs', x :: l' => if b then x :: choose bs' l' else choose bs' l'
  | _, _ => []
  end.

Lemma filter_choose {A} (g : A -> bool) l : filter g l = choose (map g l) l.
Proof.
  induction l as [| x l IH]; cbn; [reflexivity |].
  rewrite IH. reflexivity.
Qed.

Lemma in_combine_map {A} (g : A -> bool) l x :
  In x l -> In (g x, x) (combine (map g l) l).
Proof.
  induction l as [| y l IH]; cbn; [tauto |].
  intros [-> | H]; auto.
Qed.

Definition conditions_of (chosen : list (string * string)) : list string :=
  ("si.docstatus = 1" :: date_range_condition :: map snd chosen)%list.

(** The check of one choice: each optional condition is among the
    conditions, and in the joined clause, exactly when chosen; the two fixed
    conditions are always in the clause. *)
Definition where_clause_check (bs : list bool) : bool :=
  let conditions := conditions_of (choose bs optional_filters) in
  let clause := join " AND " conditions in
  forallb (fun bf : bool * (string * string) =>
             Bool.eqb (existsb (String.eqb (snd (snd bf))) conditions)
                      (fst bf) &&
             Bool.eqb (contains (snd (snd bf)) clause) (fst bf))
          (combine bs optional_filters) &&
  contains "si.docstatus = 1" clause && contains date_range_condition clause.

Definition all_bool (f : bool -> bool) : bool := f true && f false.

Lemma all_bool_spec f : all_bool f = true -> forall b, f b = true.
Proof.
  unfold all_bool. intros H b. apply andb_prop in H as [Ht Hf].
  destruct b; assumption.
Qed.

Lemma where_clause_check_all :
  all_bool (fun b1 => all_bool (fun b2 => all_bool (fun b3 =>
  all_bool (fun b4 => all_bool (fun b5 => all_bool (fun b6 =>
  all_bool (fun b7 => all_bool (fun b8 =>
    where_clause_check [b1; b2; b3; b4; b5; b6; b7; b8])))))))) = true.
Proof. vm_compute. reflexivity. Qed.

Lemma where_clause_check_ok b1 b2 b3 b4 b5 b6 b7 b8 :
  where_clause_check [b1; b2; b3; b4; b5; b6; b7; b8] = true.
Proof.
  pose proof where_clause_check_all as C.
  apply all_bool_spec with (b := b1) in C.
  apply all_bool_spec with (b := b2) in C.
  apply all_bool_spec with (b := b3) in C.
  apply all_bool_spec with (b := b4) in C.
  apply all_bool_spec with (b := b5) in C.
  apply all_bool_spec with (b := b6) in C.
  apply all_bool_spec with (b := b7) in C.
  apply all_bool_spec with (b := b8) in C.
  exact C.
Qed.

(** Which conditions the WHERE clause has, by the eight yes/no facts. *)
Lemma where_clause_conditions filters name cond :
  In (name, cond) optional_filters ->
  let conditions :=
    conditions_of (filter (given filters) optional_filters) in
  existsb (String.eqb cond) conditions = truthy (py_get filters name) /\
  contains cond (join " AND " conditions) = truthy (py_get filters name) /\
  contains "si.docstatus = 1" (join " AND " conditions) = true /\
  contains date_range_condition (join " AND " conditions) = true.
Proof.
  intros H conditions. subst conditions. rewrite filter_choose.
  assert (C : where_clause_check (map (given filters) optional_filters)
              = true) by apply where_clause_check_ok.
  unfold where_clause_check in C.
  apply andb_prop in C as [C Hd]. apply andb_prop in C as [C Hs].
  rewrite forallb_forall in C.
  specialize (C _ (in_combine_map (given filters) _ _ H)).
  cbn [fst snd] in C. apply andb_prop in C as [C1 C2].
  apply Bool.eqb_prop in C1, C2.
  repeat split; assumption.
Qed.

Lemma sql_from_where : exists a, sql_from = a ++ "WHERE
            ".
Proof.
  exists ") AS total
        FROM
            `tabSales Invoice Item` si_item
            JOIN `tabSales Invoice` si ON si.name = si_item.parent
            JOIN `tabCustomer` c ON si.customer = c.name
            LEFT JOIN `tabItem` i ON si_item.item_code = i.name
        ". reflexivity.
Qed.

Lemma sql_group_by : exists b, sql_group_order = "
        GROUP BY" ++ b.
Proof.
  exists "
            c.customer_group, c.custom_sub_group
        ORDER BY
            c.customer_group, c.custom_sub_group
    ". reflexivity.
Qed.



(** * Dictionaries: lookup after update, and keys *)

Section DictFacts.
Context {K V : Type} (eqb : K -> K -> bool).
Hypothesis eqb_eq : forall a b, eqb a b = true <-> a = b.

Lemma eqb_refl_key k : eqb k k = true.
Proof. apply eqb_eq. reflexivity. Qed.

Lemma dict_get_set (d : list (K * V)) k v k' :
  dict_get eqb (dict_set eqb d k v) k' =
  if eqb k k' then Some v else dict_get eqb d k'.
Proof.
  induction d as [| [k0 v0] d IH]; cbn.
  - reflexivity.
  - destruct (eqb k0 k) eqn:E0; cbn.
    + apply eqb_eq in E0. subst k0. destruct (eqb k k'); reflexivity.
    + rewrite IH. destruct (eqb k0 k') eqn:E1; [| reflexivity].
      apply eqb_eq in E1. subst k0.
      destruct (eqb k k') eqn:E2; [| reflexivity].
      apply eqb_eq in E2. subst k'. rewrite eqb_refl_key in E0.
      discriminate.
Qed.

Lemma dict_get_In (d : list (K * V)) k v :
  dict_get eqb d k = Some v -> In (k, v) d.
Proof.
  induction d as [| [k0 v0] d IH]; cbn; [discriminate |].
  destruct (eqb k0 k) eqn:E.
  - apply eqb_eq in E. subst. intros [= ->]. auto.
  - auto.
Qed.

Lemma dict_get_None (d : list (K * V)) k :
  dict_get eqb d k = None <-> ~ In k (dict_keys d).
Proof.
  unfold dict_keys. induction d as [| [k0 v0] d IH]; cbn; [tauto |].
  destruct (eqb k0 k) eqn:E.
  - apply eqb_eq in E. subst. split; [discriminate | tauto].
  - rewrite IH. split; [| tauto]. intros H [-> | H']; [| tauto].
    rewrite eqb_refl_key in E. discriminate.
Qed.

Lemma In_dict_get (d : list (K * V)) k v :
  NoDup (dict_keys d) -> In (k, v) d -> dict_get eqb d k = Some v.
Proof.
  unfold dict_keys. induction d as [| [k0 v0] d IH]; cbn; [tauto |].
  intros Hnd [[= -> ->] | Hin].
  - rewrite eqb_refl_key. reflexivity.
  - inversion Hnd as [| ? ? Hnotin Hnd']; subst.
    destruct (eqb k0 k) eqn:E; [| auto].
    apply eqb_eq in E. subst. exfalso. apply Hnotin.
    apply in_map_iff. exists (k, v). auto.
Qed.

Lemma dict_keys_set (d : list (K * V)) k v :
  dict_keys (dict_set eqb d k v) =
  if dict_mem eqb d k then dict_keys d else (dict_keys d ++ [k])%list.
Proof.
  unfold dict_keys, dict_mem.
  induction d as [| [k0 v0] d IH]; cbn; [reflexivity |].
  destruct (eqb k0 k) eqn:E; cbn; [reflexivity |].
  rewrite IH. destruct (dict_get eqb d k); reflexivity.
Qed.

Lemma dict_set_NoDup (d : list (K * V)) k v :
  NoDup (dict_keys d) -> NoDup (dict_keys (dict_set eqb d k v)).
Proof.
  intros H. rewrite dict_keys_set. unfold dict_mem.
  destruct (dict_get eqb d k) eqn:E; [exact H |].
  apply dict_get_None in E.
  apply NoDup_app; [exact H | repeat constructor; cbn; tauto |].
  intros x Hx [<- | []]. contradiction.
Qed.

Lemma dict_setdefault_NoDup (d : list (K * V)) k v :
  NoDup (dict_keys d) -> NoDup (dict_keys (dict_setdefault eqb d k v)).
Proof.
  intros H. unfold dict_setdefault. destruct (dict_mem eqb d k); [exact H |].
  apply dict_set_NoDup. exact H.
Qed.

Lemma dict_get_setdefault (d : list (K * V)) k v k' :
  dict_get eqb (dict_setdefault eqb d k v) k' =
  match dict_get eqb d k' with
  | Some x => Some x
  | None => if eqb k k' then Some v else None
  end.
Proof.
  unfold dict_setdefault, dict_mem.
  destruct (dict_get eqb d k) eqn:E.
  - destruct (dict_get eqb d k') eqn:E'; [reflexivity |].
    destruct (eqb k k') eqn:Ek; [| reflexivity].
    apply eqb_eq in Ek. subst. congruence.
  - rewrite dict_get_set. destruct (eqb k k') eqn:Ek.
    + apply eqb_eq in Ek. subst. rewrite E. reflexivity.
    + destruct (dict_get eqb d k'); reflexivity.
Qed.

(** Values of an updated dictionary are old values or the new one. *)
Lemma dict_set_values (P : V -> Prop) (d : list (K * V)) k v :
  Forall P (dict_values d) -> P v ->
  Forall P (dict_values (dict_set eqb d k v)).
Proof.
  unfold dict_values. intros Hd Hv.
  induction d as [| [k0 v0] d IH]; cbn.
  - constructor; auto.
  - inversion Hd; subst. destruct (eqb k0 k); cbn; constructor; auto.
Qed.

Lemma dict_set_not_nil (d : list (K * V)) k v : dict_set eqb d k v <> [].
Proof. destruct d as [| [k0 v0] d]; cbn; [| destruct (eqb k0 k)]; discriminate. Qed.
End DictFacts.

(** * The row shaper *)

Lemma mapM_Forall2 {A B} (f : A -> res B) l ys :
  mapM f l = Ok ys <-> Forall2 (fun x y => f x = Ok y) l ys.
Proof.
  revert ys. induction l as [| x l IH]; intros ys; cbn.
  - split; [intros [= <-]; constructor | inversion 1; reflexivity].
  - destruct (f x) as [y |] eqn:Ex; cbn.
    + destruct (mapM f l) as [ys' |] eqn:El; cbn.
      * split.
        -- intros [= <-]. constructor; [exact Ex | apply IH; reflexivity].
        -- inversion 1 as [| ? y0 ? ys0 Hy Hys]; subst.
           apply IH in Hys. congruence.
      * split; [discriminate |].
        inversion 1 as [| ? y0 ? ys0 Hy Hys]; subst.
        apply IH in Hys. discriminate.
    + split; [discriminate |]. inversion 1; congruence.
Qed.

Lemma sget_snoc {V} (l : sdict V) k0 v0 k :
  sget (l ++ [(k0, v0)])%list k =
  match sget l k with
  | Some v => Some v
  | None => if String.eqb k0 k then Some v0 else None
  end.
Proof.
  unfold sget. induction l as [| [a b] l IHl]; cbn.
  - reflexivity.
  - destruct (String.eqb a k); [reflexivity | exact IHl].
Qed.

Lemma sget_set_items row items k :
  sget (set_items row items) k =
  match sget (rev items) k with
  | Some v => Some v
  | None => sget row k
  end.
Proof.
  unfold set_items. revert row.
  induction items as [| [k0 v0] items IH]; intros row; cbn [fold_left rev].
  - reflexivity.
  - rewrite IH. cbn [fst snd]. fold (sset row k0 v0).
    rewrite sget_sset, sget_snoc.
    destruct (sget (rev items) k); [reflexivity |].
    destruct (String.eqb k0 k); reflexivity.
Qed.

Lemma sget_set_items_in row items k v :
  NoDup (map fst items) -> In (k, v) items ->
  sget (set_items row items) k = Some v.
Proof.
  intros Hnd Hin. rewrite sget_set_items.
  assert (E : sget (rev items) k = Some v).
  { apply (In_dict_get String.eqb String.eqb_eq).
    - unfold dict_keys. rewrite map_rev. apply NoDup_rev. exact Hnd.
    - apply in_rev in Hin. exact Hin. }
  rewrite E. reflexivity.
Qed.

Lemma sget_set_items_notin row items k :
  ~ In k (map fst items) -> sget (set_items row items) k = sget row k.
Proof.
  intros Hn. rewrite sget_set_items.
  assert (E : sget (rev items) k = None).
  { apply (dict_get_None String.eqb String.eqb_eq). unfold dict_keys.
    rewrite map_rev. rewrite <- in_rev. exact Hn. }
  rewrite E. reflexivity.
Qed.

(** The keys of the ["periods"] dictionary: the bucket keys, once each. *)
Lemma dict_mem_keys {V} (d d' : sdict V) k :
  dict_keys d = dict_keys d' ->
  dict_mem String.eqb d k = dict_mem String.eqb d' k.
Proof.
  unfold dict_keys, dict_mem. revert d'.
  induction d as [| [a b] d IH]; intros [| [a' b'] d']; cbn;
    try discriminate; [reflexivity |].
  intros [= -> H]. destruct (String.eqb a' k); [reflexivity | auto].
Qed.

Lemma period_values_fold_keys period_list r r' : forall d d' : sdict pyval,
  dict_keys d = dict_keys d' ->
  dict_keys
    (fold_left (fun d p => sset d (b_key p) (py_get_default r (b_key p) (PNum 0)))
       period_list d) =
  dict_keys
    (fold_left (fun d p => sset d (b_key p) (py_get_default r' (b_key p) (PNum 0)))
       period_list d').
Proof.
  induction period_list as [| p l IH]; intros d d' H; cbn [fold_left];
    [exact H |].
  apply IH. unfold sset. rewrite !dict_keys_set, (dict_mem_keys d d' _ H), H.
  reflexivity.
Qed.

Lemma period_values_keys period_list r r' :
  dict_keys (period_values period_list r) =
  dict_keys (period_values period_list r').
Proof. apply period_values_fold_keys. reflexivity. Qed.

Lemma period_values_NoDup period_list r :
  NoDup (dict_keys (period_values period_list r)).
Proof.
  unfold period_values.
  assert (H : NoDup (dict_keys ([] : sdict pyval))) by constructor.
  revert H. generalize ([] : sdict pyval).
  induction period_list as [| p l IH]; intros d H; cbn [fold_left];
    [exact H |].
  apply IH. apply dict_set_NoDup; [exact String.eqb_eq | exact H].
Qed.

Lemma period_values_fold_get period_list r k : forall d : sdict pyval,
  sget (fold_left
          (fun d p => sset d (b_key p) (py_get_default r (b_key p) (PNum 0)))
          period_list d) k =
  if existsb (String.eqb k) (map b_key period_list)
  then Some (py_get_default r k (PNum 0)) else sget d k.
Proof.
  induction period_list as [| p l IH]; intros d;
    cbn [fold_left map existsb]; [reflexivity |].
  rewrite IH, sget_sset. rewrite (String.eqb_sym k (b_key p)).
  destruct (String.eqb_spec (b_key p) k) as [-> | Hk]; cbn [orb].
  - destruct (existsb _ _); reflexivity.
  - reflexivity.
Qed.

Lemma period_values_get period_list r k :
  sget (period_values period_list r) k =
  if existsb (String.eqb k) (map b_key period_list)
  then Some (py_get_default r k (PNum 0)) else None.
Proof. apply period_values_fold_get. Qed.

Lemma period_values_key_in period_list r p :
  In p period_list -> In (b_key p) (dict_keys (period_values period_list r)).
Proof.
  intros Hp.
  destruct (in_dec string_dec (b_key p)
              (dict_keys (period_values period_list r))) as [H | H];
    [exact H |].
  apply (dict_get_None String.eqb String.eqb_eq) in H.
  fold (sget (period_values period_list r) (b_key p)) in H.
  rewrite period_values_get in H.
  assert (E : existsb (String.eqb (b_key p)) (map b_key period_list) = true).
  { apply existsb_exists. exists (b_key p). split;
      [apply in_map; exact Hp | apply String.eqb_refl]. }
  rewrite E in H. discriminate.
Qed.

Lemma period_values_key_bucket period_list r k :
  In k (dict_keys (period_values period_list r)) ->
  In k (map b_key period_list).
Proof.
  intros Hk.
  destruct (sget (period_values period_list r) k) eqn:E.
  - rewrite period_values_get in E.
    destruct (existsb _ _) eqn:Ex; [| discriminate].
    apply existsb_exists in Ex as (x & Hx & Hxe).
    apply String.eqb_eq in Hxe. subst. exact Hx.
  - apply (dict_get_None String.eqb String.eqb_eq) in E. contradiction.
Qed.

(** The bucket keys in the order of the ["periods"] dictionaries. *)
Definition bucket_keys (period_list : list bucket) : list string :=
  dict_keys (period_values period_list []).

(** Every entry of [nested] was written from some aggregate row. *)
Definition from_row (period_list : list bucket) (d : sg_data) : Prop :=
  exists r, d = row_data period_list r.

Lemma from_row_keys period_list d :
  from_row period_list d ->
  dict_keys (sg_periods d) = bucket_keys period_list /\
  NoDup (dict_keys (sg_periods d)).
Proof.
  intros [r ->]. cbn [row_data sg_periods]. split.
  - apply period_values_keys.
  - apply period_values_NoDup.
Qed.

Lemma bucket_keys_spec period_list k :
  In k (bucket_keys period_list) <-> In k (map b_key period_list).
Proof.
  split.
  - apply period_values_key_bucket.
  - rewrite in_map_iff. intros (p & <- & Hp).
    apply period_values_key_in. exact Hp.
Qed.

Lemma child_row_get_key sg d k :
  NoDup (dict_keys (sg_periods d)) -> In k (dict_keys (sg_periods d)) ->
  py_get (child_row sg d) k = py_get_default (sg_periods d) k (PNum 0).
Proof.
  intros Hnd Hk. unfold py_get, py_get_default, child_row.
  destruct (sget (sg_periods d) k) as [v |] eqn:E.
  - rewrite (sget_set_items_in _ _ k v); [reflexivity | exact Hnd |].
    apply (dict_get_In String.eqb String.eqb_eq). exact E.
  - apply (dict_get_None String.eqb String.eqb_eq) in E. contradiction.
Qed.

Lemma child_row_get_other sg d k :
  ~ In k (dict_keys (sg_periods d)) ->
  py_get (child_row sg d) k =
  py_get [("customer_group", PStr ""); ("custom_sub_group", sg);
          ("total", sg_total d); ("indent", PNum 1)] k.
Proof.
  intros Hk. unfold py_get, child_row.
  rewrite sget_set_items_notin by exact Hk. reflexivity.
Qed.

Lemma group_row_spec period_list cg subgroups g :
  subgroups <> [] ->
  Forall (from_row period_list) (dict_values subgroups) ->
  group_row cg subgroups = Ok g ->
  (forall k, In k (bucket_keys period_list) ->
     py_sum (map (fun d => py_get_default (sg_periods d) k (PNum 0))
               (dict_values subgroups)) = Ok (py_get g k)) /\
  (~ In "total" (bucket_keys period_list) ->
   py_sum (map sg_total (dict_values subgroups)) = Ok (py_get g "total")) /\
  (~ In "indent" (bucket_keys period_list) -> py_get g "indent" = PNum 0).
Proof.
  intros Hne Hall. unfold group_row.
  destruct (py_sum (map sg_total (dict_values subgroups))) as [gt |] eqn:Et;
    [| discriminate].
  cbn [bind].
  destruct (dict_values subgroups) as [| first rest] eqn:Ev.
  { destruct subgroups; [congruence | discriminate]. }
  inversion Hall as [| ? ? Hfirst Hrest]; subst.
  destruct (from_row_keys _ _ Hfirst) as [Hkeys Hnd]. rewrite Hkeys.
  destruct (mapM _ (bucket_keys period_list)) as [sums |] eqn:Es;
    [| discriminate].
  cbn [bind]. intros [= <-].
  apply mapM_Forall2 in Es.
  assert (Hfst : map fst sums = bucket_keys period_list).
  { clear - Es. induction Es as [| k kv ks kvs Hk _ IH]; cbn;
      [reflexivity |].
    destruct (py_sum _); [| discriminate]. cbn in Hk.
    injection Hk as <-. cbn. rewrite IH. reflexivity. }
  refine (conj _ (conj _ _)).
  - intros k Hk.
    assert (Hin : exists v, In (k, v) sums /\
              py_sum (map (fun d => py_get_default (sg_periods d) k (PNum 0))
                        (first :: rest)) = Ok v).
    { clear - Es Hk. induction Es as [| k0 kv ks kvs Hk0 _ IH];
        [contradiction |].
      destruct Hk as [-> | Hk].
      - destruct (py_sum _) as [v |]; [| discriminate]. cbn in Hk0.
        injection Hk0 as <-. exists v. split; [left |]; reflexivity.
      - destruct (IH Hk) as (v & Hv & Hs). exists v. split;
          [right; exact Hv | exact Hs]. }
    destruct Hin as (v & Hv & Hs). rewrite Hs. f_equal.
    unfold py_get. rewrite (sget_set_items_in _ _ k v); [reflexivity | |].
    + rewrite Hfst, <- Hkeys. exact Hnd.
    + exact Hv.
  - intros Hn. unfold py_get.
    rewrite sget_set_items_notin by (rewrite Hfst; exact Hn). reflexivity.
  - intros Hn. unfold py_get.
    rewrite sget_set_items_notin by (rewrite Hfst; exact Hn). reflexivity.
Qed.

(** ** What the first loop leaves in [nested] *)

(** [nested] has each group and, within a group, each sub group once; no
    group is empty; and every entry satisfies [Q]. *)
Definition nested_inv (Q : sg_data -> Prop) (nested : nested_dict) : Prop :=
  NoDup (dict_keys nested) /\
  Forall (fun subgroups : list (pyval * sg_data) =>
            subgroups <> [] /\ NoDup (dict_keys subgroups) /\
            Forall Q (dict_values subgroups))
         (dict_values nested).

Definition nested_ok (period_list : list bucket) (nested : nested_dict)
  : Prop :=
  nested_inv (from_row period_list) nested.

Lemma dict_get_values {K V} (eqb : K -> K -> bool) (P : V -> Prop)
  (d : list (K * V)) k v :
  Forall P (dict_values d) -> dict_get eqb d k = Some v -> P v.
Proof.
  unfold dict_values. induction d as [| [k0 v0] d IH]; cbn; [discriminate |].
  inversion 1; subst. destruct (eqb k0 k); [intros [= <-] |]; auto.
Qed.

Lemma dict_set_set {K V} (eqb : K -> K -> bool)
  (eqb_eq : forall a b, eqb a b = true <-> a = b)
  (d : list (K * V)) k v0 v :
  dict_set eqb (dict_set eqb d k v0) k v = dict_set eqb d k v.
Proof.
  induction d as [| [k0 w] d IH]; cbn.
  - rewrite (eqb_refl_key eqb eqb_eq). reflexivity.
  - destruct (eqb k0 k) eqn:E; cbn; rewrite E; [reflexivity |].
    rewrite IH. reflexivity.
Qed.

Lemma dict_set_setdefault {K V} (eqb : K -> K -> bool)
  (eqb_eq : forall a b, eqb a b = true <-> a = b)
  (d : list (K * V)) k v0 v :
  dict_set eqb (dict_setdefault eqb d k v0) k v = dict_set eqb d k v.
Proof.
  unfold dict_setdefault. destruct (dict_mem eqb d k); [reflexivity |].
  apply dict_set_set. exact eqb_eq.
Qed.

(** The subgroups of a group, none if the group is new. *)
Definition subgroups_of (nested : nested_dict) (cg : pyval)
  : list (pyval * sg_data) :=
  match dict_get pyval_eqb nested cg with Some d => d | None => [] end.

(** A turn of the loop, in one step: the entry of the row's pair is written,
    in place if the pair was seen before and at the end otherwise. *)
Lemma nest_row_eq period_list nested r :
  nest_row period_list nested r =
  dict_set pyval_eqb nested (row_group r)
    (dict_set pyval_eqb (subgroups_of nested (row_group r))
       (row_sub_group r) (row_data period_list r)).
Proof.
  unfold nest_row, subgroups_of.
  rewrite (dict_get_setdefault pyval_eqb pyval_eqb_eq).
  rewrite (eqb_refl_key pyval_eqb pyval_eqb_eq).
  rewrite !(dict_set_setdefault pyval_eqb pyval_eqb_eq).
  destruct (dict_get pyval_eqb nested (row_group r)); reflexivity.
Qed.

Lemma nest_row_inv (Q : sg_data -> Prop) period_list nested r :
  Q (row_data period_list r) ->
  nested_inv Q nested -> nested_inv Q (nest_row period_list nested r).
Proof.
  intros Hq [Hnd Hall]. rewrite nest_row_eq.
  assert (Hsub : NoDup (dict_keys (subgroups_of nested (row_group r))) /\
                 Forall Q (dict_values (subgroups_of nested (row_group r)))).
  { unfold subgroups_of.
    destruct (dict_get pyval_eqb nested (row_group r)) as [S |] eqn:E.
    - pose proof (dict_get_values _ _ _ _ _ Hall E) as (_ & H1 & H2). auto.
    - split; constructor. }
  destruct Hsub as [Hsnd Hsall].
  split.
  - apply dict_set_NoDup; [exact pyval_eqb_eq | exact Hnd].
  - apply dict_set_values; [exact Hall |].
    refine (conj _ (conj _ _)).
    + apply dict_set_not_nil.
    + apply dict_set_NoDup; [exact pyval_eqb_eq | exact Hsnd].
    + apply dict_set_values; [exact Hsall | exact Hq].
Qed.

Lemma build_nested_inv (Q : sg_data -> Prop) agg_rows period_list :
  Forall (fun r => Q (row_data period_list r)) agg_rows ->
  nested_inv Q (build_nested agg_rows period_list).
Proof.
  unfold build_nested.
  assert (H : nested_inv Q []) by (split; constructor).
  revert H. generalize ([] : nested_dict).
  induction agg_rows as [| r l IH]; intros nested H Hall; cbn [fold_left];
    [exact H |].
  inversion Hall; subst. apply IH; [| assumption].
  apply nest_row_inv; assumption.
Qed.

Lemma build_nested_ok agg_rows period_list :
  nested_ok period_list (build_nested agg_rows period_list).
Proof.
  apply build_nested_inv. apply Forall_forall. intros r _. exists r.
  reflexivity.
Qed.

(** ** Group rows and their children in the output *)

Definition is_group_row (row : sdict pyval) : bool :=
  pyval_eqb (py_get row "indent") (PNum 0).

(** The rows up to the next group row. *)
Fixpoint take_children (rows : list (sdict pyval)) : list (sdict pyval) :=
  match rows with
  | [] => []
  | row :: rest => if is_group_row row then [] else row :: take_children rest
  end.

(** The child rows of the row at index [i]: the rows that follow it up to
    the next group row. *)
Definition children_of (data : list (sdict pyval)) (i : nat)
  : list (sdict pyval) :=
  take_children (skipn (S i) data).

(** What holds between a group row and its child rows. *)
Definition sums_children (period_list : list bucket) (g : sdict pyval)
  (children : list (sdict pyval)) : Prop :=
  Forall (fun c => py_get c "indent" = PNum 1) children /\
  py_sum (map (fun c => py_get c "total") children) = Ok (py_get g "total") /\
  forall p, In p period_list ->
    py_sum (map (fun c => py_get c (b_key p)) children) =
    Ok (py_get g (b_key p)).

Definition block_ok (period_list : list bucket) (block : list (sdict pyval))
  : Prop :=
  match block with
  | [] => False
  | g :: children =>
      is_group_row g = true /\ sums_children period_list g children
  end.

Lemma group_block_ok period_list cg subgroups block :
  ~ In "indent" (map b_key period_list) ->
  subgroups <> [] ->
  Forall (from_row period_list) (dict_values subgroups) ->
  group_block (cg, subgroups) = Ok block ->
  block_ok period_list block.
Proof.
  intros Hind Hne Hall. unfold group_block.
  destruct (group_row cg subgroups) as [g |] eqn:Eg; [| discriminate].
  cbn [bind]. intros [= <-].
  destruct (group_row_spec _ _ _ _ Hne Hall Eg) as (Hk & Ht & Hi).
  rewrite <- bucket_keys_spec in Hind.
  assert (Hkeys : forall d, In d (dict_values subgroups) ->
            dict_keys (sg_periods d) = bucket_keys period_list /\
            NoDup (dict_keys (sg_periods d))).
  { rewrite Forall_forall in Hall. intros d Hd.
    apply from_row_keys. auto. }
  assert (Hmap : forall k, In k (bucket_keys period_list) ->
            map (fun c => py_get c k)
              (map (fun e => child_row (fst e) (snd e)) subgroups) =
            map (fun d => py_get_default (sg_periods d) k (PNum 0))
              (dict_values subgroups)).
  { intros k Hkin. unfold dict_values in *. rewrite !map_map.
    apply map_ext_in. intros [sg d] Hin. cbn [fst snd].
    destruct (Hkeys d) as [E Hnd]; [apply in_map_iff; exists (sg, d); auto |].
    apply child_row_get_key; [exact Hnd | rewrite E; exact Hkin]. }
  cbn [block_ok]. split; [| refine (conj _ (conj _ _))].
  - unfold is_group_row. rewrite (Hi Hind). reflexivity.
  - apply Forall_forall. intros c Hc.
    apply in_map_iff in Hc as ([sg d] & <- & Hin). cbn [fst snd].
    destruct (Hkeys d) as [E Hnd]; [apply in_map_iff; exists (sg, d); auto |].
    rewrite child_row_get_other by (rewrite E; exact Hind). reflexivity.
  - destruct (in_dec string_dec "total" (bucket_keys period_list))
      as [Hin | Hnin].
    + rewrite (Hmap _ Hin). apply Hk. exact Hin.
    + rewrite <- (Ht Hnin). f_equal. unfold dict_values. rewrite !map_map.
      apply map_ext_in. intros [sg d] Hin. cbn [fst snd].
      destruct (Hkeys d) as [E Hnd];
        [apply in_map_iff; exists (sg, d); auto |].
      rewrite child_row_get_other by (rewrite E; exact Hnin). reflexivity.
  - intros p Hp.
    assert (Hin : In (b_key p) (bucket_keys period_list))
      by (apply bucket_keys_spec, in_map; exact Hp).
    rewrite (Hmap _ Hin). apply Hk. exact Hin.
Qed.

Lemma take_children_app children rest :
  Forall (fun c => is_group_row c = false) children ->
  match rest with [] => True | g :: _ => is_group_row g = true end ->
  take_children (children ++ rest) = children.
Proof.
  intros Hc Hr. induction Hc as [| c cs Hcg _ IH]; cbn.
  - destruct rest as [| g rest]; [reflexivity |]. cbn. rewrite Hr.
    reflexivity.
  - rewrite Hcg, IH. reflexivity.
Qed.

Lemma indent_1_not_group c : py_get c "indent" = PNum 1 -> is_group_row c = false.
Proof. unfold is_group_row. intros ->. reflexivity. Qed.

(** In a concatenation of blocks, the rows that follow a group row up to the
    next group row are the rest of its block. *)
Lemma concat_blocks_children period_list blocks :
  Forall (block_ok period_list) blocks ->
  forall i g, nth_error (List.concat blocks) i = Some g ->
              is_group_row g = true ->
              sums_children period_list g (children_of (List.concat blocks) i).
Proof.
  induction 1 as [| block blocks Hb Hbs IH]; intros i g Hi Hg.
  - destruct i; discriminate.
  - destruct block as [| g0 children]; [contradiction |].
    destruct Hb as [Hg0 Hsum]. cbn [List.concat app] in *.
    assert (Hng : Forall (fun c => is_group_row c = false) children).
    { destruct Hsum as [Hind _]. eapply Forall_impl; [| exact Hind].
      intros c. apply indent_1_not_group. }
    assert (Hhead : match List.concat blocks with
                    | [] => True
                    | g' :: _ => is_group_row g' = true
                    end).
    { destruct Hbs as [| b bs Hb' _]; [exact I |].
      destruct b as [| g' cs]; [contradiction |]. cbn. apply Hb'. }
    destruct i as [| i].
    + cbn in Hi. injection Hi as <-. unfold children_of. cbn [skipn].
      rewrite take_children_app; assumption.
    + cbn [nth_error] in Hi. unfold children_of.
      change (skipn (S (S i)) (g0 :: children ++ List.concat blocks))
        with (skipn (S i) (children ++ List.concat blocks)).
      destruct (Nat.lt_ge_cases i (List.length children)) as [Hlt | Hge].
      * rewrite nth_error_app1 in Hi by exact Hlt.
        apply nth_error_In in Hi. rewrite Forall_forall in Hng.
        rewrite (Hng _ Hi) in Hg. discriminate.
      * rewrite nth_error_app2 in Hi by exact Hge.
        specialize (IH _ _ Hi Hg). unfold children_of in IH.
        replace (skipn (S i) (children ++ List.concat blocks))
          with (skipn (S (i - List.length children)) (List.concat blocks)).
        { exact IH. }
        rewrite skipn_app.
        rewrite (skipn_all2 children) by lia. cbn [app].
        f_equal. lia.
Qed.

(** ** Numeric measures *)

Definition is_num (v : pyval) : bool :=
  match v with PNum _ => true | _ => false end.

Definition num_of (v : pyval) : Z :=
  match v with PNum z => z | _ => 0 end.

Definition sum_Z (l : list Z) : Z := fold_right Z.add 0 l.

(** The measures of an aggregate row are numbers (or absent). *)
Definition numeric_row (period_list : list bucket) (r : sdict pyval) : Prop :=
  is_num (py_get_default r "total" (PNum 0)) = true /\
  Forall (fun p => is_num (py_get_default r (b_key p) (PNum 0)) = true)
         period_list.

Definition numeric_data (d : sg_data) : Prop :=
  is_num (sg_total d) = true /\
  Forall (fun v => is_num v = true) (dict_values (sg_periods d)).

Lemma py_sum_from_num l : forall a,
  Forall (fun v => is_num v = true) l ->
  py_sum_from (PNum a) l = Ok (PNum (a + sum_Z (map num_of l))).
Proof.
  induction l as [| v l IH]; intros a Hl;
    cbn [py_sum_from map sum_Z fold_right].
  - rewrite Z.add_0_r. reflexivity.
  - inversion Hl as [| ? ? Hv Hl']; subst.
    destruct v; try discriminate. cbn [py_add bind num_of].
    rewrite IH by exact Hl'. unfold sum_Z. rewrite Z.add_assoc.
    reflexivity.
Qed.

Lemma py_sum_num l :
  Forall (fun v => is_num v = true) l ->
  py_sum l = Ok (PNum (sum_Z (map num_of l))).
Proof. intros H. unfold py_sum. rewrite py_sum_from_num by exact H. reflexivity. Qed.

Lemma sum_Z_app a b : sum_Z (a ++ b) = sum_Z a + sum_Z b.
Proof.
  unfold sum_Z. induction a as [| x a IH]; cbn [app fold_right];
    [| rewrite IH]; lia.
Qed.

Lemma row_data_numeric period_list r :
  numeric_row period_list r -> numeric_data (row_data period_list r).
Proof.
  intros [Ht Hp]. split; [exact Ht |]. cbn [row_data sg_periods].
  unfold period_values.
  assert (H : Forall (fun v => is_num v = true)
                (dict_values ([] : sdict pyval))) by constructor.
  revert H. generalize ([] : sdict pyval).
  induction Hp as [| p l Hp0 _ IH]; intros d H; cbn [fold_left];
    [exact H |].
  apply IH. apply dict_set_values; assumption.
Qed.

Lemma numeric_data_get d k :
  numeric_data d -> is_num (py_get_default (sg_periods d) k (PNum 0)) = true.
Proof.
  intros [_ H]. unfold py_get_default.
  destruct (sget (sg_periods d) k) as [v |] eqn:E; [| reflexivity].
  exact (dict_get_values String.eqb (fun v => is_num v = true) _ _ _ H E).
Qed.

Lemma mapM_returns {A B} (f : A -> res B) l :
  (forall x, In x l -> exists y, f x = Ok y) -> exists ys, mapM f l = Ok ys.
Proof.
  induction l as [| x l IH]; intros H; cbn; [eauto |].
  destruct (H x (or_introl eq_refl)) as [y ->]. cbn.
  destruct IH as [ys ->]; [intros; apply H; right; assumption |].
  cbn. eauto.
Qed.

Lemma group_block_returns cg subgroups :
  Forall numeric_data (dict_values subgroups) ->
  exists block, group_block (cg, subgroups) = Ok block.
Proof.
  intros Hall. unfold group_block, group_row.
  rewrite py_sum_num.
  2: { apply Forall_forall. intros v Hv. apply in_map_iff in Hv as (d & <- & Hd).
       rewrite Forall_forall in Hall. apply (Hall d Hd). }
  cbn [bind].
  match goal with
  | |- context [mapM ?f ?l] => destruct (mapM_returns f l) as [sums ->]
  end.
  - intros k _. rewrite py_sum_num; [cbn; eauto |].
    apply Forall_forall. intros v Hv. apply in_map_iff in Hv as (d & <- & Hd).
    rewrite Forall_forall in Hall. apply numeric_data_get. auto.
  - cbn. eauto.
Qed.




(** ** The chart *)

(** The measures of all entries of [nested] for one bucket key, summed. *)
Definition leaf_total (k : string) (nested : nested_dict) : Z :=
  sum_Z (map (fun d => num_of (py_get_default (sg_periods d) k (PNum 0)))
           (List.concat (map (fun e => dict_values (snd e)) nested))).

(** The sum of a bucket's column over rows, as numbers. *)
Definition column_sum (k : string) (rows : list (sdict pyval)) : Z :=
  sum_Z (map (fun row => num_of (cell_or_zero k row)) rows).

Lemma py_get_default_of_get row k z dflt :
  py_get row k = PNum z -> py_get_default row k dflt = PNum z.
Proof.
  unfold py_get, py_get_default. destruct (sget row k); [auto | discriminate].
Qed.

Lemma cell_or_zero_num row k z :
  py_get row k = PNum z -> cell_or_zero k row = PNum z.
Proof.
  intros H. unfold cell_or_zero. rewrite (py_get_default_of_get _ _ _ _ H).
  unfold py_or. cbn. destruct (Z.eqb_spec z 0) as [-> | Hz]; reflexivity.
Qed.

Lemma column_sum_app k a b :
  column_sum k (a ++ b) = column_sum k a + column_sum k b.
Proof. unfold column_sum. rewrite map_app. apply sum_Z_app. Qed.

Lemma is_num_PNum v : is_num v = true -> v = PNum (num_of v).
Proof. destruct v; try discriminate. reflexivity. Qed.

(** In a block each measure is there twice: in its child row and in the sum
    of the group row. *)
Lemma group_block_column period_list cg subgroups block k :
  subgroups <> [] ->
  Forall (from_row period_list) (dict_values subgroups) ->
  Forall numeric_data (dict_values subgroups) ->
  In k (bucket_keys period_list) ->
  group_block (cg, subgroups) = Ok block ->
  Forall (fun row => is_num (cell_or_zero k row) = true) block /\
  column_sum k block =
  2 * sum_Z (map (fun d => num_of (py_get_default (sg_periods d) k (PNum 0)))
               (dict_values subgroups)).
Proof.
  intros Hne Hfrom Hnum Hk. unfold group_block.
  destruct (group_row cg subgroups) as [g |] eqn:Eg; [| discriminate].
  cbn [bind]. intros [= <-].
  destruct (group_row_spec _ _ _ _ Hne Hfrom Eg) as (Hsum & _ & _).
  specialize (Hsum k Hk).
  rewrite py_sum_num in Hsum.
  2: { apply Forall_forall. intros v Hv.
       apply in_map_iff in Hv as (d & <- & Hd).
       rewrite Forall_forall in Hnum. apply numeric_data_get. auto. }
  injection Hsum as Hg. symmetry in Hg. rewrite map_map in Hg.
  assert (Hchild : forall e, In e subgroups ->
            cell_or_zero k (child_row (fst e) (snd e)) =
            PNum (num_of (py_get_default (sg_periods (snd e)) k (PNum 0)))).
  { intros [sg d] Hin. cbn [fst snd]. apply cell_or_zero_num.
    assert (Hd : In d (dict_values subgroups))
      by (unfold dict_values; apply in_map_iff; exists (sg, d); auto).
    rewrite Forall_forall in Hfrom, Hnum.
    destruct (from_row_keys _ _ (Hfrom d Hd)) as [E Hnd].
    rewrite child_row_get_key by first [exact Hnd | rewrite E; exact Hk].
    apply is_num_PNum, numeric_data_get. auto. }
  split.
  - constructor.
    + rewrite (cell_or_zero_num _ _ _ Hg). reflexivity.
    + apply Forall_forall. intros row Hrow.
      apply in_map_iff in Hrow as (e & <- & He).
      rewrite (Hchild e He). reflexivity.
  - unfold column_sum. cbn [map sum_Z fold_right].
    rewrite (cell_or_zero_num _ _ _ Hg). cbn [num_of].
    fold (sum_Z (map (fun row => num_of (cell_or_zero k row))
                   (map (fun e => child_row (fst e) (snd e)) subgroups))).
    rewrite map_map.
    rewrite (map_ext_in _
               (fun e => num_of (py_get_default (sg_periods (snd e)) k
                                   (PNum 0)))).
    2: { intros e He. rewrite (Hchild e He). reflexivity. }
    unfold dict_values. rewrite map_map. lia.
Qed.

Lemma blocks_column period_list k :
  In k (bucket_keys period_list) ->
  forall nested blocks,
    Forall (fun S : list (pyval * sg_data) =>
              S <> [] /\ Forall (from_row period_list) (dict_values S) /\
              Forall numeric_data (dict_values S)) (dict_values nested) ->
    mapM group_block nested = Ok blocks ->
    Forall (fun row => is_num (cell_or_zero k row) = true)
      (List.concat blocks) /\
    column_sum k (List.concat blocks) = 2 * leaf_total k nested.
Proof.
  intros Hk nested. unfold leaf_total.
  induction nested as [| [cg S] nested IH]; intros blocks Hall Hm.
  - cbn in Hm. injection Hm as <-. cbn. split; [constructor | reflexivity].
  - cbn [mapM] in Hm.
    destruct (group_block (cg, S)) as [block |] eqn:Eb; [| discriminate].
    destruct (mapM group_block nested) as [bs |] eqn:Em; [| discriminate].
    cbn [bind] in Hm. injection Hm as <-.
    unfold dict_values in Hall. cbn [map snd] in Hall.
    inversion Hall as [| ? ? (Hne & Hfrom & Hnum) Hrest]; subst.
    destruct (group_block_column _ _ _ _ _ Hne Hfrom Hnum Hk Eb) as [Hn Hs].
    destruct (IH bs Hrest eq_refl) as [Hn' Hs'].
    cbn [List.concat map snd]. split.
    + apply Forall_app. auto.
    + rewrite column_sum_app, Hs, Hs', map_app, sum_Z_app. lia.
Qed.

Lemma Forall2_map_left {A B C} (f : A -> B) (R : B -> C -> Prop) l ys :
  Forall2 R (map f l) ys -> Forall2 (fun x y => R (f x) y) l ys.
Proof.
  revert ys. induction l as [| x l IH]; intros ys H; inversion H; subst;
    constructor; auto.
Qed.

Lemma Forall2_known {A} (g : A -> res pyval) (F : A -> pyval) l ys :
  (forall x, In x l -> g x = Ok (F x)) ->
  Forall2 (fun x y => g x = Ok y) l ys ->
  Forall2 (fun x y => y = F x) l ys.
Proof.
  intros Hg H. induction H as [| x y l ys Hxy _ IH]; constructor.
  - rewrite Hg in Hxy by (left; reflexivity). congruence.
  - apply IH. intros z Hz. apply Hg. right. exact Hz.
Qed.

Lemma get_chart_data_values filters columns data period_list chart :
  get_chart_data filters columns data period_list = Ok chart ->
  chart_labels chart = map b_label period_list /\
  Forall2 (fun p v => py_sum (map (cell_or_zero (b_key p)) data) = Ok v)
    period_list (chart_values chart).
Proof.
  unfold get_chart_data.
  destruct (mapM _ (map b_key period_list)) as [totals |] eqn:E;
    [| discriminate].
  cbn [bind]. intros [= <-]. cbn. split; [reflexivity |].
  apply mapM_Forall2 in E. apply Forall2_map_left in E. exact E.
Qed.


Example chart_counts_twice :
  let periods := [mkbucket "Jan_2025" "Jan 2025" (mkdate 2025 1 1)
                    (mkdate 2025 1 31)] in
  let agg_rows :=
    [ [("customer_group", PStr "A"); ("custom_sub_group", PStr "x");
       ("Jan_2025", PNum 3); ("total", PNum 3)];
      [("customer_group", PStr "B"); ("custom_sub_group", PStr "y");
       ("Jan_2025", PNum 4); ("total", PNum 4)] ] in
  (data <- build_hierarchical_rows agg_rows periods ;;
   get_chart_data [] (get_columns periods) data periods) =
  Ok (mk_chart ["Jan 2025"] "Sales" [PNum 14] "bar").
Proof. reflexivity. Qed.

(** * Further properties of the two reports *)

(** ** Dictionaries that agree except at some keys *)

Section DictRel.
Context {K V : Type} (eqb : K -> K -> bool).
Hypothesis eqb_eq : forall a b, eqb a b = true <-> a = b.

Definition entry_rel (R : K -> V -> V -> Prop) (e e' : K * V) : Prop :=
  fst e = fst e' /\ R (fst e) (snd e) (snd e').

(** Each key once, the same keys in the same order, and the values related
    key by key. *)
Definition dict_rel (R : K -> V -> V -> Prop) (d d' : list (K * V)) : Prop :=
  NoDup (dict_keys d) /\ Forall2 (entry_rel R) d d'.

Lemma dict_rel_refl (R : K -> V -> V -> Prop) d :
  NoDup (dict_keys d) -> (forall k v, R k v v) -> dict_rel R d d.
Proof.
  intros Hnd HR. split; [exact Hnd |].
  clear Hnd. induction d as [| e d IH]; constructor; [split |]; auto.
Qed.

Lemma dict_rel_eq d d' : dict_rel (fun _ a b => a = b) d d' -> d = d'.
Proof.
  intros [_ H].
  induction H as [| [k v] [k' v'] d d' [Hk Hv] _ IH]; [reflexivity |].
  cbn in Hk, Hv. subst. reflexivity.
Qed.

Lemma entries_rel_impl (R R' : K -> V -> V -> Prop) d d' :
  (forall k a b, In k (dict_keys d) -> R k a b -> R' k a b) ->
  Forall2 (entry_rel R) d d' -> Forall2 (entry_rel R') d d'.
Proof.
  intros HR H. induction H as [| e e' d d' [Hk Hv] _ IH]; constructor.
  - split; [exact Hk |]. apply HR; [left; reflexivity | exact Hv].
  - apply IH. intros k a b Hin. apply HR. right. exact Hin.
Qed.

Lemma dict_rel_get (R : K -> V -> V -> Prop) d d' k :
  dict_rel R d d' ->
  match dict_get eqb d k, dict_get eqb d' k with
  | Some v, Some v' => R k v v'
  | None, None => True
  | _, _ => False
  end.
Proof.
  intros [_ H].
  induction H as [| [k0 v] [k0' v'] d d' [Hk Hv] _ IH]; cbn; [exact I |].
  cbn in Hk, Hv. subst k0'. destruct (eqb k0 k) eqn:E; [| exact IH].
  apply eqb_eq in E. subst. exact Hv.
Qed.

(** Writing related values under a key: the relation may change at that
    key and is kept at the others. *)
Lemma dict_rel_set (R R' : K -> V -> V -> Prop) d d' k v v' :
  dict_rel R d d' ->
  (forall k' a b, k' <> k -> R k' a b -> R' k' a b) ->
  R' k v v' ->
  dict_rel R' (dict_set eqb d k v) (dict_set eqb d' k v').
Proof.
  intros [Hnd H] Hother Hk.
  split; [apply dict_set_NoDup; [exact eqb_eq | exact Hnd] |].
  revert Hnd.
  induction H as [| [k0 a] [k0' b] d d' [Hk0 Hab] H IH]; intros Hnd; cbn.
  - constructor; [split; cbn; auto | constructor].
  - cbn in Hk0, Hab. subst k0'. inversion Hnd as [| ? ? Hnotin Hnd']; subst.
    destruct (eqb k0 k) eqn:E.
    + apply eqb_eq in E. subst k0. constructor; [split; cbn; auto |].
      apply (entries_rel_impl R R'); [| exact H].
      intros k' x y Hin. apply Hother. intros ->. contradiction.
    + constructor; [| exact (IH Hnd')]. split; [reflexivity |]. cbn.
      apply Hother; [| exact Hab]. intros ->.
      rewrite (eqb_refl_key eqb eqb_eq) in E. discriminate.
Qed.
End DictRel.

Lemma dict_rel_impl {K V} (R R' : K -> V -> V -> Prop) (d d' : list (K * V)) :
  (forall k a b, R k a b -> R' k a b) -> dict_rel R d d' -> dict_rel R' d d'.
Proof.
  intros HR [Hnd H]. split; [exact Hnd |].
  apply (entries_rel_impl R R'); [| exact H]. intros k a b _. apply HR.
Qed.

(** ** Rows of the same group and sub group *)

(** The pair under which the first loop files a row. *)
Definition row_pair (r : sdict pyval) : pyval * pyval :=
  (row_group r, row_sub_group r).

(** Two states of [nested] with the same groups and sub groups in the same
    order, and the same entries except possibly at the pairs in [E]. *)
Definition nested_rel (E : pyval * pyval -> Prop)
  : nested_dict -> nested_dict -> Prop :=
  dict_rel (fun cg => dict_rel (fun sg a b => a = b \/ E (cg, sg))).

Lemma nested_rel_refl Q nested :
  nested_inv Q nested -> nested_rel (fun _ => False) nested nested.
Proof.
  intros [Hnd Hall]. split; [exact Hnd |].
  unfold dict_values in Hall. clear Hnd.
  induction nested as [| [cg S] nested IH]; constructor.
  - inversion Hall as [| ? ? (_ & HS & _) _]; subst.
    split; [reflexivity |]. apply dict_rel_refl; [exact HS | auto].
  - inversion Hall; subst. apply IH. assumption.
Qed.

Lemma nested_rel_eq nested nested' :
  nested_rel (fun _ => False) nested nested' -> nested = nested'.
Proof.
  intros H. apply dict_rel_eq. revert H. apply dict_rel_impl.
  intros cg S S' H. apply dict_rel_eq. revert H. apply dict_rel_impl.
  intros sg a b [e | []]. exact e.
Qed.

Lemma subgroups_of_rel E nested nested' cg :
  nested_rel E nested nested' ->
  dict_rel (fun sg a b => a = b \/ E (cg, sg))
    (subgroups_of nested cg) (subgroups_of nested' cg).
Proof.
  intros H. pose proof (dict_rel_get pyval_eqb pyval_eqb_eq _ _ _ cg H) as G.
  unfold subgroups_of.
  destruct (dict_get pyval_eqb nested cg), (dict_get pyval_eqb nested' cg);
    try contradiction; [exact G |].
  split; constructor.
Qed.

(** A turn of the loop on two rows of the same pair: the pair leaves the
    exceptions when the rows carry the same measures, and joins them
    otherwise. *)
Lemma nest_row_rel (E E' : pyval * pyval -> Prop) period_list nested nested'
  r r' :
  row_pair r' = row_pair r ->
  nested_rel E nested nested' ->
  (forall p, p <> row_pair r -> E p -> E' p) ->
  row_data period_list r = row_data period_list r' \/ E' (row_pair r) ->
  nested_rel E' (nest_row period_list nested r)
    (nest_row period_list nested' r').
Proof.
  intros Hpair H Hother Hdata. rewrite !nest_row_eq.
  injection Hpair as Hcg Hsg. rewrite Hcg, Hsg.
  apply (dict_rel_set pyval_eqb pyval_eqb_eq _ _ _ _ _ _ _ H).
  - intros cg S S' Hne. apply dict_rel_impl. intros sg a b [e | He];
      [left; exact e | right]. apply Hother; [| exact He].
    unfold row_pair. intros [= e _]. contradiction.
  - apply (dict_rel_set pyval_eqb pyval_eqb_eq _ _ _ _ _ _ _
             (subgroups_of_rel E _ _ (row_group r) H)).
    + intros sg a b Hne [e | He]; [left; exact e | right].
      apply Hother; [| exact He]. unfold row_pair. intros [= e].
      contradiction.
    + exact Hdata.
Qed.

Lemma build_nested_app l1 l2 period_list :
  build_nested (l1 ++ l2) period_list =
  fold_left (nest_row period_list) l2 (build_nested l1 period_list).
Proof.
  unfold build_nested. apply fold_left_app.
Qed.

Lemma fold_nest_row_rel E period_list l nested nested' :
  nested_rel E nested nested' ->
  nested_rel E (fold_left (nest_row period_list) l nested)
    (fold_left (nest_row period_list) l nested').
Proof.
  revert nested nested'.
  induction l as [| r l IH]; intros nested nested' H; cbn [fold_left];
    [exact H |].
  apply IH. apply (nest_row_rel E E _ _ _ r r eq_refl H); auto.
Qed.

Lemma build_nested_overwritten period_list l1 r1 r1' l2 r2 l3 :
  row_pair r1' = row_pair r1 ->
  row_pair r2 = row_pair r1 ->
  build_nested (l1 ++ r1 :: l2 ++ r2 :: l3) period_list =
  build_nested (l1 ++ r1' :: l2 ++ r2 :: l3) period_list.
Proof.
  intros H1 H2. rewrite !build_nested_app. cbn [fold_left].
  rewrite !fold_left_app. cbn [fold_left]. f_equal.
  apply nested_rel_eq.
  apply (nest_row_rel (fun p => p = row_pair r1) _ _ _ _ r2 r2 eq_refl).
  - apply fold_nest_row_rel.
    apply (nest_row_rel (fun _ => False) _ _ _ _ r1 r1').
    + exact H1.
    + apply (nested_rel_refl (fun _ => True)).
      apply build_nested_inv. apply Forall_forall. auto.
    + intros p _ [].
    + right. reflexivity.
  - intros p Hne ->. apply Hne. symmetry. exact H2.
  - left. reflexivity.
Qed.

(** X1. When two aggregate rows fall under the same (group, sub group) pair
    after the placeholders are applied, the measures of the earlier row do
    not reach the display rows: replacing the earlier row by any other row
    of the same pair leaves the output of [build_hierarchical_rows]
    unchanged, wherever the two rows stand in the list. *)
Theorem build_hierarchical_rows_overwrites period_list l1 r1 r1' l2 r2 l3 :
  row_pair r1' = row_pair r1 ->
  row_pair r2 = row_pair r1 ->
  build_hierarchical_rows (l1 ++ r1 :: l2 ++ r2 :: l3) period_list =
  build_hierarchical_rows (l1 ++ r1' :: l2 ++ r2 :: l3) period_list.
Proof.
  intros H1 H2. unfold build_hierarchical_rows.
  rewrite (build_nested_overwritten period_list l1 r1 r1' l2 r2 l3 H1 H2).
  reflexivity.
Qed.

(** A row with a null sub group is overwritten by a later row with an empty
    sub group of the same customer group: both fall under the placeholder. *)
Lemma build_hierarchical_rows_overwrites_witness :
  build_hierarchical_rows
    ([] ++ [("customer_group", PStr "Retail"); ("custom_sub_group", PNone);
            ("total", PNum 5)]
        :: [] ++ [("customer_group", PStr "Retail");
                  ("custom_sub_group", PStr ""); ("total", PNum 7)] :: [])
    [] =
  build_hierarchical_rows
    ([] ++ [("customer_group", PStr "Retail");
            ("custom_sub_group", PStr "(No Sub Group)"); ("total", PNum 90)]
        :: [] ++ [("customer_group", PStr "Retail");
                  ("custom_sub_group", PStr ""); ("total", PNum 7)] :: [])
    [].
Proof.
  apply (build_hierarchical_rows_overwrites [] []); reflexivity.
Defined.

(** ** Which aggregate row a child row shows *)

Definition same_pair (p : pyval * pyval) (r : sdict pyval) : bool :=
  pyval_eqb (row_group r) (fst p) && pyval_eqb (row_sub_group r) (snd p).

(** The last aggregate row filed under the pair. *)
Definition last_row (p : pyval * pyval) (agg_rows : list (sdict pyval))
  : option (sdict pyval) :=
  find (same_pair p) (rev agg_rows).

(** [nested[cg][sg]], when both keys are there. *)
Definition entry_of (nested : nested_dict) (p : pyval * pyval)
  : option sg_data :=
  match dict_get pyval_eqb nested (fst p) with
  | Some subgroups => dict_get pyval_eqb subgroups (snd p)
  | None => None
  end.

Lemma same_pair_spec p r : same_pair p r = true <-> row_pair r = p.
Proof.
  unfold same_pair, row_pair. destruct p as [cg sg]. cbn [fst snd].
  rewrite andb_true_iff, !pyval_eqb_eq. split.
  - intros [-> ->]. reflexivity.
  - intros [= -> ->]. auto.
Qed.

Lemma nest_row_entry period_list nested r p :
  entry_of (nest_row period_list nested r) p =
  if same_pair p r then Some (row_data period_list r) else entry_of nested p.
Proof.
  rewrite nest_row_eq. unfold entry_of, same_pair.
  rewrite (dict_get_set pyval_eqb pyval_eqb_eq).
  destruct (pyval_eqb (row_group r) (fst p)) eqn:E; cbn [andb];
    [| reflexivity].
  rewrite (dict_get_set pyval_eqb pyval_eqb_eq).
  apply pyval_eqb_eq in E. rewrite E. unfold subgroups_of.
  destruct (pyval_eqb (row_sub_group r) (snd p)); [reflexivity |].
  destruct (dict_get pyval_eqb nested (fst p)); reflexivity.
Qed.

(** After the first loop the entry of a pair holds the measures of the last
    row of that pair, and pairs of no row have no entry. *)
Lemma build_nested_entry agg_rows period_list p :
  entry_of (build_nested agg_rows period_list) p =
  option_map (row_data period_list) (last_row p agg_rows).
Proof.
  unfold last_row.
  induction agg_rows as [| r l IH] using rev_ind; [reflexivity |].
  rewrite build_nested_app. cbn [fold_left]. rewrite nest_row_entry.
  rewrite rev_app_distr. cbn [rev app find].
  destruct (same_pair p r); [reflexivity | exact IH].
Qed.

Lemma last_row_some p agg_rows r :
  In r agg_rows -> row_pair r = p ->
  exists r', last_row p agg_rows = Some r'.
Proof.
  intros Hin Hp. unfold last_row.
  destruct (find (same_pair p) (rev agg_rows)) as [r' |] eqn:E; [eauto |].
  exfalso. pose proof (find_none _ _ E r) as H.
  rewrite <- in_rev in H. specialize (H Hin).
  apply same_pair_spec in Hp. congruence.
Qed.

(** The rows of a block are rows of the output. *)
Lemma In_blocks_concat (nested : nested_dict) blocks cg subgroups sg d :
  mapM group_block nested = Ok blocks ->
  In (cg, subgroups) nested -> In (sg, d) subgroups ->
  In (child_row sg d) (List.concat blocks).
Proof.
  intros Hm Hin Hsg. apply mapM_Forall2 in Hm.
  induction Hm as [| e b l bs He _ IH]; [contradiction |].
  cbn [List.concat]. apply in_or_app. destruct Hin as [-> | Hin].
  - left. unfold group_block in He.
    destruct (group_row cg subgroups); [| discriminate]. cbn in He.
    injection He as <-. right. apply in_map_iff. exists (sg, d). auto.
  - right. apply IH. exact Hin.
Qed.

Lemma In_concat_blocks (nested : nested_dict) blocks row :
  mapM group_block nested = Ok blocks ->
  In row (List.concat blocks) ->
  exists cg subgroups, In (cg, subgroups) nested /\
    (group_row cg subgroups = Ok row \/
     exists sg d, In (sg, d) subgroups /\ row = child_row sg d).
Proof.
  intros Hm Hin. apply mapM_Forall2 in Hm.
  induction Hm as [| [cg subgroups] b l bs He _ IH]; [contradiction |].
  cbn [List.concat] in Hin. apply in_app_or in Hin as [Hin | Hin].
  - exists cg, subgroups. split; [left; reflexivity |].
    unfold group_block in He.
    destruct (group_row cg subgroups) as [g |]; [| discriminate].
    cbn in He. injection He as <-. destruct Hin as [<- | Hin];
      [left; reflexivity | right].
    apply in_map_iff in Hin as ([sg d] & <- & Hin). eauto.
  - destruct (IH Hin) as (cg' & S' & H1 & H2). exists cg', S'.
    split; [right; exact H1 | exact H2].
Qed.

Lemma entry_of_In nested cg subgroups sg d :
  nested_inv (fun _ => True) nested ->
  In (cg, subgroups) nested -> In (sg, d) subgroups ->
  entry_of nested (cg, sg) = Some d.
Proof.
  intros [Hnd Hall] Hin Hsg. unfold entry_of. cbn [fst snd].
  rewrite (In_dict_get pyval_eqb pyval_eqb_eq _ _ _ Hnd Hin).
  apply (In_dict_get pyval_eqb pyval_eqb_eq); [| exact Hsg].
  rewrite Forall_forall in Hall.
  apply (Hall subgroups). unfold dict_values. apply in_map_iff.
  exists (cg, subgroups). auto.
Qed.

Lemma In_entry_of nested p d :
  entry_of nested p = Some d ->
  exists subgroups, In (fst p, subgroups) nested /\ In (snd p, d) subgroups.
Proof.
  unfold entry_of.
  destruct (dict_get pyval_eqb nested (fst p)) as [S |] eqn:E;
    [| discriminate].
  intros H. exists S. split;
    apply (dict_get_In pyval_eqb pyval_eqb_eq); assumption.
Qed.

(** X2. Every aggregate row is represented in the output of
    [build_hierarchical_rows] by a child row that carries the measures of
    the last aggregate row of the same (group, sub group) pair; and every
    row of the output is either a group row or the child row of a pair
    with the measures of the last aggregate row of that pair.  No measure
    of an overwritten row is displayed. *)
Theorem child_rows_show_last_rows agg_rows period_list data :
  build_hierarchical_rows agg_rows period_list = Ok data ->
  (forall r, In r agg_rows ->
     exists r', last_row (row_pair r) agg_rows = Some r' /\
       In (child_row (row_sub_group r) (row_data period_list r')) data) /\
  (forall row, In row data ->
     (exists cg subgroups, group_row cg subgroups = Ok row) \/
     (exists r', In r' agg_rows /\
        last_row (row_pair r') agg_rows = Some r' /\
        row = child_row (row_sub_group r') (row_data period_list r'))).
Proof.
  unfold build_hierarchical_rows.
  destruct (mapM group_block (build_nested agg_rows period_list))
    as [blocks |] eqn:Hm; [| discriminate].
  cbn [bind]. intros [= <-].
  assert (Hinv : nested_inv (fun _ => True)
                   (build_nested agg_rows period_list)).
  { apply build_nested_inv. apply Forall_forall. auto. }
  split.
  - intros r Hr.
    destruct (last_row_some (row_pair r) agg_rows r Hr eq_refl) as [r' Hl].
    exists r'. split; [exact Hl |].
    pose proof (build_nested_entry agg_rows period_list (row_pair r)) as He.
    rewrite Hl in He. cbn [option_map] in He.
    apply In_entry_of in He as (S & H1 & H2).
    exact (In_blocks_concat _ _ _ _ _ _ Hm H1 H2).
  - intros row Hrow.
    destruct (In_concat_blocks _ _ _ Hm Hrow)
      as (cg & S & Hin & [Hg | (sg & d & Hsg & ->)]); [left; eauto | right].
    pose proof (entry_of_In _ _ _ _ _ Hinv Hin Hsg) as He.
    rewrite build_nested_entry in He.
    destruct (last_row (cg, sg) agg_rows) as [r' |] eqn:Hl; [| discriminate].
    cbn [option_map] in He. injection He as <-.
    unfold last_row in Hl. pose proof (find_some _ _ Hl) as [Hin' Hp].
    apply same_pair_spec in Hp. apply in_rev in Hin'.
    exists r'. rewrite Hp. refine (conj Hin' (conj Hl _)).
    injection Hp as _ ->. reflexivity.
Qed.

Lemma child_rows_show_last_rows_witness :
  exists data,
    build_hierarchical_rows
      [ [("customer_group", PStr "Retail"); ("custom_sub_group", PNone);
         ("total", PNum 5)];
        [("customer_group", PStr "Retail"); ("custom_sub_group", PStr "");
         ("total", PNum 7)] ] [] = Ok data /\
    In (child_row (PStr "(No Sub Group)")
          (row_data [] [("customer_group", PStr "Retail");
                        ("custom_sub_group", PStr ""); ("total", PNum 7)]))
       data.
Proof.
  eexists. split; [reflexivity |].
  destruct (child_rows_show_last_rows
              [ [("customer_group", PStr "Retail");
                 ("custom_sub_group", PNone); ("total", PNum 5)];
                [("customer_group", PStr "Retail");
                 ("custom_sub_group", PStr ""); ("total", PNum 7)] ] [] _
              eq_refl) as [H _].
  destruct (H [("customer_group", PStr "Retail");
               ("custom_sub_group", PNone); ("total", PNum 5)]
              (or_introl eq_refl)) as (r' & Hl & Hin).
  vm_compute in Hl. injection Hl as <-. exact Hin.
Defined.

(** ** The order of the display rows *)

Section Distinct.
Context {K : Type} (eqb : K -> K -> bool).
Hypothesis eqb_eq : forall a b, eqb a b = true <-> a = b.

(** The elements of a list, each at its first occurrence. *)
Fixpoint distinct (l : list K) : list K :=
  match l with
  | [] => []
  | x :: rest => x :: filter (fun y => negb (eqb x y)) (distinct rest)
  end.

(** The keys of a dictionary after [d[k] = ...]. *)
Definition add_key (ks : list K) (k : K) : list K :=
  if existsb (eqb k) ks then ks else (ks ++ [k])%list.

Lemma existsb_In k ks : existsb (eqb k) ks = true <-> In k ks.
Proof.
  rewrite existsb_exists. split.
  - intros (x & Hx & E). apply eqb_eq in E. subst. exact Hx.
  - intros H. exists k. split; [exact H | apply eqb_eq; reflexivity].
Qed.

Lemma dict_keys_add_key {V} (d : list (K * V)) k v :
  dict_keys (dict_set eqb d k v) = add_key (dict_keys d) k.
Proof.
  unfold add_key, dict_keys.
  induction d as [| [k0 v0] d IH]; cbn; [reflexivity |].
  destruct (eqb k0 k) eqn:E.
  - apply eqb_eq in E. subst k0. cbn.
    rewrite (eqb_refl_key eqb eqb_eq). reflexivity.
  - cbn. rewrite IH.
    assert (E' : eqb k k0 = false).
    { destruct (eqb k k0) eqn:E'; [| reflexivity].
      apply eqb_eq in E'. subst. rewrite (eqb_refl_key eqb eqb_eq) in E.
      discriminate. }
    rewrite E'. cbn. destruct (existsb (eqb k) (map fst d)); reflexivity.
Qed.

Lemma fold_add_key l : forall ks,
  fold_left add_key l ks =
  (ks ++ filter (fun k => negb (existsb (eqb k) ks)) (distinct l))%list.
Proof.
  induction l as [| x l IH]; intros ks; cbn [fold_left distinct filter].
  - rewrite app_nil_r. reflexivity.
  - rewrite IH. unfold add_key. destruct (existsb (eqb x) ks) eqn:E;
      cbn [negb].
    + f_equal. clear IH. induction (distinct l) as [| y d IHd]; [reflexivity |].
      cbn [filter]. destruct (eqb x y) eqn:Exy; cbn [negb].
      * apply eqb_eq in Exy. subst y. rewrite E. cbn [negb]. exact IHd.
      * cbn [filter]. destruct (existsb (eqb y) ks); cbn [negb];
          [exact IHd | rewrite IHd; reflexivity].
    + rewrite <- app_assoc. cbn [app]. do 2 f_equal. clear IH.
      induction (distinct l) as [| y d IHd]; [reflexivity |].
      cbn [filter]. rewrite existsb_app. cbn [existsb].
      rewrite orb_false_r.
      assert (Es : eqb y x = eqb x y).
      { destruct (eqb y x) eqn:E1, (eqb x y) eqn:E2; try reflexivity.
        - apply eqb_eq in E1. subst.
          rewrite (eqb_refl_key eqb eqb_eq) in E2. discriminate.
        - apply eqb_eq in E2. subst.
          rewrite (eqb_refl_key eqb eqb_eq) in E1. discriminate. }
      rewrite Es. destruct (eqb x y); cbn [negb].
      * rewrite orb_true_r. cbn [negb]. exact IHd.
      * rewrite orb_false_r. cbn [filter].
        destruct (existsb (eqb y) ks); cbn [negb]; rewrite IHd;
          reflexivity.
Qed.

Lemma fold_add_key_nil l : fold_left add_key l [] = distinct l.
Proof.
  rewrite fold_add_key. cbn [app existsb negb].
  induction (distinct l) as [| y d IH]; [reflexivity |].
  cbn [filter]. rewrite IH. reflexivity.
Qed.
End Distinct.

Lemma fold_nest_row_keys period_list l : forall nested,
  dict_keys (fold_left (nest_row period_list) l nested) =
  fold_left (add_key pyval_eqb) (map row_group l) (dict_keys nested).
Proof.
  induction l as [| r l IH]; intros nested; cbn [fold_left map];
    [reflexivity |].
  rewrite IH, nest_row_eq, (dict_keys_add_key pyval_eqb pyval_eqb_eq).
  reflexivity.
Qed.

Lemma subgroups_of_nest_row period_list nested r g :
  subgroups_of (nest_row period_list nested r) g =
  if pyval_eqb (row_group r) g
  then dict_set pyval_eqb (subgroups_of nested g) (row_sub_group r)
         (row_data period_list r)
  else subgroups_of nested g.
Proof.
  rewrite nest_row_eq. unfold subgroups_of at 1.
  rewrite (dict_get_set pyval_eqb pyval_eqb_eq).
  destruct (pyval_eqb (row_group r) g) eqn:E; [| reflexivity].
  apply pyval_eqb_eq in E. rewrite E. reflexivity.
Qed.

Lemma fold_nest_row_sub_keys period_list g l : forall nested,
  dict_keys (subgroups_of (fold_left (nest_row period_list) l nested) g) =
  fold_left (add_key pyval_eqb)
    (map row_sub_group (filter (fun r => pyval_eqb (row_group r) g) l))
    (dict_keys (subgroups_of nested g)).
Proof.
  induction l as [| r l IH]; intros nested; cbn [fold_left map filter];
    [reflexivity |].
  rewrite IH, subgroups_of_nest_row.
  destruct (pyval_eqb (row_group r) g); [| reflexivity].
  cbn [map fold_left].
  rewrite (dict_keys_add_key pyval_eqb pyval_eqb_eq). reflexivity.
Qed.

(** The groups in the order in which the aggregate rows first name them. *)
Definition groups_seen (agg_rows : list (sdict pyval)) : list pyval :=
  distinct pyval_eqb (map row_group agg_rows).

(** The sub groups of a group in the order in which the rows of the group
    first name them. *)
Definition sub_groups_seen (agg_rows : list (sdict pyval)) (g : pyval)
  : list pyval :=
  distinct pyval_eqb
    (map row_sub_group
       (filter (fun r => pyval_eqb (row_group r) g) agg_rows)).

Lemma build_nested_keys agg_rows period_list :
  map (fun e : pyval * list (pyval * sg_data) => (fst e, dict_keys (snd e)))
      (build_nested agg_rows period_list) =
  map (fun g => (g, sub_groups_seen agg_rows g)) (groups_seen agg_rows).
Proof.
  assert (Hk : dict_keys (build_nested agg_rows period_list) =
               groups_seen agg_rows).
  { unfold build_nested. rewrite fold_nest_row_keys.
    apply (fold_add_key_nil pyval_eqb pyval_eqb_eq). }
  assert (Hs : forall g,
            dict_keys (subgroups_of (build_nested agg_rows period_list) g) =
            sub_groups_seen agg_rows g).
  { intros g. unfold build_nested. rewrite fold_nest_row_sub_keys.
    apply (fold_add_key_nil pyval_eqb pyval_eqb_eq). }
  assert (Hnd : NoDup (dict_keys (build_nested agg_rows period_list))).
  { apply (build_nested_inv (fun _ => True)). apply Forall_forall. auto. }
  rewrite <- Hk. unfold dict_keys at 2. rewrite map_map.
  apply map_ext_in. intros [cg S] Hin. cbn [fst snd]. f_equal.
  rewrite <- Hs. unfold subgroups_of.
  rewrite (In_dict_get pyval_eqb pyval_eqb_eq _ _ _ Hnd Hin). reflexivity.
Qed.

(** The two label cells of a display row. *)
Definition label_cells (row : sdict pyval) : pyval * pyval :=
  (py_get row "customer_group", py_get row "custom_sub_group").

(** The label cells the display rows are to have: per group, in first-seen
    order, the group's name beside an empty sub group, then each of its sub
    groups, in first-seen order, beside an empty group. *)
Definition expected_labels (agg_rows : list (sdict pyval))
  : list (pyval * pyval) :=
  flat_map (fun g => (g, PStr "")
                     :: map (fun sg => (PStr "", sg))
                          (sub_groups_seen agg_rows g))
           (groups_seen agg_rows).

Lemma mapM_pairs_keys {A B} (f : A -> res B) ks : forall sums,
  mapM (fun k => v <- f k ;; Ok (k, v)) ks = Ok sums -> map fst sums = ks.
Proof.
  induction ks as [| k ks IH]; intros sums; cbn [mapM].
  - intros [= <-]. reflexivity.
  - destruct (f k) as [v |]; [| discriminate]. cbn [bind].
    destruct (mapM _ ks) as [rest |]; [| discriminate]. cbn [bind].
    intros [= <-]. cbn [map fst]. rewrite (IH rest eq_refl). reflexivity.
Qed.

Lemma group_row_get_other period_list cg subgroups g k :
  Forall (from_row period_list) (dict_values subgroups) ->
  ~ In k (map b_key period_list) ->
  group_row cg subgroups = Ok g ->
  exists group_total,
    py_get g k =
    py_get [("customer_group", cg); ("custom_sub_group", PStr "");
            ("total", group_total); ("indent", PNum 0)] k.
Proof.
  intros Hall Hk. unfold group_row.
  destruct (py_sum (map sg_total (dict_values subgroups))) as [gt |];
    [| discriminate].
  cbn [bind].
  destruct (mapM _ _) as [sums |] eqn:Es; [| discriminate].
  cbn [bind]. intros [= <-]. exists gt.
  apply mapM_pairs_keys in Es. unfold py_get.
  rewrite sget_set_items_notin; [reflexivity |]. rewrite Es.
  destruct (dict_values subgroups) as [| first rest]; [tauto |].
  inversion Hall as [| ? ? Hfirst _]; subst.
  destruct (from_row_keys _ _ Hfirst) as [-> _].
  rewrite bucket_keys_spec. exact Hk.
Qed.

Lemma group_block_labels period_list cg subgroups block :
  ~ In "customer_group" (map b_key period_list) ->
  ~ In "custom_sub_group" (map b_key period_list) ->
  Forall (from_row period_list) (dict_values subgroups) ->
  group_block (cg, subgroups) = Ok block ->
  map label_cells block =
  (cg, PStr "") :: map (fun sg => (PStr "", sg)) (dict_keys subgroups).
Proof.
  intros Hcg Hsg Hall. unfold group_block.
  destruct (group_row cg subgroups) as [g |] eqn:Eg; [| discriminate].
  cbn [bind]. intros [= <-]. cbn [map]. f_equal.
  - unfold label_cells.
    destruct (group_row_get_other _ _ _ _ _ Hall Hcg Eg) as [t1 ->].
    destruct (group_row_get_other _ _ _ _ _ Hall Hsg Eg) as [t2 ->].
    reflexivity.
  - unfold dict_keys. rewrite !map_map. unfold dict_values in Hall.
    clear Eg. induction subgroups as [| [sg d] S IH]; [reflexivity |].
    inversion Hall as [| ? ? Hd HS]; subst. cbn [map fst snd].
    rewrite (IH HS). f_equal. unfold label_cells.
    destruct (from_row_keys _ _ Hd) as [Hkeys _].
    rewrite (child_row_get_other sg d "customer_group")
      by (rewrite Hkeys, bucket_keys_spec; assumption).
    rewrite (child_row_get_other sg d "custom_sub_group")
      by (rewrite Hkeys, bucket_keys_spec; assumption).
    reflexivity.
Qed.

Lemma display_rows_labels agg_rows period_list data :
  ~ In "customer_group" (map b_key period_list) ->
  ~ In "custom_sub_group" (map b_key period_list) ->
  build_hierarchical_rows agg_rows period_list = Ok data ->
  map label_cells data = expected_labels agg_rows.
Proof.
  intros Hcg Hsg. unfold build_hierarchical_rows, expected_labels.
  destruct (mapM group_block (build_nested agg_rows period_list))
    as [blocks |] eqn:Hm; [| discriminate].
  cbn [bind]. intros [= <-].
  rewrite flat_map_concat_map, concat_map.
  pose proof (build_nested_keys agg_rows period_list) as Hkeys.
  pose proof (build_nested_ok agg_rows period_list) as [_ Hok].
  apply mapM_Forall2 in Hm. f_equal.
  transitivity
    (map (fun e : pyval * list pyval =>
            (fst e, PStr "") :: map (fun sg => (PStr "", sg)) (snd e))
         (map (fun e : pyval * list (pyval * sg_data) =>
                 (fst e, dict_keys (snd e)))
              (build_nested agg_rows period_list))).
  - clear Hkeys. unfold dict_values in Hok.
    induction Hm as [| [cg S] b l bs He _ IH]; [reflexivity |].
    inversion Hok as [| ? ? (_ & _ & HS) Hl]; subst. cbn [map fst snd].
    rewrite (IH Hl).
    rewrite (group_block_labels _ _ _ _ Hcg Hsg HS He). reflexivity.
  - rewrite Hkeys, map_map. reflexivity.
Qed.

(** X3. When no bucket key is one of the two label fieldnames (the
    bucketer makes no such key), the display rows come group by group in
    the order in which the aggregate rows first name the groups: one group
    row with the group's name and an empty sub group, followed by one child
    row per sub group of the group, in the order in which the rows of the
    group first name them, each with an empty group name. *)
Theorem build_hierarchical_rows_order agg_rows period_list data :
  ~ In "customer_group" (map b_key period_list) ->
  ~ In "custom_sub_group" (map b_key period_list) ->
  build_hierarchical_rows agg_rows period_list = Ok data ->
  map label_cells data = expected_labels agg_rows.
Proof. exact (display_rows_labels agg_rows period_list data). Qed.

Lemma build_hierarchical_rows_order_witness :
  exists data,
    build_hierarchical_rows
      [ [("customer_group", PStr "B"); ("custom_sub_group", PStr "x");
         ("total", PNum 1)];
        [("customer_group", PStr "A"); ("custom_sub_group", PStr "y");
         ("total", PNum 2)];
        [("customer_group", PStr "B"); ("custom_sub_group", PStr "z");
         ("total", PNum 3)];
        [("customer_group", PStr "A"); ("custom_sub_group", PStr "y");
         ("total", PNum 4)] ] [] = Ok data /\
    map label_cells data =
    [ (PStr "B", PStr ""); (PStr "", PStr "x"); (PStr "", PStr "z");
      (PStr "A", PStr ""); (PStr "", PStr "y") ].
Proof.
  eexists. split; [reflexivity |].
  refine (build_hierarchical_rows_order
            [ [("customer_group", PStr "B"); ("custom_sub_group", PStr "x");
               ("total", PNum 1)];
              [("customer_group", PStr "A"); ("custom_sub_group", PStr "y");
               ("total", PNum 2)];
              [("customer_group", PStr "B"); ("custom_sub_group", PStr "z");
               ("total", PNum 3)];
              [("customer_group", PStr "A"); ("custom_sub_group", PStr "y");
               ("total", PNum 4)] ] [] _ _ _ eq_refl); cbn; tauto.
Defined.

(** ** NULL measures *)

Definition is_none (v : pyval) : bool :=
  match v with PNone => true | _ => false end.

(** The cells that [get_aggregated_rows] looks at after the query. *)
Definition measure_key (period_list : list bucket) (k : string) : bool :=
  existsb (String.eqb k) (map b_key period_list) || String.eqb k "total".

Lemma normalize_fold_get period_list k : forall r : sdict pyval,
  py_get (fold_left (fun r p => match py_get r (b_key p) with
                                | PNone => sset r (b_key p) (PNum 0)
                                | _ => r
                                end) period_list r) k =
  if is_none (py_get r k) && existsb (String.eqb k) (map b_key period_list)
  then PNum 0 else py_get r k.
Proof.
  induction period_list as [| p l IH]; intros r; cbn [fold_left map existsb].
  - rewrite andb_false_r. reflexivity.
  - rewrite IH. clear IH. rewrite (String.eqb_sym k (b_key p)).
    destruct (String.eqb_spec (b_key p) k) as [E | E]; cbn [orb].
    + rewrite E. destruct (py_get r k) eqn:G; cbn [is_none andb];
        try (rewrite G; reflexivity).
      unfold py_get at 1 2. rewrite sget_sset, String.eqb_refl.
      reflexivity.
    + assert (G : py_get (match py_get r (b_key p) with
                          | PNone => sset r (b_key p) (PNum 0)
                          | _ => r
                          end) k = py_get r k).
      { destruct (py_get r (b_key p)); try reflexivity.
        unfold py_get. rewrite sget_sset.
        destruct (String.eqb_spec (b_key p) k); [contradiction |].
        reflexivity. }
      rewrite G. reflexivity.
Qed.

Lemma normalize_row_get period_list r k :
  py_get (normalize_row period_list r) k =
  if is_none (py_get r k) && measure_key period_list k
  then PNum 0 else py_get r k.
Proof.
  unfold normalize_row, measure_key.
  set (r1 := fold_left _ period_list r).
  assert (H1 : forall k', py_get r1 k' =
            if is_none (py_get r k') &&
               existsb (String.eqb k') (map b_key period_list)
            then PNum 0 else py_get r k')
    by (intros k'; apply normalize_fold_get).
  assert (H2 : py_get (match py_get r1 "total" with
                       | PNone => sset r1 "total" (PNum 0)
                       | _ => r1
                       end) k =
               if is_none (py_get r1 k) && String.eqb k "total"
               then PNum 0 else py_get r1 k).
  { rewrite (String.eqb_sym k "total").
    destruct (String.eqb_spec "total" k) as [<- | E].
    - destruct (py_get r1 "total") eqn:G; cbn [is_none andb];
        try (rewrite G; reflexivity).
      unfold py_get. rewrite sget_sset. reflexivity.
    - rewrite andb_false_r. destruct (py_get r1 "total"); try reflexivity.
      unfold py_get. rewrite sget_sset.
      destruct (String.eqb_spec "total" k); [contradiction | reflexivity]. }
  rewrite H2, H1.
  destruct (py_get r k); cbn [is_none andb orb]; try reflexivity.
  destruct (existsb _ _); cbn [is_none andb orb]; [reflexivity |].
  destruct (String.eqb k "total"); reflexivity.
Qed.

Lemma normalize_fold_fixed period_list : forall r : sdict pyval,
  (forall p, In p period_list -> py_get r (b_key p) <> PNone) ->
  fold_left (fun r p => match py_get r (b_key p) with
                        | PNone => sset r (b_key p) (PNum 0)
                        | _ => r
                        end) period_list r = r.
Proof.
  induction period_list as [| p l IH]; intros r H; cbn [fold_left];
    [reflexivity |].
  assert (Hp : py_get r (b_key p) <> PNone) by (apply H; left; reflexivity).
  destruct (py_get r (b_key p)); try contradiction;
    apply IH; intros q Hq; apply H; right; exact Hq.
Qed.

(** X4. The pass over the database rows at the end of
    [get_aggregated_rows] turns exactly the NULL (or absent) cells under a
    bucket key or "total" into 0 and leaves every other cell as it was;
    afterwards no bucket cell and no total is None, and a second pass
    changes nothing. *)
Theorem normalize_row_spec period_list r :
  (forall k, py_get (normalize_row period_list r) k =
             if is_none (py_get r k) && measure_key period_list k
             then PNum 0 else py_get r k) /\
  (forall p, In p period_list ->
             py_get (normalize_row period_list r) (b_key p) <> PNone) /\
  py_get (normalize_row period_list r) "total" <> PNone /\
  normalize_row period_list (normalize_row period_list r) =
  normalize_row period_list r.
Proof.
  assert (Hm : forall k, measure_key period_list k = true ->
                         py_get (normalize_row period_list r) k <> PNone).
  { intros k Hk. rewrite normalize_row_get, Hk, andb_true_r.
    destruct (py_get r k); cbn [is_none]; discriminate. }
  assert (Hp : forall p, In p period_list ->
                         py_get (normalize_row period_list r) (b_key p)
                         <> PNone).
  { intros p Hin. apply Hm. unfold measure_key. apply orb_true_iff. left.
    apply existsb_exists. exists (b_key p). split;
      [apply in_map; exact Hin | apply String.eqb_refl]. }
  assert (Ht : py_get (normalize_row period_list r) "total" <> PNone).
  { apply Hm. unfold measure_key. apply orb_true_iff. right. reflexivity. }
  refine (conj (normalize_row_get period_list r) (conj Hp (conj Ht _))).
  unfold normalize_row at 1.
  rewrite (normalize_fold_fixed period_list _ Hp).
  destruct (py_get (normalize_row period_list r) "total"); try reflexivity.
  contradiction.
Qed.

(** A database row whose measures are numbers or NULL. *)
Definition measures_ok (period_list : list bucket) (r : sdict pyval) : Prop :=
  forall k, measure_key period_list k = true ->
            py_get r k = PNone \/ is_num (py_get r k) = true.

Lemma normalize_row_numeric period_list r :
  measures_ok period_list r ->
  numeric_row period_list (normalize_row period_list r).
Proof.
  intros Hok.
  assert (Hm : forall k, measure_key period_list k = true ->
            is_num (py_get_default (normalize_row period_list r) k (PNum 0))
            = true).
  { intros k Hk.
    assert (G : exists z, py_get (normalize_row period_list r) k = PNum z).
    { rewrite normalize_row_get, Hk, andb_true_r.
      destruct (Hok k Hk) as [-> | H]; [cbn; eauto |].
      destruct (py_get r k); try discriminate. cbn. eauto. }
    destruct G as [z G]. rewrite (py_get_default_of_get _ _ _ _ G).
    reflexivity. }
  split.
  - apply Hm. unfold measure_key. apply orb_true_iff. right. reflexivity.
  - apply Forall_forall. intros p Hp. apply Hm. unfold measure_key.
    apply orb_true_iff. left. apply existsb_exists. exists (b_key p).
    split; [apply in_map; exact Hp | apply String.eqb_refl].
Qed.

Lemma build_hierarchical_rows_returns agg_rows period_list :
  Forall (numeric_row period_list) agg_rows ->
  exists data, build_hierarchical_rows agg_rows period_list = Ok data.
Proof.
  intros Hnum. unfold build_hierarchical_rows.
  assert (Hinv : nested_inv numeric_data
                   (build_nested agg_rows period_list)).
  { apply build_nested_inv. eapply Forall_impl; [| exact Hnum].
    intros r. apply row_data_numeric. }
  destruct (mapM_returns group_block (build_nested agg_rows period_list))
    as [blocks ->]; [| cbn; eauto].
  intros [cg subgroups] Hin. apply group_block_returns.
  destruct Hinv as [_ Hall]. rewrite Forall_forall in Hall.
  apply (Hall subgroups). unfold dict_values. apply in_map_iff.
  exists (cg, subgroups). auto.
Qed.

Lemma get_chart_data_returns filters columns agg_rows period_list data :
  Forall (numeric_row period_list) agg_rows ->
  build_hierarchical_rows agg_rows period_list = Ok data ->
  exists chart, get_chart_data filters columns data period_list = Ok chart.
Proof.
  intros Hnum Hb. unfold build_hierarchical_rows in Hb.
  destruct (mapM group_block (build_nested agg_rows period_list))
    as [blocks |] eqn:Em; [| discriminate].
  cbn [bind] in Hb. injection Hb as <-.
  assert (Hinv : Forall (fun S : list (pyval * sg_data) =>
              S <> [] /\ Forall (from_row period_list) (dict_values S) /\
              Forall numeric_data (dict_values S))
            (dict_values (build_nested agg_rows period_list))).
  { assert (H : nested_inv (fun d => from_row period_list d /\
                                     numeric_data d)
                  (build_nested agg_rows period_list)).
    { apply build_nested_inv. eapply Forall_impl; [| exact Hnum].
      intros r Hr. split; [exists r; reflexivity |].
      apply row_data_numeric. exact Hr. }
    destruct H as [_ H]. eapply Forall_impl; [| exact H].
    intros S (H1 & _ & H3). split; [exact H1 |].
    split; eapply Forall_impl; try exact H3; cbn; tauto. }
  unfold get_chart_data.
  match goal with
  | |- context [mapM ?f ?l] => destruct (mapM_returns f l) as [totals ->]
  end; [| cbn; eauto].
  intros k Hk. apply in_map_iff in Hk as (p & <- & Hp).
  assert (Hkb : In (b_key p) (bucket_keys period_list))
    by (apply bucket_keys_spec, in_map; exact Hp).
  destruct (blocks_column _ _ Hkb _ _ Hinv Em) as [Hn _].
  rewrite py_sum_num; [eauto |].
  apply Forall_forall. intros v Hv.
  apply in_map_iff in Hv as (row & <- & Hrow).
  rewrite Forall_forall in Hn. auto.
Qed.

(** ** A whole run of report 2 *)

Lemma strftime_key_length d : String.length (strftime_key d) = 8%nat.
Proof.
  unfold strftime_key, year4.
  pose proof (month_abbr_cases (month d)) as H. cbn [In] in H.
  repeat (destruct H as [<- | H]; [reflexivity |]). contradiction.
Qed.

(** What the database is taken to answer: rows in which every cell other
    than the two labels is a number or NULL. *)
Definition db_measures (db_sql : string -> sdict pyval -> list (sdict pyval))
  : Prop :=
  forall sql params r k,
    In r (db_sql sql params) ->
    k <> "customer_group" -> k <> "custom_sub_group" ->
    py_get r k = PNone \/ is_num (py_get r k) = true.

Lemma measure_key_not_label period_list k :
  Forall formatted_from_start period_list ->
  measure_key period_list k = true ->
  k <> "customer_group" /\ k <> "custom_sub_group".
Proof.
  intros Hfmt Hk. unfold measure_key in Hk. apply orb_true_iff in Hk.
  destruct Hk as [Hk | Hk].
  - apply existsb_exists in Hk as (x & Hx & E). apply String.eqb_eq in E.
    subst x. apply in_map_iff in Hx as (p & <- & Hp).
    rewrite Forall_forall in Hfmt. destruct (Hfmt p Hp) as (Hkey & _).
    pose proof (strftime_key_length (b_from_date p)) as Hlen.
    rewrite <- Hkey in Hlen.
    split; intros E; rewrite E in Hlen; discriminate.
  - apply String.eqb_eq in Hk. subst k. split; discriminate.
Qed.

Lemma validate_filters_returns filters f t :
  sget filters "from_date" = Some (PDate f) ->
  sget filters "to_date" = Some (PDate t) ->
  date_leb f t = true ->
  (forall v, sget filters "period" = Some v -> In v period_options) ->
  validate_filters filters = Ok tt.
Proof.
  intros H1 H2 Hle Hp.
  destruct (validate_filters_cases filters) as [[Hi _] | [_ Hok]];
    [| exfalso | exact Hok].
  - split; intros v Hv; [rewrite H1 in Hv | rewrite H2 in Hv];
      injection Hv as <-; eauto.
  - destruct Hi as [H | [H | [(f' & t' & Hf & Ht & Hlt) | (v & Hv & Hn)]]];
      try congruence.
    + rewrite H1 in Hf. rewrite H2 in Ht. injection Hf as <-.
      injection Ht as <-. apply date_ltb_false in Hle. congruence.
    + apply Hn, Hp, Hv.
Qed.



(** ** The placeholders of the buckets *)

Lemma string_of_Z_inj a b : string_of_Z a = string_of_Z b -> a = b.
Proof.
  unfold string_of_Z. intros H. apply DecimalZ.to_int_inj.
  assert (R : forall n, NilZero.int_of_string
                          (NilZero.string_of_int (Z.to_int n)) =
                        Some (Z.to_int n)).
  { intros n. apply NilZero.isi; destruct n; cbn; try discriminate;
      intros [= E]; exact (DecimalPos.Unsigned.to_uint_nonnil _ E). }
  pose proof (f_equal NilZero.int_of_string H) as E.
  rewrite !R in E. injection E as E. exact E.
Qed.

Lemma index_text_inj i j : index_text i = index_text j -> i = j.
Proof.
  unfold index_text. intros H. apply Nat2Z.inj, string_of_Z_inj. exact H.
Qed.

Lemma fold_period_params_other l : forall base params name,
  (forall j, (base <= j)%nat ->
             name <> "p_from_" ++ index_text j /\
             name <> "p_to_" ++ index_text j) ->
  sget (fold_left add_period_params (enumerate_from base l) params) name =
  sget params name.
Proof.
  induction l as [| p l IH]; intros base params name H;
    cbn [enumerate_from fold_left]; [reflexivity |].
  rewrite IH by (intros j Hj; apply H; lia).
  unfold add_period_params. rewrite !sget_sset.
  destruct (H base (Nat.le_refl _)) as [H1 H2].
  destruct (String.eqb_spec ("p_to_" ++ index_text base) name);
    [congruence |].
  destruct (String.eqb_spec ("p_from_" ++ index_text base) name);
    [congruence | reflexivity].
Qed.

Lemma fold_period_params_get l : forall base params i p,
  nth_error l i = Some p ->
  sget (fold_left add_period_params (enumerate_from base l) params)
       ("p_from_" ++ index_text (base + i)) = Some (PDate (b_from_date p)) /\
  sget (fold_left add_period_params (enumerate_from base l) params)
       ("p_to_" ++ index_text (base + i)) = Some (PDate (b_to_date p)).
Proof.
  induction l as [| x l IH]; intros base params i p Hi;
    [destruct i; discriminate |].
  destruct i as [| i]; cbn [nth_error] in Hi.
  - injection Hi as ->. rewrite Nat.add_0_r. cbn [enumerate_from fold_left].
    assert (Hne : forall j, (S base <= j)%nat ->
                            index_text base <> index_text j).
    { intros j Hj E. apply index_text_inj in E. lia. }
    rewrite !fold_period_params_other.
    + unfold add_period_params. rewrite !sget_sset.
      rewrite !String.eqb_refl. split; reflexivity.
    + intros j Hj. split; [discriminate |].
      intros E. cbn in E. injection E as E. exact (Hne j Hj E).
    + intros j Hj. split; [| discriminate].
      intros E. cbn in E. injection E as E. exact (Hne j Hj E).
  - cbn [enumerate_from fold_left].
    replace (base + S i)%nat with (S base + i)%nat by lia.
    apply IH. exact Hi.
Qed.

Lemma In_enumerate_from {A} (l : list A) : forall base i x,
  nth_error l i = Some x -> In ((base + i)%nat, x) (enumerate_from base l).
Proof.
  induction l as [| y l IH]; intros base i x Hi; [destruct i; discriminate |].
  destruct i as [| i]; cbn [nth_error] in Hi; cbn [enumerate_from].
  - injection Hi as ->. left. rewrite Nat.add_0_r. reflexivity.
  - right. replace (base + S i)%nat with (S base + i)%nat by lia.
    apply IH. exact Hi.
Qed.

Lemma contains_join sep parts x :
  In x parts -> contains x (join sep parts) = true.
Proof.
  induction parts as [| y parts IH]; [contradiction |].
  intros [-> | Hin].
  - destruct parts as [| z parts]; cbn [join].
    + apply contains_spec. exists "", "". cbn.
      rewrite string_app_nil_r. reflexivity.
    + apply contains_spec. exists "". eexists. cbn. reflexivity.
  - destruct parts as [| z parts]; [contradiction |].
    change (join sep (y :: z :: parts))
      with (y ++ sep ++ join sep (z :: parts)).
    apply contains_app_r, contains_app_r, IH. exact Hin.
Qed.

(** X6. In the query that [get_aggregated_rows] builds, the bucket at
    index [i] has its own column: the SQL text holds the conditional sum
    between the placeholders [p_from_i] and [p_to_i], named by the bucket's
    key, and the parameters bind exactly these two placeholders to the
    bucket's first and last day.  No other bucket or filter takes these
    parameter names. *)
Theorem period_columns_bound filters period_list q i p :
  get_aggregated_query filters period_list = Ok q ->
  nth_error period_list i = Some p ->
  sget (q_params q) ("p_from_" ++ index_text i) =
    Some (PDate (b_from_date p)) /\
  sget (q_params q) ("p_to_" ++ index_text i) = Some (PDate (b_to_date p)) /\
  contains
    (period_sql_part
       (value_expr_of (py_get_default filters "value_quantity" (PStr "Value")))
       i p)
    (q_sql q) = true.
Proof.
  unfold get_aggregated_query.
  destruct (py_item filters "from_date"); [| discriminate].
  destruct (py_item filters "to_date"); [| discriminate].
  cbn [bind]. destruct (add_optionals _ _) as [conditions params].
  intros [= <-] Hi. cbn [q_params q_sql].
  destruct (fold_period_params_get period_list 0 params i p Hi) as [H1 H2].
  refine (conj H1 (conj H2 _)).
  unfold sql_text. apply contains_app_r, contains_app_l, contains_join.
  apply in_map_iff. exists (i, p). split; [reflexivity |].
  exact (In_enumerate_from period_list 0 i p Hi).
Qed.

Lemma period_columns_bound_witness :
  exists q,
    get_aggregated_query
      [("from_date", PDate (mkdate 2025 1 15));
       ("to_date", PDate (mkdate 2025 12 31))] quarterly_2025 = Ok q /\
    sget (q_params q) "p_from_2" = Some (PDate (mkdate 2025 7 15)) /\
    sget (q_params q) "p_to_2" = Some (PDate (mkdate 2025 10 14)) /\
    contains
      "SUM(CASE WHEN si.posting_date BETWEEN %(p_from_2)s AND %(p_to_2)s THEN si_item.amount ELSE 0 END) AS `Jul_2025`"
      (q_sql q) = true.
Proof.
  eexists. split; [reflexivity |].
  exact (period_columns_bound
           [("from_date", PDate (mkdate 2025 1 15));
            ("to_date", PDate (mkdate 2025 12 31))] quarterly_2025 _ 2
           (mkbucket "Jul_2025" "Jul 2025" (mkdate 2025 7 15)
              (mkdate 2025 10 14)) eq_refl eq_refl).
Defined.

(** ** The cells of the display rows *)

(** The fieldnames of a list of columns. *)
Definition fieldnames (columns : list (sdict pyval)) : list pyval :=
  map (fun c => py_get c "fieldname") columns.

Lemma get_columns_fieldnames period_list :
  fieldnames (get_columns period_list) =
  (PStr "customer_group" :: PStr "custom_sub_group" ::
   map (fun p => PStr (b_key p)) period_list ++ [PStr "total"])%list.
Proof.
  unfold fieldnames, get_columns. rewrite !map_app, map_map. reflexivity.
Qed.

Lemma In_keys_sget {V} (d : sdict V) k :
  In k (dict_keys d) <-> sget d k <> None.
Proof.
  pose proof (dict_get_None String.eqb String.eqb_eq d k) as H.
  fold (sget d k) in H.
  destruct (in_dec string_dec k (dict_keys d)) as [Hin | Hn].
  - split; [| tauto]. intros _ E. apply H in E. contradiction.
  - split; [contradiction |]. intros E. exfalso. apply E, H, Hn.
Qed.

Lemma set_items_keys (row : sdict pyval) items k :
  In k (dict_keys (set_items row items)) <->
  In k (dict_keys row) \/ In k (map fst items).
Proof.
  rewrite !In_keys_sget, sget_set_items.
  assert (Hi : In k (map fst items) <-> sget (rev items) k <> None).
  { rewrite <- In_keys_sget. unfold dict_keys. rewrite map_rev.
    apply in_rev. }
  rewrite Hi. destruct (sget (rev items) k); [| tauto].
  split; [right |]; discriminate.
Qed.

(** The keys of a row with the four fixed cells and one cell per bucket. *)
Lemma display_row_keys period_list (a b c d : pyval) items k :
  (forall x, In x (map fst items) <-> In x (map b_key period_list)) ->
  In k (dict_keys (set_items [("customer_group", a); ("custom_sub_group", b);
                              ("total", c); ("indent", d)] items)) <->
  k = "indent" \/ In (PStr k) (fieldnames (get_columns period_list)).
Proof.
  intros Hitems. rewrite set_items_keys, Hitems, get_columns_fieldnames.
  assert (Hp : In (PStr k) (map (fun p => PStr (b_key p)) period_list) <->
               In k (map b_key period_list)).
  { rewrite !in_map_iff. split; intros (p & E & Hin); exists p;
      (split; [congruence | exact Hin]). }
  cbn [dict_keys map fst In]. rewrite in_app_iff, Hp. cbn [In].
  assert (Hs : forall x : string, PStr x = PStr k <-> x = k)
    by (intros x; split; congruence).
  rewrite !Hs. intuition congruence.
Qed.

(** X7. Columns and display rows of report 2 agree: every row that
    [build_hierarchical_rows] returns has a cell for the fieldname of every
    column of [get_columns] (the two labels, every bucket key, the total),
    and apart from these it has only the cell "indent". *)
Theorem display_rows_cells agg_rows period_list data :
  build_hierarchical_rows agg_rows period_list = Ok data ->
  forall row, In row data ->
  forall k, In k (dict_keys row) <->
            k = "indent" \/
            In (PStr k) (fieldnames (get_columns period_list)).
Proof.
  unfold build_hierarchical_rows.
  destruct (mapM group_block (build_nested agg_rows period_list))
    as [blocks |] eqn:Hm; [| discriminate].
  cbn [bind]. intros [= <-] row Hrow k.
  pose proof (build_nested_ok agg_rows period_list) as [_ Hok].
  destruct (In_concat_blocks _ _ _ Hm Hrow)
    as (cg & S & Hin & Hcase).
  rewrite Forall_forall in Hok.
  assert (HS : S <> [] /\ Forall (from_row period_list) (dict_values S)).
  { destruct (Hok S) as (H1 & _ & H3); [| auto]. unfold dict_values.
    apply in_map_iff. exists (cg, S). auto. }
  destruct HS as [Hne Hfrom].
  destruct Hcase as [Hg | (sg & d & Hsg & ->)].
  - revert Hg. clear Hm. unfold group_row.
    destruct (py_sum (map sg_total (dict_values S))) as [gt |];
      [| discriminate].
    cbn [bind].
    destruct (mapM _ _) as [sums |] eqn:Es; [| discriminate].
    cbn [bind]. intros [= <-].
    apply mapM_pairs_keys in Es. apply display_row_keys. intros x.
    rewrite Es. destruct (dict_values S) as [| first rest] eqn:Ev.
    { destruct S; [congruence | discriminate]. }
    inversion Hfrom as [| ? ? Hfirst _]; subst.
    destruct (from_row_keys _ _ Hfirst) as [-> _]. apply bucket_keys_spec.
  - unfold child_row. apply display_row_keys. intros x.
    assert (Hd : from_row period_list d).
    { rewrite Forall_forall in Hfrom. apply Hfrom. unfold dict_values.
      apply in_map_iff. exists (sg, d). auto. }
    destruct (from_row_keys _ _ Hd) as [Hk _].
    change (map fst (sg_periods d)) with (dict_keys (sg_periods d)).
    rewrite Hk. apply bucket_keys_spec.
Qed.

Lemma display_rows_cells_witness :
  exists data,
    build_hierarchical_rows
      [ [("customer_group", PStr "A"); ("custom_sub_group", PStr "x");
         ("total", PNum 3)] ]
      [mkbucket "Jan_2025" "Jan 2025" (mkdate 2025 1 1) (mkdate 2025 1 31)]
    = Ok data /\
    forall row, In row data -> In "Jan_2025" (dict_keys row).
Proof.
  eexists. split; [reflexivity |]. intros row Hrow.
  apply (display_rows_cells
           [ [("customer_group", PStr "A"); ("custom_sub_group", PStr "x");
              ("total", PNum 3)] ]
           [mkbucket "Jan_2025" "Jan 2025" (mkdate 2025 1 1)
              (mkdate 2025 1 31)] _ eq_refl row Hrow "Jan_2025").
  right. cbn. tauto.
Defined.

(** ** The buckets partition the range *)

(** [b["from_date"] <= d <= b["to_date"]], the test of the SQL [BETWEEN]. *)
Definition in_bucket (d : date) (b : bucket) : bool :=
  date_leb (b_from_date b) d && date_leb d (b_to_date b).

Definition well_formed_bucket (b : bucket) : Prop :=
  valid_date (b_from_date b) = true /\ valid_date (b_to_date b) = true /\
  date_leb (b_from_date b) (b_to_date b) = true.

(** No day lies between a day and the next one. *)
Lemma add_one_day_next e d x :
  valid_date e = true -> valid_date x = true ->
  add_one_day e = Ok d -> date_ltb e x = true -> date_leb d x = true.
Proof.
  rewrite !valid_date_spec, date_ltb_spec, date_leb_spec.
  unfold add_one_day, MINYEAR, MAXYEAR.
  destruct e as [y m dd], x as [yx mx dx]; cbn [year month day].
  intros He Hx.
  destruct (Z.ltb_spec dd (days_in_month y m)).
  { intros [= <-]. cbn [year month day]. lia. }
  destruct (Z.ltb_spec m 12).
  { intros [= <-]. cbn [year month day].
    intros [Hy | [Hy [Hm | [Hm Hd]]]]; subst; lia. }
  destruct (Z.ltb_spec y 9999); [| discriminate].
  intros [= <-]. cbn [year month day].
  intros [Hy | [Hy [Hm | [Hm Hd]]]]; subst; lia.
Qed.

Lemma date_leb_trans a b c :
  date_leb a b = true -> date_leb b c = true -> date_leb a c = true.
Proof. rewrite !date_leb_spec. lia. Qed.

Lemma date_leb_total a b : date_leb a b = false -> date_ltb b a = true.
Proof.
  unfold date_leb. rewrite negb_false_iff. tauto.
Qed.

(** A day before the first bucket is in no bucket. *)
Lemma none_before d : forall l,
  contiguous l -> Forall well_formed_bucket l ->
  match l with
  | b :: _ => date_ltb d (b_from_date b) = true
  | [] => True
  end ->
  filter (in_bucket d) l = [].
Proof.
  induction l as [| b1 l IH]; intros Hc Hw Hd; [reflexivity |].
  inversion Hw as [| ? ? (_ & _ & Hb1) Hw']; subst. cbn [filter].
  assert (E : in_bucket d b1 = false).
  { unfold in_bucket, date_leb. rewrite Hd. reflexivity. }
  rewrite E. apply IH; [| exact Hw' |].
  - destruct l as [| b2 l]; [exact I |]. cbn [contiguous] in Hc. tauto.
  - destruct l as [| b2 l]; [exact I |]. cbn [contiguous] in Hc.
    destruct Hc as (Hlt & _).
    apply (date_ltb_leb_trans _ _ _ Hd) in Hb1.
    revert Hb1 Hlt. rewrite !date_ltb_spec. lia.
Qed.

(** The last bucket of the list ends on [t]. *)
Fixpoint ends_at (t : date) (l : list bucket) : Prop :=
  match l with
  | [] => False
  | [b] => b_to_date b = t
  | _ :: rest => ends_at t rest
  end.

Lemma ends_at_snoc front b : ends_at (b_to_date b) (front ++ [b]).
Proof.
  induction front as [| x front IH]; [reflexivity |].
  cbn [app]. destruct (front ++ [b])%list eqn:E; [| exact IH].
  destruct front; discriminate.
Qed.

Lemma to_le_end t : forall l,
  contiguous l -> Forall well_formed_bucket l -> ends_at t l ->
  Forall (fun b => date_leb (b_to_date b) t = true) l.
Proof.
  induction l as [| b1 l IH]; intros Hc Hw He; [constructor |].
  inversion Hw as [| ? ? _ Hw']; subst.
  destruct l as [| b2 l].
  - cbn in He. subst t. constructor; [apply date_leb_refl | constructor].
  - cbn [contiguous] in Hc. destruct Hc as (Hlt & _ & _ & Hc).
    specialize (IH Hc Hw' He). constructor; [| exact IH].
    inversion IH as [| ? ? Hb2 _]; subst.
    inversion Hw' as [| ? ? (_ & _ & Hw2) _]; subst.
    apply date_ltb_leb in Hlt.
    exact (date_leb_trans _ _ _ Hlt (date_leb_trans _ _ _ Hw2 Hb2)).
Qed.

Lemma none_after d t l :
  Forall (fun b => date_leb (b_to_date b) t = true) l ->
  date_ltb t d = true ->
  filter (in_bucket d) l = [].
Proof.
  intros Hl Hd. induction Hl as [| b l Hb _ IH]; [reflexivity |].
  cbn [filter]. assert (E : in_bucket d b = false).
  { unfold in_bucket. apply andb_false_iff. right.
    destruct (date_leb d (b_to_date b)) eqn:E; [| reflexivity].
    pose proof (date_leb_ltb_trans _ _ _ (date_leb_trans _ _ _ E Hb) Hd) as H.
    rewrite date_ltb_irrefl in H. discriminate. }
  rewrite E. exact IH.
Qed.

Lemma one_bucket d t : forall l,
  contiguous l -> Forall well_formed_bucket l -> ends_at t l ->
  valid_date d = true ->
  match l with
  | b :: _ => date_leb (b_from_date b) d = true
  | [] => False
  end ->
  date_leb d t = true ->
  List.length (filter (in_bucket d) l) = 1%nat.
Proof.
  induction l as [| b1 l IH]; intros Hc Hw He Hv Hs Ht; [contradiction |].
  inversion Hw as [| ? ? (_ & Hv1 & _) Hw']; subst.
  destruct l as [| b2 l].
  - cbn in He. subst t. cbn [filter]. unfold in_bucket. rewrite Hs, Ht.
    reflexivity.
  - cbn [contiguous] in Hc. destruct Hc as (Hlt & Hnext & _ & Hc).
    change (filter (in_bucket d) (b1 :: b2 :: l))
      with (if in_bucket d b1 then b1 :: filter (in_bucket d) (b2 :: l)
            else filter (in_bucket d) (b2 :: l)).
    unfold in_bucket at 1. rewrite Hs. cbn [andb].
    destruct (date_leb d (b_to_date b1)) eqn:E.
    + rewrite (none_before d (b2 :: l) Hc Hw'); [reflexivity |].
      exact (date_leb_ltb_trans _ _ _ E Hlt).
    + apply IH; try assumption.
      apply date_leb_total in E.
      exact (add_one_day_next _ _ _ Hv1 Hv Hnext E).
Qed.

(** X8. The buckets that [get_period_date_ranges] returns for a range
    [from_date <= to_date] partition the range: every day from [from_date]
    to [to_date] lies in exactly one bucket (between its first and last
    day, both included), and a day outside the range lies in none.  A sales
    invoice of the range is therefore counted in one period column and only
    one. *)
Theorem buckets_partition_range period from_date to_date l d :
  valid_date from_date = true -> valid_date to_date = true ->
  date_leb from_date to_date = true ->
  get_period_date_ranges period (PDate from_date) (PDate to_date) = Ok l ->
  valid_date d = true ->
  List.length (filter (in_bucket d) l) =
  if date_leb from_date d && date_leb d to_date then 1%nat else 0%nat.
Proof.
  intros Hf Ht Hle Hl Hd.
  unfold get_period_date_ranges, getdate in Hl. cbn [bind] in Hl.
  destruct (period_loop_sequence _ _ Ht _ _ _ (Nat.lt_succ_diag_r _) Hf Hle Hl)
    as ((b & rest & -> & Hfirst) & (front & last & Hlast & Hend) & Hw & Hc & _).
  assert (He : ends_at to_date (b :: rest)).
  { rewrite Hlast, <- Hend. apply ends_at_snoc. }
  destruct (date_leb from_date d) eqn:E1; cbn [andb].
  - destruct (date_leb d to_date) eqn:E2.
    + apply (one_bucket d to_date); try assumption.
      rewrite Hfirst. exact E1.
    + rewrite (none_after d to_date); [reflexivity | |].
      * apply to_le_end; assumption.
      * apply date_leb_total. exact E2.
  - rewrite none_before; [reflexivity | exact Hc | exact Hw |].
    rewrite Hfirst. apply date_leb_total. exact E1.
Qed.

Lemma buckets_partition_range_witness :
  List.length (filter (in_bucket (mkdate 2025 7 14)) quarterly_2025) = 1%nat.
Proof.
  exact (buckets_partition_range (PStr "Quarterly") (mkdate 2025 1 15)
           (mkdate 2025 12 31) quarterly_2025 (mkdate 2025 7 14)
           eq_refl eq_refl eq_refl quarterly_2025_buckets eq_refl).
Defined.

(** ** A limit written as a number *)

Lemma string_of_uint_is_digit d :
  all_chars is_digit (NilEmpty.string_of_uint d) = true.
Proof. induction d; cbn; auto. Qed.

Lemma decimal_value_acc d : forall acc : positive,
  decimal_value (NilEmpty.string_of_uint d) (Z.pos acc) =
  Z.pos (Pos.of_uint_acc d acc).
Proof.
  induction d as [| d IH | d IH | d IH | d IH | d IH | d IH | d IH | d IH
                  | d IH | d IH]; intros acc;
    cbn [NilEmpty.string_of_uint decimal_value Pos.of_uint_acc];
    [reflexivity | ..]; rewrite <- IH; f_equal;
    match goal with
    | |- context [digit_value ?c] =>
        let v := eval vm_compute in (digit_value c) in
        change (digit_value c) with v
    end; lia.
Qed.

Lemma decimal_value_of_uint d :
  decimal_value (NilEmpty.string_of_uint d) 0 = Z.of_N (Pos.of_uint d).
Proof.
  induction d as [| d IH | d IH | d IH | d IH | d IH | d IH | d IH | d IH
                  | d IH | d IH];
    cbn [NilEmpty.string_of_uint decimal_value Pos.of_uint];
    [reflexivity | exact IH | ..];
    match goal with
    | |- decimal_value _ ?a = _ =>
        let v := eval vm_compute in a in change a with v
    end; apply decimal_value_acc.
Qed.

(** [int(str(n)) == n] *)
Lemma int_of_string_of_Z n : int_of_string (string_of_Z n) = Some n.
Proof.
  unfold string_of_Z. destruct n as [| p | p]; cbn [Z.to_int].
  - reflexivity.
  - cbn [NilZero.string_of_int].
    pose proof (DecimalPos.Unsigned.to_uint_nonnil p) as Hn.
    pose proof (DecimalPos.Unsigned.of_to p) as Hp.
    pose proof (string_of_uint_is_digit (Pos.to_uint p)) as Hd.
    pose proof (decimal_value_of_uint (Pos.to_uint p)) as Hv.
    destruct (Pos.to_uint p) as [| u | u | u | u | u | u | u | u | u | u]
      eqn:E; [congruence | ..];
      cbn [NilZero.string_of_uint NilEmpty.string_of_uint] in *;
      rewrite (int_of_digits _ _ Hd), Hv, Hp; reflexivity.
  - cbn [NilZero.string_of_int].
    pose proof (DecimalPos.Unsigned.to_uint_nonnil p) as Hn.
    pose proof (DecimalPos.Unsigned.of_to p) as Hp.
    pose proof (string_of_uint_is_digit (Pos.to_uint p)) as Hd.
    pose proof (decimal_value_of_uint (Pos.to_uint p)) as Hv.
    set (s := NilZero.string_of_uint (Pos.to_uint p)).
    assert (Hs : s = NilEmpty.string_of_uint (Pos.to_uint p) /\ s <> "").
    { subst s. destruct (Pos.to_uint p); [congruence | ..];
        split; try reflexivity; discriminate. }
    destruct Hs as [Hs Hne]. rewrite <- Hs in Hd, Hv.
    unfold int_of_string, strip.
    change (lstrip (String "-" s)) with (String "-" s).
    cbn [string_rev].
    assert (Hl : lstrip (string_rev s ++ "-") = string_rev s ++ "-").
    { pose proof (all_chars_rev is_digit s) as Hr. rewrite Hd in Hr.
      destruct (string_rev s) as [| c r] eqn:Er.
      - apply (f_equal string_rev) in Er.
        rewrite string_rev_involutive in Er. contradiction.
      - cbn in Hr. apply andb_prop in Hr as [Hc _]. cbn [append lstrip].
        rewrite (is_digit_not_space _ Hc). reflexivity. }
    rewrite Hl, string_rev_app, string_rev_involutive. cbn [string_rev append].
    destruct s as [| c r]; [contradiction |].
    rewrite (parse_digits_all _ 0 false Hd), Hv, Hp. reflexivity.
Qed.



(** ** When the row shaper fails *)

Lemma py_sum_from_raise l : forall acc e,
  py_sum_from acc l = Raise e -> e = TypeError.
Proof.
  induction l as [| v l IH]; intros acc e; cbn [py_sum_from];
    [discriminate |].
  destruct acc, v; cbn [py_add bind]; try (intros [= <-]; reflexivity).
  apply IH.
Qed.

Lemma py_sum_from_ok l : forall acc v,
  py_sum_from acc l = Ok v -> Forall (fun x => is_num x = true) l.
Proof.
  induction l as [| x l IH]; intros acc v; cbn [py_sum_from];
    [constructor |].
  destruct acc, x; cbn [py_add bind]; try discriminate.
  intros H. constructor; [reflexivity | exact (IH _ _ H)].
Qed.

Lemma mapM_raise {A B} (f : A -> res B) l e :
  mapM f l = Raise e -> exists x, In x l /\ f x = Raise e.
Proof.
  induction l as [| x l IH]; cbn [mapM]; [discriminate |].
  destruct (f x) as [y |] eqn:Ex; cbn [bind].
  - destruct (mapM f l) as [ys |]; cbn [bind]; [discriminate |].
    intros [= <-]. destruct (IH eq_refl) as (x' & Hin & Hx').
    exists x'. split; [right; exact Hin | exact Hx'].
  - intros [= <-]. exists x. split; [left; reflexivity | exact Ex].
Qed.

Lemma numeric_data_row period_list r :
  numeric_data (row_data period_list r) -> numeric_row period_list r.
Proof.
  intros [Ht Hp]. split; [exact Ht |]. cbn [row_data sg_periods] in Hp.
  apply Forall_forall. intros p Hin. rewrite Forall_forall in Hp. apply Hp.
  assert (E : sget (period_values period_list r) (b_key p) =
              Some (py_get_default r (b_key p) (PNum 0))).
  { rewrite period_values_get.
    assert (Ex : existsb (String.eqb (b_key p)) (map b_key period_list)
                 = true).
    { apply existsb_exists. exists (b_key p). split;
        [apply in_map; exact Hin | apply String.eqb_refl]. }
    rewrite Ex. reflexivity. }
  apply (dict_get_In String.eqb String.eqb_eq) in E.
  unfold dict_values. apply in_map_iff.
  exists (b_key p, py_get_default r (b_key p) (PNum 0)). split;
    [reflexivity | exact E].
Qed.

Lemma group_block_raise cg subgroups e :
  group_block (cg, subgroups) = Raise e -> e = TypeError.
Proof.
  unfold group_block, group_row.
  destruct (py_sum (map sg_total (dict_values subgroups))) as [gt |] eqn:Et.
  2: { cbn [bind]. intros [= <-]. exact (py_sum_from_raise _ _ _ Et). }
  cbn [bind]. destruct (mapM _ _) as [sums |] eqn:Es; [discriminate |].
  cbn [bind]. intros [= <-].
  apply mapM_raise in Es as (k & _ & Hk).
  revert Hk. clear Et.
  destruct (py_sum _) as [v |] eqn:Ev; cbn [bind]; [discriminate |].
  intros [= <-]. exact (py_sum_from_raise _ _ _ Ev).
Qed.

Lemma group_block_ok_numeric period_list cg subgroups block :
  Forall (from_row period_list) (dict_values subgroups) ->
  group_block (cg, subgroups) = Ok block ->
  Forall numeric_data (dict_values subgroups).
Proof.
  intros Hfrom. unfold group_block, group_row.
  destruct (py_sum (map sg_total (dict_values subgroups))) as [gt |] eqn:Et;
    [| discriminate].
  cbn [bind]. destruct (mapM _ _) as [sums |] eqn:Es; [| discriminate].
  intros _. apply py_sum_from_ok in Et.
  apply mapM_Forall2 in Es.
  apply Forall_forall. intros d Hd.
  rewrite Forall_forall in Hfrom.
  destruct (from_row_keys _ _ (Hfrom d Hd)) as [Hkeys Hnd].
  split.
  - rewrite Forall_forall in Et. apply Et. apply in_map. exact Hd.
  - apply Forall_forall. intros v Hv. unfold dict_values in Hv.
    apply in_map_iff in Hv as ([k v'] & Ev & Hkv). cbn in Ev. subst v'.
    destruct (dict_values subgroups) as [| first rest] eqn:Evs;
      [contradiction |].
    destruct (from_row_keys _ _ (Hfrom first (or_introl eq_refl)))
      as [Hkf _].
    rewrite Hkf in Es.
    assert (Hk : In k (bucket_keys period_list)).
    { rewrite <- Hkeys. unfold dict_keys. apply in_map_iff.
      exists (k, v). auto. }
    assert (Hcol : exists s,
              py_sum (map (fun d => py_get_default (sg_periods d) k (PNum 0))
                        (first :: rest)) = Ok s).
    { clear - Es Hk. induction Es as [| k0 kv ks kvs Hk0 _ IH];
        [contradiction |].
      destruct Hk as [-> | Hk]; [| exact (IH Hk)].
      destruct (py_sum _) as [s |]; [eauto | discriminate]. }
    destruct Hcol as [s Hs]. apply py_sum_from_ok in Hs.
    rewrite Forall_forall in Hs.
    assert (E : py_get_default (sg_periods d) k (PNum 0) = v).
    { unfold py_get_default, sget.
      rewrite (In_dict_get String.eqb String.eqb_eq _ _ _ Hnd Hkv).
      reflexivity. }
    rewrite <- E. apply Hs.
    apply (in_map (fun d => py_get_default (sg_periods d) k (PNum 0))).
    exact Hd.
Qed.

(** An aggregate row that no later row of the same pair overwrites. *)
Definition shown_row (agg_rows : list (sdict pyval)) (r : sdict pyval)
  : Prop :=
  In r agg_rows /\ last_row (row_pair r) agg_rows = Some r.

(** X10. [build_hierarchical_rows] returns display rows exactly when the
    total and the bucket values of every aggregate row that is not
    overwritten by a later row of its pair are numbers (an absent cell
    counts as 0); otherwise one of its sums fails, and the only exception it
    can raise is a TypeError. *)
Theorem build_hierarchical_rows_failure agg_rows period_list :
  ((exists data, build_hierarchical_rows agg_rows period_list = Ok data) <->
   (forall r, shown_row agg_rows r -> numeric_row period_list r)) /\
  (forall e, build_hierarchical_rows agg_rows period_list = Raise e ->
             e = TypeError).
Proof.
  pose proof (build_nested_ok agg_rows period_list) as [Hnd Hok].
  assert (Hinv : nested_inv (fun _ => True)
                   (build_nested agg_rows period_list)).
  { apply build_nested_inv. apply Forall_forall. auto. }
  unfold build_hierarchical_rows. split; [split |].
  - intros [data Hdata] r [Hin Hlast].
    destruct (mapM group_block (build_nested agg_rows period_list))
      as [blocks |] eqn:Hm; [| discriminate].
    apply mapM_Forall2 in Hm.
    pose proof (build_nested_entry agg_rows period_list (row_pair r)) as He.
    rewrite Hlast in He. cbn [option_map] in He.
    apply In_entry_of in He as (S & H1 & H2).
    apply numeric_data_row.
    assert (HS : Forall numeric_data (dict_values S)).
    { rewrite Forall_forall in Hok.
      destruct (Hok S) as (_ & _ & Hfrom).
      { unfold dict_values. apply in_map_iff. exists (fst (row_pair r), S).
        auto. }
      clear - Hm H1 Hfrom. induction Hm as [| e b l bs He _ IH];
        [contradiction |].
      destruct H1 as [-> | H1]; [| exact (IH H1)].
      exact (group_block_ok_numeric _ _ _ _ Hfrom He). }
    rewrite Forall_forall in HS. apply HS. unfold dict_values.
    apply in_map_iff. exists (snd (row_pair r), row_data period_list r).
    auto.
  - intros Hnum.
    destruct (mapM_returns group_block (build_nested agg_rows period_list))
      as [blocks ->]; [| cbn; eauto].
    intros [cg S] Hin. apply group_block_returns.
    apply Forall_forall. intros d Hd. unfold dict_values in Hd.
    apply in_map_iff in Hd as ([sg d'] & Ed & Hsg). cbn in Ed. subst d'.
    pose proof (entry_of_In _ _ _ _ _ Hinv Hin Hsg) as He.
    rewrite build_nested_entry in He.
    destruct (last_row (cg, sg) agg_rows) as [r' |] eqn:Hl; [| discriminate].
    cbn [option_map] in He. injection He as <-.
    pose proof Hl as Hl'. unfold last_row in Hl'.
    apply find_some in Hl' as [Hin' Hp].
    apply same_pair_spec in Hp. apply in_rev in Hin'.
    apply row_data_numeric, Hnum. split; [exact Hin' |].
    rewrite Hp. exact Hl.
  - intros e.
    destruct (mapM group_block (build_nested agg_rows period_list))
      as [blocks |] eqn:Hm; [discriminate |].
    cbn [bind]. intros [= <-].
    apply mapM_raise in Hm as ([cg S] & _ & Hx).
    exact (group_block_raise _ _ _ Hx).
Qed.

(** ** Which message validation gives *)

Definition dates_missing (filters : sdict pyval) : Prop :=
  sget filters "from_date" = None \/ sget filters "to_date" = None.

Definition range_reversed (filters : sdict pyval) : Prop :=
  exists f t, sget filters "from_date" = Some (PDate f) /\
              sget filters "to_date" = Some (PDate t) /\
              date_ltb t f = true.

Definition period_unknown (filters : sdict pyval) : Prop :=
  exists v, sget filters "period" = Some v /\ ~ In v period_options.

Lemma validate_filters_value filters :
  dates_typed filters ->
  (dates_missing filters /\
   validate_filters filters = Raise (ValidationError msg_select_dates)) \/
  (~ dates_missing filters /\ range_reversed filters /\
   validate_filters filters = Raise (ValidationError msg_date_order)) \/
  (~ dates_missing filters /\ ~ range_reversed filters /\
   period_unknown filters /\
   validate_filters filters = Raise (ValidationError msg_period)) \/
  (~ dates_missing filters /\ ~ range_reversed filters /\
   ~ period_unknown filters /\ validate_filters filters = Ok tt).
Proof.
  intros [Hf Ht].
  unfold validate_filters, dates_missing, range_reversed, period_unknown,
    smem, dict_mem, py_item, py_get, throw, translate.
  fold (sget filters "from_date") (sget filters "to_date")
    (sget filters "period").
  destruct (sget filters "from_date") as [vf |] eqn:Ef.
  2: { left. split; [left |]; reflexivity. }
  destruct (sget filters "to_date") as [vt |] eqn:Et.
  2: { left. split; [right |]; reflexivity. }
  destruct (Hf vf eq_refl) as [f ->], (Ht vt eq_refl) as [t ->].
  cbn [negb orb bind getdate]. right.
  assert (Hpresent : ~ (Some (PDate f) = None \/ Some (PDate t) = None))
    by (intros [H | H]; discriminate H).
  destruct (date_ltb t f) eqn:Elt.
  { left. refine (conj Hpresent (conj _ eq_refl)). exists f, t. auto. }
  right.
  assert (Hrange : ~ (exists f0 t0, Some (PDate f) = Some (PDate f0) /\
                                    Some (PDate t) = Some (PDate t0) /\
                                    date_ltb t0 f0 = true)).
  { intros (f0 & t0 & [= <-] & [= <-] & H). congruence. }
  cbn [bind].
  destruct (sget filters "period") as [v |] eqn:Ep; cbn [andb].
  - destruct (py_in v period_options) eqn:Ein; cbn [negb].
    + right. refine (conj Hpresent (conj Hrange (conj _ eq_refl))).
      apply py_in_spec in Ein. intros (v' & [= <-] & H). contradiction.
    + left. refine (conj Hpresent (conj Hrange (conj _ eq_refl))).
      exists v. split; [reflexivity |]. rewrite <- py_in_spec. congruence.
  - right. refine (conj Hpresent (conj Hrange (conj _ eq_refl))).
    intros (v' & [=] & _).
Qed.

(** X11. Each of the three messages of [validate_filters] has its own
    cause, and the causes are tried in order: the message about selecting
    the dates is raised exactly when a date key is missing, whatever else is
    wrong; the message about the order of the dates exactly when both dates
    are there and [to_date < from_date]; the message about the period
    exactly when the dates are in order and a period is given that is not
    one of the four. *)
Theorem validate_filters_message filters :
  dates_typed filters ->
  (validate_filters filters = Raise (ValidationError msg_select_dates) <->
   dates_missing filters) /\
  (validate_filters filters = Raise (ValidationError msg_date_order) <->
   ~ dates_missing filters /\ range_reversed filters) /\
  (validate_filters filters = Raise (ValidationError msg_period) <->
   ~ dates_missing filters /\ ~ range_reversed filters /\
   period_unknown filters).
Proof.
  intros Hd.
  destruct (validate_filters_value filters Hd)
    as [(H1 & ->) | [(H1 & H2 & ->) | [(H1 & H2 & H3 & ->)
                                      | (H1 & H2 & H3 & ->)]]];
    unfold msg_select_dates, msg_date_order, msg_period;
    refine (conj _ (conj _ _));
    (split; [intros E; first [discriminate E | tauto]
            | intros; first [reflexivity | tauto]]).
Qed.

Lemma validate_filters_message_witness :
  validate_filters [("to_date", PDate (mkdate 2025 1 1));
                    ("period", PStr "Weekly")] =
  Raise (ValidationError msg_select_dates).
Proof.
  apply (validate_filters_message
           [("to_date", PDate (mkdate 2025 1 1)); ("period", PStr "Weekly")]).
  - split; intros v H; [discriminate H | injection H as <-; eauto].
  - left. reflexivity.
Defined.

(** ** Where the buckets start *)

Lemma add_months_day d n d' :
  valid_date d = true -> 0 <= n -> add_months d n = Ok d' ->
  day d' <= day d /\ (day d <= 28 -> day d' = day d).
Proof.
  intros Hv Hn. apply valid_date_spec in Hv.
  unfold add_months, date_new.
  set (y := if month d + n mod 12 >? 12 then _ else _).
  set (m := if month d + n mod 12 >? 12 then _ else _).
  destruct (valid_date _); [| discriminate].
  intros [= <-]. cbn [day].
  pose proof (days_in_month_bounds y m). lia.
Qed.

Lemma add_months_zero d : valid_date d = true -> add_months d 0 = Ok d.
Proof.
  intros Hv. pose proof Hv as Hs. apply valid_date_spec in Hs.
  destruct d as [y m dd]. cbn [year month day] in Hs.
  unfold add_months, date_new. cbn [year month day].
  change (0 / 12) with 0. change (0 mod 12) with 0. rewrite !Z.add_0_r.
  destruct (Z.gtb_spec m 12) as [H | _]; [lia |].
  rewrite Z.min_r by lia. rewrite Hv. reflexivity.
Qed.

(** A valid date is fixed by its month and its day of the month. *)
Lemma date_of_index a b :
  valid_date a = true -> valid_date b = true ->
  month_index a = month_index b -> day a = day b -> a = b.
Proof.
  rewrite !valid_date_spec. unfold month_index.
  destruct a as [ya ma da], b as [yb mb db]. cbn [year month day].
  intros Ha Hb Hi Hd. assert (ya = yb) by lia. assert (ma = mb) by lia.
  congruence.
Qed.

(** Month steps add up as long as the day is not clipped. *)
Lemma add_months_add d a b d1 d2 :
  valid_date d = true -> day d <= 28 -> 0 <= a -> 0 <= b ->
  add_months d a = Ok d1 -> add_months d1 b = Ok d2 ->
  add_months d (a + b) = Ok d2.
Proof.
  intros Hv Hday Ha Hb H1 H2.
  destruct (add_months_index _ _ _ Ha H1) as [Hi1 Hv1].
  destruct (add_months_index _ _ _ Hb H2) as [Hi2 Hv2].
  destruct (add_months_day _ _ _ Hv Ha H1) as [_ Hd1].
  destruct (add_months_day _ _ _ Hv1 Hb H2) as [_ Hd2].
  pose proof (valid_date_index _ Hv2) as Hmax.
  destruct (add_months_ok d (a + b) Hv) as [d3 H3]; [lia | lia |].
  assert (Hab : 0 <= a + b) by lia.
  destruct (add_months_index _ _ _ Hab H3) as [Hi3 Hv3].
  destruct (add_months_day _ _ _ Hv Hab H3) as [_ Hd3].
  rewrite H3. f_equal. apply date_of_index; try assumption; lia.
Qed.

Lemma period_loop_regular step to_date :
  forall n start l,
    (months_left start < n)%nat -> valid_date start = true ->
    period_loop step to_date start = Ok l ->
    Forall (fun b => day (b_from_date b) <= day start) l /\
    (forall i b1 b2, nth_error l i = Some b1 ->
                     nth_error l (S i) = Some b2 ->
                     add_months (b_from_date b1) (Z.pos step) =
                     Ok (b_from_date b2)) /\
    (day start <= 28 ->
     forall i b, nth_error l i = Some b ->
                 add_months start (Z.of_nat i * Z.pos step) =
                 Ok (b_from_date b)).
Proof.
  induction n as [| n IH]; intros start l Hn Hs; [lia |].
  rewrite period_loop_step.
  destruct (date_leb start to_date).
  2: { intros [= <-]. refine (conj _ (conj _ _)); [constructor | |];
         intros; destruct i; discriminate. }
  assert (Hpos : 0 < Z.pos step) by lia.
  destruct (add_months start (Z.pos step)) as [next |] eqn:Hnext;
    [| discriminate].
  pose proof (months_left_decreases _ _ _ Hpos Hnext) as Hdec.
  destruct (add_months_index _ _ _ (Z.lt_le_incl _ _ Hpos) Hnext)
    as [Hidx Hvn].
  destruct (add_months_day _ _ _ Hs (Z.lt_le_incl _ _ Hpos) Hnext)
    as [Hday Hsame].
  destruct (sub_one_day next) as [e |]; [| discriminate]. cbn [bind].
  destruct (period_loop step to_date next) as [rest |] eqn:Hrest;
    [| discriminate].
  cbn [bind]. intros [= <-].
  destruct (IH next rest ltac:(lia) Hvn Hrest) as (Hle & Hcons & Hreg).
  refine (conj _ (conj _ _)).
  - constructor; [cbn; lia |].
    eapply Forall_impl; [| exact Hle]. cbn. intros b Hb. lia.
  - intros [| i] b1 b2 H1 H2; cbn [nth_error] in H1, H2.
    + injection H1 as <-. cbn [b_from_date].
      destruct rest as [| r0 rest']; [discriminate |].
      cbn in H2. injection H2 as <-.
      rewrite period_loop_step in Hrest.
      destruct (date_leb next to_date); [| discriminate].
      destruct (add_months next (Z.pos step)); [| discriminate].
      destruct (sub_one_day _); [| discriminate]. cbn [bind] in Hrest.
      destruct (period_loop step to_date _); [| discriminate].
      cbn [bind] in Hrest. injection Hrest as <- _. exact Hnext.
    + exact (Hcons i b1 b2 H1 H2).
  - intros H28 [| i] b Hb; cbn [nth_error] in Hb.
    + injection Hb as <-. cbn [b_from_date]. change (Z.of_nat 0 * _) with 0.
      apply add_months_zero. exact Hs.
    + replace (Z.of_nat (S i) * Z.pos step)
        with (Z.pos step + Z.of_nat i * Z.pos step) by lia.
      apply (add_months_add start _ _ next); try assumption; try lia.
      apply Hreg; [| exact Hb]. rewrite (Hsame H28). exact H28.
Qed.

(** X12. Each bucket of [get_period_date_ranges] starts the period's
    number of months after the start of the bucket before it, as
    [relativedelta] adds months: the day of the month is clipped to the
    length of the target month and the clipped day is carried on.  So no
    bucket starts on a later day of the month than [from_date]; and when
    [from_date] falls on the 28th or earlier nothing is clipped and the
    bucket at index [i] starts exactly [i] periods of months after
    [from_date]. *)
Theorem bucket_starts_regular period from_date to_date l :
  valid_date from_date = true ->
  get_period_date_ranges period (PDate from_date) (PDate to_date) = Ok l ->
  (forall b, In b l -> day (b_from_date b) <= day from_date) /\
  (forall i b1 b2, nth_error l i = Some b1 -> nth_error l (S i) = Some b2 ->
                   add_months (b_from_date b1) (period_months period) =
                   Ok (b_from_date b2)) /\
  (day from_date <= 28 ->
   forall i b, nth_error l i = Some b ->
               add_months from_date (Z.of_nat i * period_months period) =
               Ok (b_from_date b)).
Proof.
  intros Hv Hl. unfold get_period_date_ranges, getdate in Hl.
  cbn [bind] in Hl.
  destruct (period_loop_regular _ _ _ _ _ (Nat.lt_succ_diag_r _) Hv Hl)
    as (Hle & Hcons & Hreg).
  refine (conj _ (conj Hcons Hreg)).
  rewrite Forall_forall in Hle. exact Hle.
Qed.

Lemma bucket_starts_regular_witness :
  add_months (mkdate 2025 1 15) (Z.of_nat 3 * period_months (PStr "Quarterly"))
  = Ok (mkdate 2025 10 15).
Proof.
  destruct (bucket_starts_regular (PStr "Quarterly") (mkdate 2025 1 15)
              (mkdate 2025 12 31) quarterly_2025 eq_refl
              quarterly_2025_buckets) as (_ & _ & H).
  apply (H ltac:(cbn; lia) 3%nat
           (mkbucket "Oct_2025" "Oct 2025" (mkdate 2025 10 15)
              (mkdate 2025 12 31))).
  reflexivity.
Defined.

(** From the last day of January the monthly buckets start on the 28th
    from February on. *)
Example month_end_starts :
  option_map (map b_from_date)
    (match get_period_date_ranges (PStr "Monthly") (PDate (mkdate 2025 1 31))
             (PDate (mkdate 2025 4 30)) with
     | Ok l => Some l
     | Raise _ => None
     end) =
  Some [mkdate 2025 1 31; mkdate 2025 2 28; mkdate 2025 3 28;
        mkdate 2025 4 28].
Proof. vm_compute. reflexivity. Qed.

(** * Report 1: the columns and the entry point *)

Module MostSelling.

Definition get_columns : list (sdict pyval) :=
  [ [("label", PStr "Item Code"); ("fieldname", PStr "item_code");
     ("fieldtype", PStr "Link"); ("options", PStr "Item");
     ("width", PNum 150)];
    [("label", PStr "Item Name"); ("fieldname", PStr "item_name");
     ("fieldtype", PStr "Data"); ("width", PNum 200)];
    [("label", PStr "Item Group"); ("fieldname", PStr "item_group");
     ("fieldtype", PStr "Link"); ("options", PStr "Item Group");
     ("width", PNum 150)];
    [("label", PStr "Total Sold Qty"); ("fieldname", PStr "total_qty");
     ("fieldtype", PStr "Float"); ("width", PNum 120)];
    [("label", PStr "Total Sales Amount"); ("fieldname", PStr "total_amount");
     ("fieldtype", PStr "Currency"); ("width", PNum 150)];
    [("label", PStr "Current Stock"); ("fieldname", PStr "current_stock");
     ("fieldtype", PStr "Float"); ("width", PNum 120)];
    [("label", PStr "Safety Stock"); ("fieldname", PStr "safety_stock");
     ("fieldtype", PStr "Float"); ("width", PNum 120)];
    [("label", PStr "Shortage Qty"); ("fieldname", PStr "shortage_qty");
     ("fieldtype", PStr "Float"); ("width", PNum 120)] ].

Section Run.
Variable db_sql : string -> sdict pyval -> list (sdict pyval).

(** [execute(filters=None)]: [filters or {}], then the columns and the
    data. *)
Definition execute (filters : option (sdict pyval))
  : res (list (sdict pyval) * list (sdict pyval)) :=
  let filters := match filters with Some f => f | None => [] end in
  let columns := get_columns in
  data <- get_data db_sql filters ;;
  Ok (columns, data).
End Run.

End MostSelling.

(** The text of a fieldname. *)
Definition fieldname_text (c : sdict pyval) : string :=
  match py_get c "fieldname" with PStr s => s | _ => "" end.

Lemma most_selling_aliases :
  forallb (fun c => contains (" AS " ++ fieldname_text c) query_select)
    MostSelling.get_columns = true.
Proof. vm_compute. reflexivity. Qed.


(** * Report 2: columns and query *)

Lemma contains_trans a b c :
  contains a b = true -> contains b c = true -> contains a c = true.
Proof.
  rewrite !contains_spec. intros (u & v & ->) (u' & v' & ->).
  exists (u' ++ u), (v ++ v'). rewrite !string_app_assoc. reflexivity.
Qed.

Lemma period_part_in_sql filters period_list q p :
  get_aggregated_query filters period_list = Ok q ->
  In p period_list ->
  contains ("AS `" ++ b_key p ++ "`") (q_sql q) = true.
Proof.
  unfold get_aggregated_query.
  destruct (py_item filters "from_date"); [| discriminate].
  destruct (py_item filters "to_date"); [| discriminate].
  cbn [bind]. destruct (add_optionals _ _) as [conditions params].
  intros [= <-] Hin. cbn [q_sql].
  apply In_nth_error in Hin as [i Hi].
  set (ve := value_expr_of _).
  apply (contains_trans _ (period_sql_part ve i p)).
  - unfold period_sql_part. apply contains_spec.
    exists ("SUM(CASE WHEN si.posting_date BETWEEN %(p_from_" ++
            index_text i ++ ")s AND %(p_to_" ++ index_text i ++
            ")s THEN " ++ ve ++ " ELSE 0 END) "), "".
    rewrite !string_app_assoc, string_app_nil_r. reflexivity.
  - unfold sql_text. apply contains_app_r, contains_app_l, contains_join.
    apply in_map_iff. exists (i, p). split; [reflexivity |].
    exact (In_enumerate_from period_list 0 i p Hi).
Qed.

Lemma period_loop_keys_NoDup step to_date start l :
  valid_date start = true ->
  period_loop step to_date start = Ok l ->
  NoDup (map b_key l) /\
  Forall (fun b => String.length (b_key b) = 8%nat) l.
Proof.
  intros Hv Hl.
  destruct (period_loop_starts _ _ _ _ _ (Nat.lt_succ_diag_r _) Hv Hl)
    as (Hfmt & _ & Hsorted).
  split.
  - eapply StronglySorted_NoDup_map; [| exact Hsorted].
    rewrite Forall_forall in Hfmt. intros a b Ha Hb Hab E.
    destruct (Hfmt a Ha) as (Ka & _ & Va), (Hfmt b Hb) as (Kb & _ & Vb).
    rewrite Ka, Kb in E.
    destruct (strftime_key_inj _ _ Va Vb E) as [Ey Em].
    unfold earlier_month, month_index in Hab. lia.
  - eapply Forall_impl; [| exact Hfmt]. intros b (Kb & _).
    rewrite Kb. apply strftime_key_length.
Qed.

Lemma fieldnames_NoDup ks :
  NoDup ks -> Forall (fun k => String.length k = 8%nat) ks ->
  NoDup (PStr "customer_group" :: PStr "custom_sub_group" ::
         map PStr ks ++ [PStr "total"])%list.
Proof.
  intros Hnd Hlen. rewrite Forall_forall in Hlen.
  assert (Hout : forall s, String.length s <> 8%nat ->
                           ~ In (PStr s) (map PStr ks)).
  { intros s Hs Hin. apply in_map_iff in Hin as (k & [= <-] & Hk).
    apply Hs, Hlen, Hk. }
  assert (Hmap : NoDup (map PStr ks)).
  { clear Hlen Hout. induction Hnd as [| k ks Hk _ IH]; constructor;
      [| exact IH].
    intros Hin. apply in_map_iff in Hin as (k' & [= <-] & Hk').
    contradiction. }
  constructor; [| constructor].
  - cbn [In]. rewrite in_app_iff. cbn [In].
    intros [H | [H | [H | []]]]; try discriminate H.
    exact (Hout "customer_group" ltac:(discriminate) H).
  - rewrite in_app_iff. cbn [In]. intros [H | [H | []]]; try discriminate H.
    exact (Hout "custom_sub_group" ltac:(discriminate) H).
  - apply NoDup_app; [exact Hmap | repeat constructor; cbn; tauto |].
    intros x Hx [<- | []].
    exact (Hout "total" ltac:(discriminate) Hx).
Qed.



(** * Report 2: how a run can fail *)

Lemma add_months_raise d n e : add_months d n = Raise e -> e = ValueError.
Proof.
  unfold add_months, date_new. destruct (valid_date _); [discriminate |].
  intros [= <-]. reflexivity.
Qed.

Lemma period_loop_raise step to_date :
  forall n start e,
    (months_left start < n)%nat -> valid_date start = true ->
    period_loop step to_date start = Raise e -> e = ValueError.
Proof.
  induction n as [| n IH]; intros start e Hn Hs; [lia |].
  rewrite period_loop_step.
  destruct (date_leb start to_date); [| discriminate].
  assert (Hpos : 0 < Z.pos step) by lia.
  destruct (add_months start (Z.pos step)) as [next | e'] eqn:Hnext.
  2: { intros [= <-]. exact (add_months_raise _ _ _ Hnext). }
  pose proof (months_left_decreases _ _ _ Hpos Hnext) as Hdec.
  destruct (add_months_index _ _ _ (Z.lt_le_incl _ _ Hpos) Hnext)
    as [_ Hvn].
  pose proof (add_months_later _ _ _ Hs Hpos Hnext) as Hlater.
  destruct (sub_one_day_spec _ _ Hs Hvn Hlater) as (d & -> & _).
  cbn [bind].
  destruct (period_loop step to_date next) as [rest | e'] eqn:Hrest;
    cbn [bind]; [discriminate |].
  intros [= <-]. apply (IH next e' ltac:(lia) Hvn Hrest).
Qed.

Lemma build_hierarchical_rows_raise agg_rows period_list e :
  build_hierarchical_rows agg_rows period_list = Raise e -> e = TypeError.
Proof.
  unfold build_hierarchical_rows.
  destruct (mapM group_block (build_nested agg_rows period_list))
    as [blocks |] eqn:Hm; [discriminate |].
  cbn [bind]. intros [= <-].
  apply mapM_raise in Hm as ([cg S] & _ & Hx).
  exact (group_block_raise _ _ _ Hx).
Qed.

Lemma get_chart_data_raise filters columns data period_list e :
  get_chart_data filters columns data period_list = Raise e -> e = TypeError.
Proof.
  unfold get_chart_data.
  destruct (mapM _ _) as [totals |] eqn:Hm; [discriminate |].
  cbn [bind]. intros [= <-].
  apply mapM_raise in Hm as (col & _ & Hx).
  exact (py_sum_from_raise _ _ _ Hx).
Qed.

(** The dates of the filters are dates of the calendar. *)
Definition dates_valid (filters : sdict pyval) : Prop :=
  (forall d, sget filters "from_date" = Some (PDate d) ->
             valid_date d = true) /\
  (forall d, sget filters "to_date" = Some (PDate d) -> valid_date d = true).

(** The step past the last bucket would leave the calendar. *)
Definition calendar_exceeded (filters : sdict pyval) : Prop :=
  exists t, sget filters "to_date" = Some (PDate t) /\
            MAX_INDEX < month_index t +
              period_months (py_get_default filters "period" (PStr "Monthly")).



(** * Report 2: what the query text depends on *)

Lemma period_parts_keys value_expr : forall period_list period_list' i,
  map b_key period_list = map b_key period_list' ->
  map (fun ip : nat * bucket => period_sql_part value_expr (fst ip) (snd ip))
      (enumerate_from i period_list) =
  map (fun ip : nat * bucket => period_sql_part value_expr (fst ip) (snd ip))
      (enumerate_from i period_list').
Proof.
  induction period_list as [| p l IH]; intros [| p' l'] i H;
    try discriminate H; [reflexivity |].
  cbn [map] in H. injection H as Hk Hl. cbn [enumerate_from map fst snd].
  rewrite (IH l' (S i) Hl). unfold period_sql_part. rewrite Hk.
  reflexivity.
Qed.

Lemma Ok_inj {A} (a b : A) : Ok a = Ok b -> a = b.
Proof. congruence. Qed.

(** X16. The SQL text of report 2 holds no filter value.  Two filter sets
    that agree on whether [value_quantity] selects the amount and on which
    of the eight optional filters are given, with buckets of the same keys,
    get the same SQL text, whatever the values of their filters and the
    dates of their buckets are: those reach the database as parameters
    only. *)
Theorem sql_text_independent filters filters' period_list period_list' q q' :
  get_aggregated_query filters period_list = Ok q ->
  get_aggregated_query filters' period_list' = Ok q' ->
  map b_key period_list = map b_key period_list' ->
  value_expr_of (py_get_default filters "value_quantity" (PStr "Value")) =
  value_expr_of (py_get_default filters' "value_quantity" (PStr "Value")) ->
  (forall name cond, In (name, cond) optional_filters ->
     truthy (py_get filters name) = truthy (py_get filters' name)) ->
  q_sql q = q_sql q'.
Proof.
  unfold get_aggregated_query. intros Hq Hq' Hkeys Hve Hgiven.
  destruct (py_item filters "from_date"); [| discriminate].
  destruct (py_item filters "to_date"); [| discriminate].
  destruct (py_item filters' "from_date"); [| discriminate].
  destruct (py_item filters' "to_date"); [| discriminate].
  cbn [bind] in Hq, Hq'. unfold add_optionals in Hq, Hq'.
  rewrite add_optionals_fold in Hq, Hq'.
  apply Ok_inj in Hq, Hq'. rewrite <- Hq, <- Hq'. cbn [q_sql].
  rewrite Hve, (period_parts_keys _ _ _ 0%nat Hkeys).
  assert (Hf : filter (given filters) optional_filters =
               filter (given filters') optional_filters).
  { apply filter_ext_in. intros [name cond] Hin. unfold given.
    cbn [fst]. exact (Hgiven name cond Hin). }
  rewrite Hf. reflexivity.
Qed.

Lemma sql_text_independent_witness :
  exists q q',
    get_aggregated_query
      [("from_date", PDate (mkdate 2025 1 15));
       ("to_date", PDate (mkdate 2025 12 31));
       ("company", PStr "Acme")] quarterly_2025 = Ok q /\
    get_aggregated_query
      [("from_date", PDate (mkdate 2025 1 1));
       ("to_date", PDate (mkdate 2025 12 1));
       ("company", PStr "x' OR '1'='1")] quarterly_2025 = Ok q' /\
    q_sql q = q_sql q'.
Proof.
  eexists _, _. split; [reflexivity |]. split; [reflexivity |].
  apply (sql_text_independent
           [("from_date", PDate (mkdate 2025 1 15));
            ("to_date", PDate (mkdate 2025 12 31));
            ("company", PStr "Acme")]
           [("from_date", PDate (mkdate 2025 1 1));
            ("to_date", PDate (mkdate 2025 12 1));
            ("company", PStr "x' OR '1'='1")]
           quarterly_2025 quarterly_2025); try reflexivity.
  intros name cond Hin. cbn in Hin.
  repeat (destruct Hin as [[= <- <-] | Hin]; [reflexivity |]).
  contradiction.
Defined.

(** * Report 2: no sales in the range *)

Lemma chart_of_no_rows filters columns period_list :
  get_chart_data filters columns [] period_list =
  Ok (mk_chart (map b_label period_list) (translate "Sales")
        (map (fun _ => PNum 0) period_list) "bar").
Proof.
  unfold get_chart_data.
  assert (E : forall l : list string,
            mapM (fun col => py_sum (map (cell_or_zero col) [])) l =
            Ok (map (fun _ => PNum 0) l)).
  { induction l as [| k l IH]; [reflexivity |].
    cbn [mapM]. rewrite IH. reflexivity. }
  rewrite E, map_map. reflexivity.
Qed.

(** X17. When the database has no row for the query, a run of report 2
    on valid filters still succeeds: it returns the columns of the buckets,
    no display row, and a bar chart with the bucket labels and the value 0
    for every bucket. *)
Theorem execute_no_rows db_sql filters log f t :
  sget filters "from_date" = Some (PDate f) ->
  sget filters "to_date" = Some (PDate t) ->
  valid_date f = true -> valid_date t = true ->
  date_leb f t = true ->
  (forall v, sget filters "period" = Some v -> In v period_options) ->
  month_index t +
    period_months (py_get_default filters "period" (PStr "Monthly"))
    <= MAX_INDEX ->
  (forall sql params, db_sql sql params = []) ->
  exists period_list q,
    get_period_date_ranges
      (py_get_default filters "period" (PStr "Monthly")) (PDate f) (PDate t)
      = Ok period_list /\
    get_aggregated_query filters period_list = Ok q /\
    execute db_sql (Some filters) log =
    ((log ++ [(q_sql q, q_params q)])%list,
     Ok (mk_output (get_columns period_list) []
           (mk_chart (map b_label period_list) "Sales"
              (map (fun _ => PNum 0) period_list) "bar"))).
Proof.
  intros H1 H2 Vf Vt Hle Hp Hcal Hdb.
  pose proof (validate_filters_returns filters f t H1 H2 Hle Hp) as Hv.
  destruct (period_loop_returns
              (increments_get
                 (py_get_default filters "period" (PStr "Monthly")))
              t Vt Hcal _ f (Nat.lt_succ_diag_r _) Vf) as [pl Hpl].
  assert (Hget : get_period_date_ranges
                   (py_get_default filters "period" (PStr "Monthly"))
                   (PDate f) (PDate t) = Ok pl) by exact Hpl.
  destruct (get_aggregated_query_closed filters pl _ _ H1 H2)
    as (q & Hq & _).
  exists pl, q. refine (conj Hget (conj Hq _)).
  unfold execute. rewrite Hv. unfold py_item. rewrite H1, H2.
  cbn [bind]. rewrite Hget. unfold get_aggregated_rows. rewrite Hq, Hdb.
  cbn [map]. change (build_hierarchical_rows [] pl) with (@Ok _ (@nil (sdict pyval))).
  cbn [bind]. rewrite chart_of_no_rows. reflexivity.
Qed.

Lemma execute_no_rows_witness :
  exists q,
    execute (fun _ _ => [])
      (Some [("from_date", PDate (mkdate 2025 1 15));
             ("to_date", PDate (mkdate 2025 12 31));
             ("period", PStr "Quarterly")]) [] =
    ([(q_sql q, q_params q)],
     Ok (mk_output (get_columns quarterly_2025) []
           (mk_chart ["Jan 2025"; "Apr 2025"; "Jul 2025"; "Oct 2025"] "Sales"
              [PNum 0; PNum 0; PNum 0; PNum 0] "bar"))).
Proof.
  destruct (execute_no_rows (fun _ _ => [])
              [("from_date", PDate (mkdate 2025 1 15));
               ("to_date", PDate (mkdate 2025 12 31));
               ("period", PStr "Quarterly")] []
              (mkdate 2025 1 15) (mkdate 2025 12 31))
    as (pl & q & Hpl & _ & He); try reflexivity.
  - intros v H. injection H as <-. cbn. tauto.
  - vm_compute. discriminate.
  - exists q.
    assert (E : pl = quarterly_2025).
    { apply Ok_inj. rewrite <- Hpl. vm_compute. reflexivity. }
    rewrite E in He. exact He.
Defined.

(** * Report 2: how many buckets *)

Lemma period_loop_length step to_date :
  valid_date to_date = true ->
  forall n start l,
    (months_left start < n)%nat -> valid_date start = true ->
    date_leb start to_date = true ->
    period_loop step to_date start = Ok l ->
    (Z.of_nat (List.length l) - 1) * Z.pos step
      <= month_index to_date - month_index start
      <= Z.of_nat (List.length l) * Z.pos step.
Proof.
  intros Hto. induction n as [| n IH]; intros start l Hn Hs Hle; [lia |].
  rewrite period_loop_step, Hle.
  assert (Hpos : 0 < Z.pos step) by lia.
  destruct (add_months start (Z.pos step)) as [next |] eqn:Hnext;
    [| discriminate].
  pose proof (months_left_decreases _ _ _ Hpos Hnext) as Hdec.
  destruct (add_months_index _ _ _ (Z.lt_le_incl _ _ Hpos) Hnext)
    as [Hidx Hvn].
  destruct (sub_one_day next) as [e |]; [| discriminate]. cbn [bind].
  destruct (period_loop step to_date next) as [rest |] eqn:Hrest;
    [| discriminate].
  cbn [bind]. intros [= <-]. cbn [List.length].
  pose proof (date_leb_month_index _ _ Hs Hto Hle) as Hfirst.
  destruct (date_leb next to_date) eqn:Hnle.
  - pose proof (IH next rest ltac:(lia) Hvn Hnle Hrest). lia.
  - rewrite (period_loop_past _ _ _ Hnle) in Hrest. injection Hrest as <-.
    apply date_leb_total, date_ltb_leb in Hnle.
    pose proof (date_leb_month_index _ _ Hto Hvn Hnle). cbn [List.length].
    lia.
Qed.

(** X18. The number of buckets, and so of period columns, follows from
    the number [k] of months from the month of [from_date] to the month of
    [to_date] and the period's number [s] of months: with [n] buckets,
    [(n - 1) * s <= k <= n * s].  There are [n + 3] columns. *)
Theorem bucket_count period from_date to_date l :
  valid_date from_date = true -> valid_date to_date = true ->
  date_leb from_date to_date = true ->
  get_period_date_ranges period (PDate from_date) (PDate to_date) = Ok l ->
  (Z.of_nat (List.length l) - 1) * period_months period
    <= month_index to_date - month_index from_date
    <= Z.of_nat (List.length l) * period_months period /\
  List.length (get_columns l) = (List.length l + 3)%nat.
Proof.
  intros Hf Ht Hle Hl. unfold get_period_date_ranges, getdate in Hl.
  cbn [bind] in Hl. split.
  - exact (period_loop_length _ _ Ht _ _ _ (Nat.lt_succ_diag_r _) Hf Hle Hl).
  - unfold get_columns. rewrite !length_app, length_map. cbn [List.length].
    lia.
Qed.

Lemma bucket_count_witness :
  (Z.of_nat (List.length quarterly_2025) - 1) * period_months (PStr "Quarterly")
    <= month_index (mkdate 2025 12 31) - month_index (mkdate 2025 1 15)
    <= Z.of_nat (List.length quarterly_2025) * period_months (PStr "Quarterly")
  /\ List.length (get_columns quarterly_2025) = 7%nat.
Proof.
  exact (bucket_count (PStr "Quarterly") (mkdate 2025 1 15)
           (mkdate 2025 12 31) quarterly_2025 eq_refl eq_refl eq_refl
           quarterly_2025_buckets).
Defined.

(** * Report 2: what every returned output satisfies *)

Lemma display_rows_sums agg_rows period_list data :
  ~ In "indent" (map b_key period_list) ->
  build_hierarchical_rows agg_rows period_list = Ok data ->
  forall i g, nth_error data i = Some g -> is_group_row g = true ->
              sums_children period_list g (children_of data i).
Proof.
  intros Hind. unfold build_hierarchical_rows.
  destruct (mapM group_block (build_nested agg_rows period_list))
    as [blocks |] eqn:Eb; [| discriminate].
  cbn [bind]. intros [= <-].
  apply concat_blocks_children.
  apply mapM_Forall2 in Eb.
  destruct (build_nested_ok agg_rows period_list) as [_ Hall].
  rewrite Forall_forall in Hall.
  assert (Hpre : forall e, In e (build_nested agg_rows period_list) ->
            snd e <> [] /\
            Forall (from_row period_list) (dict_values (snd e))).
  { intros e He. destruct (Hall (snd e)) as (H1 & _ & H2);
      [unfold dict_values; apply in_map; exact He | auto]. }
  clear Hall. induction Eb as [| [cg S] block l bl Hb _ IH]; constructor.
  - destruct (Hpre (cg, S) (or_introl eq_refl)) as [H1 H2].
    eapply group_block_ok; eauto.
  - apply IH. intros e He. apply Hpre. right. exact He.
Qed.

Lemma formatted_keys_length period_list name :
  Forall formatted_from_start period_list ->
  String.length name <> 8%nat ->
  ~ In name (map b_key period_list).
Proof.
  intros Hfmt Hlen Hin. apply in_map_iff in Hin as (p & <- & Hp).
  rewrite Forall_forall in Hfmt. destruct (Hfmt p Hp) as (Hk & _).
  apply Hlen. rewrite Hk. apply strftime_key_length.
Qed.



(** * Report 2: the labels of the display rows *)

Lemma py_or_truthy v s : s <> "" -> truthy (py_or v (PStr s)) = true.
Proof.
  intros Hs. unfold py_or. destruct (truthy v) eqn:E; [exact E |].
  cbn [truthy]. destruct (String.eqb_spec s ""); [contradiction |].
  reflexivity.
Qed.

Lemma distinct_In {K} (eqb : K -> K -> bool)
  (eqb_eq : forall a b, eqb a b = true <-> a = b) l x :
  In x (distinct eqb l) <-> In x l.
Proof.
  induction l as [| y l IH]; cbn [distinct In]; [tauto |].
  rewrite filter_In, IH. split.
  - intros [H | [H _]]; auto.
  - intros [H | H]; [auto |].
    destruct (eqb y x) eqn:E; [left; apply eqb_eq; exact E |].
    right. split; [exact H | reflexivity].
Qed.

Lemma In_expected_labels agg_rows x :
  In x (expected_labels agg_rows) <->
  exists r, In r agg_rows /\
            (x = (row_group r, PStr "") \/ x = (PStr "", row_sub_group r)).
Proof.
  unfold expected_labels, groups_seen, sub_groups_seen.
  rewrite in_flat_map. split.
  - intros (g & Hg & [<- | Hx]).
    + apply (proj1 (distinct_In pyval_eqb pyval_eqb_eq _ _)) in Hg.
      apply in_map_iff in Hg as (r & <- & Hr). eauto.
    + apply in_map_iff in Hx as (sg & <- & Hsg).
      apply (proj1 (distinct_In pyval_eqb pyval_eqb_eq _ _)) in Hsg.
      apply in_map_iff in Hsg as (r & <- & Hr).
      apply filter_In in Hr as [Hr _]. eauto.
  - intros (r & Hr & [-> | ->]).
    + exists (row_group r). split; [| left; reflexivity].
      apply (proj2 (distinct_In pyval_eqb pyval_eqb_eq _ _)), in_map, Hr.
    + exists (row_group r). split.
      * apply (proj2 (distinct_In pyval_eqb pyval_eqb_eq _ _)), in_map, Hr.
      * right. apply in_map.
        apply (proj2 (distinct_In pyval_eqb pyval_eqb_eq _ _)).
        apply in_map. apply filter_In. split; [exact Hr |].
        apply pyval_eqb_eq. reflexivity.
Qed.

(** X20. No display row of report 2 has two empty labels, and no null or
    empty group leaves the report: when no bucket key is a label fieldname,
    every row of the output is either a group row, with a truthy group name
    and the empty sub group, or a child row, with the empty group name and a
    truthy sub group; every aggregate row has its group row and its child
    row; and a row whose group (sub group) is null, empty or 0 is shown
    under the placeholder "Undefined" ("(No Sub Group)"). *)
Theorem display_labels_never_empty agg_rows period_list data :
  ~ In "customer_group" (map b_key period_list) ->
  ~ In "custom_sub_group" (map b_key period_list) ->
  build_hierarchical_rows agg_rows period_list = Ok data ->
  (forall row, In row data ->
     (truthy (py_get row "customer_group") = true /\
      py_get row "custom_sub_group" = PStr "") \/
     (py_get row "customer_group" = PStr "" /\
      truthy (py_get row "custom_sub_group") = true)) /\
  (forall r, In r agg_rows ->
     In (row_group r, PStr "") (map label_cells data) /\
     In (PStr "", row_sub_group r) (map label_cells data)) /\
  (forall r, In r agg_rows ->
     (truthy (py_get r "customer_group") = false ->
      In (PStr "Undefined", PStr "") (map label_cells data)) /\
     (truthy (py_get r "custom_sub_group") = false ->
      In (PStr "", PStr "(No Sub Group)") (map label_cells data))).
Proof.
  intros Hcg Hsg Hb.
  pose proof (display_rows_labels _ _ _ Hcg Hsg Hb) as Hl.
  assert (Hin : forall r, In r agg_rows ->
            In (row_group r, PStr "") (map label_cells data) /\
            In (PStr "", row_sub_group r) (map label_cells data)).
  { intros r Hr. rewrite Hl. split; apply In_expected_labels; eauto. }
  refine (conj _ (conj Hin _)).
  - intros row Hrow.
    assert (Hx : In (label_cells row) (expected_labels agg_rows))
      by (rewrite <- Hl; apply in_map; exact Hrow).
    apply In_expected_labels in Hx as (r & _ & [E | E]);
      unfold label_cells in E; injection E as E1 E2; rewrite E1, E2.
    + left. split; [| reflexivity]. unfold row_group.
      apply py_or_truthy. discriminate.
    + right. split; [reflexivity |]. unfold row_sub_group.
      apply py_or_truthy. discriminate.
  - intros r Hr. destruct (Hin r Hr) as [H1 H2]. split; intros Hf.
    + unfold row_group, py_or in H1. rewrite Hf in H1. exact H1.
    + unfold row_sub_group, py_or in H2. rewrite Hf in H2. exact H2.
Qed.

Lemma display_labels_never_empty_witness :
  exists data,
    build_hierarchical_rows
      [ [("customer_group", PNone); ("custom_sub_group", PStr "");
         ("total", PNum 2)] ] [] = Ok data /\
    In (PStr "Undefined", PStr "") (map label_cells data) /\
    In (PStr "", PStr "(No Sub Group)") (map label_cells data).
Proof.
  eexists. split; [reflexivity |].
  destruct (display_labels_never_empty
              [ [("customer_group", PNone); ("custom_sub_group", PStr "");
                 ("total", PNum 2)] ] [] _
              (fun H => H) (fun H => H) eq_refl) as (_ & _ & H).
  destruct (H [("customer_group", PNone); ("custom_sub_group", PStr "");
               ("total", PNum 2)] (or_introl eq_refl)) as [H1 H2].
  split; [exact (H1 eq_refl) | exact (H2 eq_refl)].
Defined.
